(** * Label normalization engine of scandit-poc

    A shallow embedding of the label normalization code of the mobile
    scanner: the GS1 decoder ([gs1Parse.ts]), the OCR format registry
    ([labelFormats.ts]), the field registry ([labelPatterns.ts]), the
    structured-field mapper ([scanditLabelToOcrFormat.ts]) and the label
    built for an OCR text ([App.tsx]); and of the barcode parser of the web
    dashboard (its own [gs1Parse.ts]).

    Strings are sequences of 8-bit code units ([list ascii]); every pattern
    of the program tests ASCII units only, apart from [\s] and [trim], which
    also accept the no-break space (160).  Regular expressions are kept as
    syntax trees and run by a backtracking matcher that follows the
    ECMAScript matching rules (priority of alternatives, greedy and lazy
    quantifiers, captures, [^], [$] and [\b]). *)

From Stdlib Require Import Ascii String.
From Stdlib Require Import List Bool Arith Lia ZArith.
From Stdlib Require Import DecimalString.
Import ListNotations.

Abbreviation str := (list ascii).

(** String literals of the program are written [$"..."]. *)
Notation "$ s" := (list_ascii_of_string s) (at level 1, format "$ s").

Local Open Scope string_scope.
Local Open Scope list_scope.
Local Open Scope nat_scope.

(* ================================================================== *)
(** ** Code units *)

Module Chars.

Definition code (c : ascii) : nat := nat_of_ascii c.

Definition in_range (lo hi : nat) (c : ascii) : bool :=
  (lo <=? code c) && (code c <=? hi).

(** [\d] *)
Definition is_digit (c : ascii) : bool := in_range 48 57 c.
Definition is_upper (c : ascii) : bool := in_range 65 90 c.
Definition is_lower (c : ascii) : bool := in_range 97 122 c.
(** [[A-Za-z]] *)
Definition is_alpha (c : ascii) : bool := is_upper c || is_lower c.
(** [[A-Za-z0-9]] *)
Definition is_alnum (c : ascii) : bool := is_alpha c || is_digit c.
(** [[A-Z0-9]] *)
Definition is_upper_digit (c : ascii) : bool := is_upper c || is_digit c.
(** [\w], the word characters of [\b] *)
Definition is_word (c : ascii) : bool := is_alnum c || (code c =? 95).
(** [\s] and the units removed by [trim]: TAB, LF, VT, FF, CR, space and
    the no-break space. *)
Definition is_space (c : ascii) : bool :=
  in_range 9 13 c || (code c =? 32) || (code c =? 160).

Definition upper (c : ascii) : ascii :=
  if is_lower c then ascii_of_nat (code c - 32) else c.
Definition lower (c : ascii) : ascii :=
  if is_upper c then ascii_of_nat (code c + 32) else c.

(** A literal character of a pattern. *)
Definition ch (x : ascii) : ascii -> bool := Ascii.eqb x.
(** A literal character under the [i] flag. *)
Definition chi (x : ascii) : ascii -> bool := fun c => Ascii.eqb (upper x) (upper c).
(** A character class under the [i] flag: a unit matches when a member of
    the class has the same canonical (upper case) form. *)
Definition cls_i (p : ascii -> bool) : ascii -> bool :=
  fun c => p c || p (upper c) || p (lower c).

End Chars.
Import Chars.

Arguments is_digit : simpl never.
Arguments is_space : simpl never.
Arguments is_alnum : simpl never.
Arguments is_alpha : simpl never.
Arguments is_word : simpl never.
Arguments ch : simpl never.
Arguments chi : simpl never.

(* ================================================================== *)
(** ** String primitives of the host language *)

Module Str.

Fixpoint eqb (a b : str) : bool :=
  match a, b with
  | [], [] => true
  | x :: a', y :: b' => Ascii.eqb x y && eqb a' b'
  | _, _ => false
  end.

Fixpoint drop_while (p : ascii -> bool) (s : str) : str :=
  match s with
  | c :: s' => if p c then drop_while p s' else s
  | [] => []
  end.

Definition trimStart (s : str) : str := drop_while is_space s.
Definition trimEnd (s : str) : str := rev (drop_while is_space (rev s)).
(** [s.trim()] *)
Definition trim (s : str) : str := trimEnd (trimStart s).

(** [s.slice(a, b)] for [0 <= a <= b]. *)
Definition slice (a b : nat) (s : str) : str := firstn (b - a) (skipn a s).

(** [s.padStart(n, '0')] *)
Definition padStart0 (n : nat) (s : str) : str :=
  repeat "0"%char (n - length s) ++ s.

(** [s.toUpperCase()] on 8-bit units: the letters a-z and the Latin-1
    letters 224-254 (not the division sign 247) move down by 32 and the
    sharp s (223) becomes SS; 181 and 255, whose capitals are not 8-bit
    units, stay (no pattern of the program tests a unit above 127 after
    upper-casing). *)
Definition upper_units (c : ascii) : str :=
  if is_lower c then [ascii_of_nat (code c - 32)]
  else if in_range 224 254 c && negb (code c =? 247) then [ascii_of_nat (code c - 32)]
  else if code c =? 223 then $"SS"
  else [c].
Definition toUpperCase (s : str) : str := flat_map upper_units s.

(** [a.startsWith(b)] *)
Fixpoint startsWith (a b : str) : bool :=
  match b, a with
  | [], _ => true
  | y :: b', x :: a' => Ascii.eqb x y && startsWith a' b'
  | _ :: _, [] => false
  end.

(** [s.replace(/\s/g, '')] *)
Definition strip_ws (s : str) : str := filter (fun c => negb (is_space c)) s.

(** [s.replace(/c/g, '')] for a literal character [c]. *)
Definition remove_char (x : ascii) (s : str) : str :=
  filter (fun c => negb (Ascii.eqb x c)) s.

(** [s.replace(/c/g, d)] for literal characters. *)
Definition replace_char (x y : ascii) (s : str) : str :=
  map (fun c => if Ascii.eqb x c then y else c) s.

(** [s.replace(/\s+/g, ' ')] : every maximal run of white space becomes
    one space. *)
Fixpoint collapse_ws (s : str) : str :=
  match s with
  | [] => []
  | c :: s' =>
      if is_space c then
        match s' with
        | d :: _ => if is_space d then collapse_ws s' else " "%char :: collapse_ws s'
        | [] => [" "%char]
        end
      else c :: collapse_ws s'
  end.

(** [lines.join('\n')] *)
Fixpoint join_nl (l : list str) : str :=
  match l with
  | [] => []
  | [x] => x
  | x :: l' => x ++ "010"%char :: join_nl l'
  end.

(** [s.split(/\r?\n/)] *)
Fixpoint split_lines_aux (cur : str) (s : str) : list str :=
  match s with
  | [] => [rev cur]
  | c :: s' =>
      if Ascii.eqb c "010"%char then rev cur :: split_lines_aux [] s'
      else if Ascii.eqb c "013"%char then
        match s' with
        | d :: s'' =>
            if Ascii.eqb d "010"%char then rev cur :: split_lines_aux [] s''
            else split_lines_aux (c :: cur) s'
        | [] => split_lines_aux (c :: cur) s'
        end
      else split_lines_aux (c :: cur) s'
  end.
Definition split_lines (s : str) : list str := split_lines_aux [] s.

(** The decimal numeral of a number, as [String(n)] and template
    literals print it. *)
Definition of_Z (z : Z) : str :=
  list_ascii_of_string (NilZero.string_of_int (Z.to_int z)).

Definition digit_val (c : ascii) : Z := Z.of_nat (code c - 48).

(** [parseInt(s, 10)]: leading white space, an optional sign, then the
    longest run of digits; [None] stands for NaN. *)
Definition parseInt (s : str) : option Z :=
  let t := trimStart s in
  let '(neg, t') :=
    match t with
    | c :: r => if Ascii.eqb c "-"%char then (true, r)
                else if Ascii.eqb c "+"%char then (false, r) else (false, t)
    | [] => (false, t)
    end in
  let fix go (acc : Z) (seen : bool) (u : str) : option Z :=
    match u with
    | c :: u' => if is_digit c then go (10 * acc + digit_val c)%Z true u'
                 else if seen then Some acc else None
    | [] => if seen then Some acc else None
    end in
  match go 0%Z false t' with
  | Some n => Some (if neg then (- n)%Z else n)
  | None => None
  end.

End Str.

(* ================================================================== *)
(** ** Regular expressions *)

Module Re.

Inductive regex : Type :=
| Eps
| Chr (p : ascii -> bool)
| Seq (a b : regex)
| Alt (a b : regex)
| Rep (lo : nat) (hi : option nat) (greedy : bool) (a : regex)
| Group (i : nat) (a : regex)
| Bol
| Eol
| WordB.

(** Captures: group number to captured text, [None] for undefined. *)
Definition caps := nat -> option str.
Definition no_caps : caps := fun _ => None.
Definition set_cap (i : nat) (w : str) (c : caps) : caps :=
  fun j => if j =? i then Some w else c j.

Fixpoint groups (r : regex) : list nat :=
  match r with
  | Seq a b | Alt a b => groups a ++ groups b
  | Rep _ _ _ a => groups a
  | Group i a => i :: groups a
  | _ => []
  end.

Definition clear_caps (gs : list nat) (c : caps) : caps :=
  fun j => if existsb (Nat.eqb j) gs then None else c j.

(** A position in the subject is the reversed text to its left and the
    text to its right.  [between l l'] is the text consumed from [l] to
    [l']. *)
Definition between (l l' : str) : str := rev (firstn (length l' - length l) l').

Definition word_at (s : str) : bool :=
  match s with c :: _ => is_word c | [] => false end.

Section Exec.
Variable R : Type.

Definition cont := str -> str -> caps -> option R.

(** The quantifier loop (RepeatMatcher): [ea] runs the quantified atom,
    [gs] are its groups, cleared at the start of each iteration, [n] is the
    number of iterations still allowed and [lo] the number still required.
    Once the required iterations are done, an iteration that consumes
    nothing is rejected. *)
Fixpoint rep_loop (ea : str -> str -> caps -> cont -> option R) (gs : list nat)
    (greedy : bool) (k : cont) (n lo : nat) (l s : str) (c : caps) {struct n}
  : option R :=
  match n with
  | 0 => k l s c
  | S n' =>
      let c0 := clear_caps gs c in
      let d : cont := fun l' s' c' =>
        if (lo =? 0) && (length s' =? length s) then None
        else rep_loop ea gs greedy k n' (pred lo) l' s' c' in
      if lo =? 0 then
        if greedy then
          match ea l s c0 d with
          | Some z => Some z
          | None => k l s c
          end
        else
          match k l s c with
          | Some z => Some z
          | None => ea l s c0 d
          end
      else ea l s c0 d
  end.

(** The matcher, in continuation-passing style.  For a quantifier the
    iteration count is bounded by [hi], or by [lo + length s] when there is
    no upper bound: beyond the first [lo] iterations every iteration
    consumes at least one unit, so no match needs more. *)
Fixpoint exec (r : regex) (l s : str) (c : caps) (k : cont) {struct r} : option R :=
  match r with
  | Eps => k l s c
  | Chr p =>
      match s with
      | a :: s' => if p a then k (a :: l) s' c else None
      | [] => None
      end
  | Seq a b => exec a l s c (fun l' s' c' => exec b l' s' c' k)
  | Alt a b =>
      match exec a l s c k with
      | Some z => Some z
      | None => exec b l s c k
      end
  | Rep lo hi greedy a =>
      rep_loop (exec a) (groups a) greedy k
               (match hi with Some h => h | None => lo + length s end) lo l s c
  | Group i a => exec a l s c (fun l' s' c' => k l' s' (set_cap i (between l l') c'))
  | Bol => match l with [] => k l s c | _ :: _ => None end
  | Eol => match s with [] => k l s c | _ :: _ => None end
  | WordB => if xorb (word_at l) (word_at s) then k l s c else None
  end.

End Exec.

Arguments rep_loop {R}.
Arguments exec {R}.

(** The end position and the captures of a match; group 0 is the whole
    match. *)
Definition result := (str * str * caps)%type.

Definition match_at (r : regex) (l s : str) : option result :=
  exec (Group 0 r) l s no_caps (fun l' s' c' => Some (l', s', c')).

(** The leftmost match at or after a position. *)
Fixpoint search_from (r : regex) (l s : str) : option result :=
  match match_at r l s with
  | Some m => Some m
  | None =>
      match s with
      | [] => None
      | a :: s' => search_from r (a :: l) s'
      end
  end.

(** [re.exec(s)] and [s.match(re)] without the [g] flag. *)
Definition exec_re (r : regex) (s : str) : option caps :=
  match search_from r [] s with
  | Some (_, _, c) => Some c
  | None => None
  end.

(** [re.test(s)] *)
Definition test (r : regex) (s : str) : bool :=
  match exec_re r s with Some _ => true | None => false end.

(** [m[i]] for a group that took part in the match, [''] otherwise (the
    program reads only groups that took part, or tests them for
    truthiness). *)
Definition grp (c : caps) (i : nat) : str :=
  match c i with Some w => w | None => [] end.

(** [s.match(re)] with the [g] flag: all the matches, left to right; after
    an empty match the search moves on by one unit.  Every turn moves on by
    at least one unit, so [S (length s)] turns are enough. *)
Fixpoint match_all_from (fuel : nat) (r : regex) (l s : str) : list str :=
  match fuel with
  | 0 => []
  | S fuel' =>
      match search_from r l s with
      | None => []
      | Some (l', s', c) =>
          grp c 0 ::
          (match grp c 0 with
           | _ :: _ => match_all_from fuel' r l' s'
           | [] =>
               match s' with
               | [] => []
               | a :: s'' => match_all_from fuel' r (a :: l') s''
               end
           end)
      end
  end.
Definition match_all (r : regex) (s : str) : list str :=
  match_all_from (S (length s)) r [] s.

(** *** Building patterns *)

Fixpoint seqs (l : list regex) : regex :=
  match l with
  | [] => Eps
  | [r] => r
  | r :: l' => Seq r (seqs l')
  end.

Fixpoint alts (l : list regex) : regex :=
  match l with
  | [] => Eps
  | [r] => r
  | r :: l' => Alt r (alts l')
  end.

(** A literal text, case-sensitive and under the [i] flag. *)
Definition lit (s : string) : regex := seqs (map (fun x => Chr (ch x)) $s).
Definition liti (s : string) : regex := seqs (map (fun x => Chr (chi x)) $s).

Definition star (a : regex) : regex := Rep 0 None true a.
Definition plus (a : regex) : regex := Rep 1 None true a.
Definition plus_lazy (a : regex) : regex := Rep 1 None false a.
Definition opt (a : regex) : regex := Rep 0 (Some 1) true a.
Definition times (lo hi : nat) (a : regex) : regex := Rep lo (Some hi) true a.
Definition exactly (n : nat) (a : regex) : regex := Rep n (Some n) true a.

Definition digit : regex := Chr is_digit.
Definition space : regex := Chr is_space.

End Re.
Import Re.

(* ================================================================== *)
(** ** What a pattern matches *)

Module ReSpec.

(** [iter A j l w s]: [w] is [j] consecutive pieces, each accepted by [A]
    in its context. *)
Fixpoint iter (A : str -> str -> str -> Prop) (j : nat) (l w s : str) : Prop :=
  match j with
  | 0 => w = []
  | S j' =>
      exists w1 w2, w = w1 ++ w2 /\ A l w1 (w2 ++ s) /\ iter A j' (rev w1 ++ l) w2 s
  end.

(** [mt r l w s]: the pattern [r] matches the text [w] found between the
    (reversed) left context [l] and the right context [s]. *)
Fixpoint mt (r : regex) (l w s : str) : Prop :=
  match r with
  | Eps => w = []
  | Chr p => exists a, w = [a] /\ p a = true
  | Seq a b =>
      exists w1 w2, w = w1 ++ w2 /\ mt a l w1 (w2 ++ s) /\ mt b (rev w1 ++ l) w2 s
  | Alt a b => mt a l w s \/ mt b l w s
  | Rep lo hi _ a =>
      exists j, lo <= j /\ (forall h, hi = Some h -> j <= h) /\ iter (mt a) j l w s
  | Group _ a => mt a l w s
  | Bol => w = [] /\ l = []
  | Eol => w = [] /\ s = []
  | WordB => w = [] /\ word_at l <> word_at s
  end.

(** [cap_ok r i x]: [x] is a text matched by the body of a group [i] of
    [r]. *)
Fixpoint cap_ok (r : regex) (i : nat) (x : str) : Prop :=
  match r with
  | Seq a b | Alt a b => cap_ok a i x \/ cap_ok b i x
  | Rep _ _ _ a => cap_ok a i x
  | Group j a => (j = i /\ exists l s, mt a l x s) \/ cap_ok a i x
  | _ => False
  end.

(** Group [i] takes part in every match of [r]. *)
Fixpoint defines (i : nat) (r : regex) : bool :=
  match r with
  | Seq a b => defines i b || (defines i a && negb (existsb (Nat.eqb i) (groups b)))
  | Alt a b => defines i a && defines i b
  | Rep lo _ _ a => (1 <=? lo) && defines i a
  | Group j a => (i =? j) || defines i a
  | _ => false
  end.

(** Every quantifier has its bounds in order. *)
Fixpoint wf (r : regex) : bool :=
  match r with
  | Seq a b | Alt a b => wf a && wf b
  | Rep lo hi _ a => match hi with Some h => lo <=? h | None => true end && wf a
  | Group _ a => wf a
  | _ => true
  end.

(** Bounds on the length of a matched text. *)
Fixpoint min_len (r : regex) : nat :=
  match r with
  | Chr _ => 1
  | Seq a b => min_len a + min_len b
  | Alt a b => Nat.min (min_len a) (min_len b)
  | Rep lo _ _ a => lo * min_len a
  | Group _ a => min_len a
  | _ => 0
  end.

Fixpoint max_len (r : regex) : option nat :=
  match r with
  | Chr _ => Some 1
  | Seq a b =>
      match max_len a, max_len b with
      | Some x, Some y => Some (x + y)
      | _, _ => None
      end
  | Alt a b =>
      match max_len a, max_len b with
      | Some x, Some y => Some (Nat.max x y)
      | _, _ => None
      end
  | Rep _ hi _ a =>
      match hi, max_len a with
      | Some h, Some x => Some (h * x)
      | _, _ => None
      end
  | Group _ a => max_len a
  | _ => Some 0
  end.

Definition all_ascii : list ascii := map ascii_of_nat (seq 0 256).

(** [q] accepts only units that [p] accepts. *)
Definition within (p q : ascii -> bool) : bool :=
  forallb (fun c => implb (q c) (p c)) all_ascii.

(** Every unit of every text matched by [r] satisfies [p]. *)
Fixpoint all_chars (p : ascii -> bool) (r : regex) : bool :=
  match r with
  | Chr q => within p q
  | Seq a b | Alt a b => all_chars p a && all_chars p b
  | Rep _ _ _ a | Group _ a => all_chars p a
  | _ => true
  end.

(** Every text matched by [r] has a unit that satisfies [p]. *)
Fixpoint needs (p : ascii -> bool) (r : regex) : bool :=
  match r with
  | Chr q => within p q
  | Seq a b => needs p a || needs p b
  | Alt a b => needs p a && needs p b
  | Rep lo _ _ a => (1 <=? lo) && needs p a
  | Group _ a => needs p a
  | _ => false
  end.

(** Every group [i] of [r] matches only texts of units in [p] whose length
    is between [lo] and [hi]. *)
Fixpoint group_chk (i : nat) (p : ascii -> bool) (lo hi : nat) (r : regex) : bool :=
  match r with
  | Seq a b | Alt a b => group_chk i p lo hi a && group_chk i p lo hi b
  | Rep _ _ _ a => group_chk i p lo hi a
  | Group j a =>
      (negb (j =? i)
       || (all_chars p a && (lo <=? min_len a)
           && match max_len a with Some m => m <=? hi | None => false end))
      && group_chk i p lo hi a
  | _ => true
  end.

(** Every group [i] of [r] matches only texts of at least [lo] units. *)
Fixpoint group_min (i lo : nat) (r : regex) : bool :=
  match r with
  | Seq a b | Alt a b => group_min i lo a && group_min i lo b
  | Rep _ _ _ a => group_min i lo a
  | Group j a => (negb (j =? i) || (lo <=? min_len a)) && group_min i lo a
  | _ => true
  end.

(** The bodies of the groups numbered [i]. *)
Fixpoint bodies (i : nat) (r : regex) : list regex :=
  match r with
  | Seq a b | Alt a b => bodies i a ++ bodies i b
  | Rep _ _ _ a => bodies i a
  | Group j a => if j =? i then a :: bodies i a else bodies i a
  | _ => []
  end.

(** A text of [lo] to [hi] units, all in [p]. *)
Definition shaped (p : ascii -> bool) (lo hi : nat) (x : str) : Prop :=
  Forall (fun c => p c = true) x /\ lo <= length x <= hi.

(** [p] does not tell a unit from its image under [f]. *)
Definition stable (f : ascii -> ascii) (p : ascii -> bool) : bool :=
  forallb (fun c => Bool.eqb (p (f c)) (p c)) all_ascii.

(** No test of [r] tells a unit from its image under [f]. *)
Fixpoint stable_re (f : ascii -> ascii) (r : regex) : bool :=
  match r with
  | Chr p => stable f p
  | Seq a b | Alt a b => stable_re f a && stable_re f b
  | Rep _ _ _ a | Group _ a => stable_re f a
  | WordB => stable f is_word
  | _ => true
  end.

(** Captures that are the images of other captures. *)
Definition crel (f : ascii -> ascii) (c c' : caps) : Prop :=
  forall i, c' i = option_map (map f) (c i).

Definition orel {A B : Type} (RR : A -> B -> Prop) (x : option A) (y : option B) : Prop :=
  match x, y with
  | Some a, Some b => RR a b
  | None, None => True
  | _, _ => False
  end.

(** Two continuations that agree on corresponding positions. *)
Definition krel (f : ascii -> ascii) {R R' : Type} (RR : R -> R' -> Prop)
    (k : cont R) (k' : cont R') : Prop :=
  forall l s c c', crel f c c' -> orel RR (k l s c) (k' (map f l) (map f s) c').

(** Results at corresponding positions with corresponding captures. *)
Definition res_rel (f : ascii -> ascii) (x y : result) : Prop :=
  let '(l, s, c) := x in
  let '(l', s', c') := y in
  l' = map f l /\ s' = map f s /\ crel f c c'.

(** Digits become 0 and letters upper case. *)
Definition absf (c : ascii) : ascii := if is_digit c then "0"%char else upper c.

(** What a successful run of [r] before the continuation [k] amounts to:
    a matched text, the continuation run after it, and captures that are
    old ones or texts of groups of [r]. *)
Definition post {R : Type} (r : regex) (l s : str) (c : caps) (k : cont R) (res : R)
  : Prop :=
  exists w s' c',
    s = w ++ s' /\ mt r l w s' /\ k (rev w ++ l) s' c' = Some res /\
    (forall i x, c' i = Some x -> c i = Some x \/ cap_ok r i x) /\
    (forall i, ~ In i (groups r) -> c' i = c i) /\
    (forall i, defines i r = true -> c' i <> None).

(** A text with no white space at either end. *)
Definition tight (s : str) : Prop :=
  match s with [] => True | c :: _ => is_space c = false end /\
  match rev s with [] => True | c :: _ => is_space c = false end.

End ReSpec.
Import ReSpec.

(** The month-name alternation [(JAN|FEB|...|DEC)], as written (upper
    case) and under the [i] flag. *)
Definition month_names : list string :=
  ["JAN"; "FEB"; "MAR"; "APR"; "MAY"; "JUN"; "JUL"; "AUG"; "SEP"; "OCT"; "NOV"; "DEC"].
Definition months : regex := alts (map lit month_names).
Definition months_i : regex := alts (map liti month_names).

(** The month table [{ JAN: '01', ..., DEC: '12' }], read by key. *)
Definition month_table : list (str * str) :=
  [($"JAN", $"01"); ($"FEB", $"02"); ($"MAR", $"03"); ($"APR", $"04");
   ($"MAY", $"05"); ($"JUN", $"06"); ($"JUL", $"07"); ($"AUG", $"08");
   ($"SEP", $"09"); ($"OCT", $"10"); ($"NOV", $"11"); ($"DEC", $"12")].

Fixpoint lookup {A : Type} (k : str) (t : list (str * A)) : option A :=
  match t with
  | [] => None
  | (k', v) :: t' => if Str.eqb k k' then Some v else lookup k t'
  end.

(** [a ?? b] on optional results: the first one that is there. *)
Definition orelse {A : Type} (a : option A) (b : option A) : option A :=
  match a with Some _ => a | None => b end.

(* ================================================================== *)
(** ** labelFormats.ts: the normalizer of the OCR format registry *)

Module LabelFormats.

(** /^(\d{4})-(JAN|...|DEC)$/i *)
Definition re_yyyyMmm : regex :=
  seqs [Bol; Group 1 (exactly 4 digit); liti "-"; Group 2 months_i; Eol].

(** /^(JAN|...|DEC)\s+(\d{4})$/i *)
Definition re_mmmYyyy : regex :=
  seqs [Bol; Group 1 months_i; plus space; Group 2 (exactly 4 digit); Eol].

(** /^(JAN|...|DEC)(\d{4})$/i *)
Definition re_mmmYyyyNoSpace : regex :=
  seqs [Bol; Group 1 months_i; Group 2 (exactly 4 digit); Eol].

(** /^(\d{1,2})\/(\d{1,2})\/(\d{4})$/ *)
Definition re_slash : regex :=
  seqs [Bol; Group 1 (times 1 2 digit); lit "/"; Group 2 (times 1 2 digit); lit "/";
        Group 3 (exactly 4 digit); Eol].

(** /^(\d{1,2})\/(\d{4})$/ *)
Definition re_mmYyyy : regex :=
  seqs [Bol; Group 1 (times 1 2 digit); lit "/"; Group 2 (exactly 4 digit); Eol].

(** /^(\d{4})\/(\d{1,2})$/ *)
Definition re_yyyyMmSlash : regex :=
  seqs [Bol; Group 1 (exactly 4 digit); lit "/"; Group 2 (times 1 2 digit); Eol].

(** One month-name branch: [if (match) { m = mon[...]; if (m) return ... }]. *)
Definition month_branch (re : regex) (gy gm : nat) (raw : str) : option str :=
  match exec_re re raw with
  | Some c =>
      match lookup (Str.toUpperCase (grp c gm)) month_table with
      | Some m => if Str.eqb m [] then None else Some (grp c gy ++ $"-" ++ m)
      | None => None
      end
  | None => None
  end.

Definition normalizeExpiry (raw : str) : str :=
  match month_branch re_yyyyMmm 1 2 raw with
  | Some r => r
  | None =>
  match month_branch re_mmmYyyy 2 1 raw with
  | Some r => r
  | None =>
  match month_branch re_mmmYyyyNoSpace 2 1 raw with
  | Some r => r
  | None =>
  match exec_re re_slash raw with
  | Some c =>
      Str.slice 0 7 (grp c 3 ++ $"-" ++ Str.padStart0 2 (grp c 1) ++ $"-"
                     ++ Str.padStart0 2 (grp c 2))
  | None =>
  match exec_re re_mmYyyy raw with
  | Some c => grp c 2 ++ $"-" ++ Str.padStart0 2 (grp c 1)
  | None =>
  match exec_re re_yyyyMmSlash raw with
  | Some c => grp c 1 ++ $"-" ++ Str.padStart0 2 (grp c 2)
  | None => raw
  end end end end end end.

(** *** The format matchers *)

Record LabelFormatResult : Type := {
  batch_no : option str;
  lot_no : option str;
  expiry : option str
}.

Definition empty_result : LabelFormatResult :=
  {| batch_no := None; lot_no := None; expiry := None |}.

Definition set_batch_no (v : str) (r : LabelFormatResult) : LabelFormatResult :=
  {| batch_no := Some v; lot_no := lot_no r; expiry := expiry r |}.
Definition set_lot_no (v : str) (r : LabelFormatResult) : LabelFormatResult :=
  {| batch_no := batch_no r; lot_no := Some v; expiry := expiry r |}.
Definition set_expiry (v : str) (r : LabelFormatResult) : LabelFormatResult :=
  {| batch_no := batch_no r; lot_no := lot_no r; expiry := Some v |}.

Record LabelFormat : Type := {
  id : str;
  name : str;
  extract : str -> LabelFormatResult
}.

(** [x ?? ''] *)
Definition or_empty (o : option str) : str :=
  match o with Some v => v | None => [] end.

(** Truthiness of an optional string: defined and not empty. *)
Definition truthy (o : option str) : bool :=
  match o with Some (_ :: _) => true | _ => false end.

(** [a !== b] for an optional string and a string. *)
Definition differs (o : option str) (s : str) : bool :=
  match o with Some v => negb (Str.eqb v s) | None => true end.

(** [l.sort((a, b) => b.length - a.length)]: longest first, stable. *)
Fixpoint insert_by_length (x : str) (l : list str) : list str :=
  match l with
  | [] => [x]
  | y :: l' => if length y <=? length x then x :: l else y :: insert_by_length x l'
  end.
Definition sort_longest_first (l : list str) : list str :=
  fold_right insert_by_length [] l.

(** /\d{4}-\d{2}(-\d{2})?/ *)
Definition re_expiryYyyyMm : regex :=
  seqs [exactly 4 digit; lit "-"; exactly 2 digit;
        opt (Group 1 (seqs [lit "-"; exactly 2 digit]))].

(** /Lot\s*No\.?\s*:?\s*(\d{6,14})/i *)
Definition re_lotNo : regex :=
  seqs [liti "Lot"; star space; liti "No"; opt (lit "."); star space; opt (lit ":");
        star space; Group 1 (times 6 14 digit)].

(** /\d{6,14}/g *)
Definition re_digitStrings : regex := times 6 14 digit.

(** /\b([A-Za-z][A-Za-z0-9]{2,7})\b/g *)
Definition re_batchWord : regex :=
  seqs [WordB; Group 1 (seqs [Chr is_alpha; times 2 7 (Chr is_alnum)]); WordB].

(** /\b(\d{3,5})\b/g *)
Definition re_digit3to5 : regex := seqs [WordB; Group 1 (times 3 5 digit); WordB].

(** [(w) => /[A-Za-z]/.test(w) && /\d/.test(w)] *)
Definition letter_and_digit (w : str) : bool :=
  test (Chr is_alpha) w && test digit w.

Definition gs1Style_extract (t : str) : LabelFormatResult :=
  let out := empty_result in
  let out :=
    match exec_re re_expiryYyyyMm t with
    | Some c => set_expiry (Str.slice 0 7 (grp c 0)) out
    | None => out
    end in
  let out :=
    match exec_re re_lotNo t with
    | Some c => set_lot_no (grp c 1) out
    | None =>
        let digitStrings := match_all re_digitStrings t in
        let expiryDigits := Str.remove_char "-" (or_empty (expiry out)) in
        match sort_longest_first
                (filter (fun s => negb (Str.eqb s expiryDigits)) digitStrings) with
        | lot :: _ => if truthy (Some lot) then set_lot_no lot out else out
        | [] => out
        end
    end in
  match find letter_and_digit (match_all re_batchWord t) with
  | Some w => if truthy (Some w) then set_batch_no (Str.toUpperCase w) out else out
  | None => out
  end.

(** /\b(\d{6})\b/ *)
Definition re_sixDigit : regex := seqs [WordB; Group 1 (exactly 6 digit); WordB].

(** /\b(\d{4}-(?:JAN|...|DEC))\b/i *)
Definition re_yyyyMmmWord : regex :=
  seqs [WordB; Group 1 (seqs [exactly 4 digit; liti "-"; months_i]); WordB].

Definition numericLotYyyyMmm_extract (t : str) : LabelFormatResult :=
  let out := empty_result in
  let out :=
    match exec_re re_sixDigit t with
    | Some c => set_lot_no (grp c 1) (set_batch_no (grp c 1) out)
    | None => out
    end in
  match exec_re re_yyyyMmmWord t with
  | Some c => set_expiry (normalizeExpiry (grp c 1)) out
  | None => out
  end.

(** /LOT\s+(\d{6})/i *)
Definition re_lotPrefix : regex := seqs [liti "LOT"; plus space; Group 1 (exactly 6 digit)].

(** /EXP\s+(JAN|...|DEC)\s+(\d{4})/i *)
Definition re_expMmmYyyy : regex :=
  seqs [liti "EXP"; plus space; Group 1 months_i; plus space; Group 2 (exactly 4 digit)].

(** /EXP\s+(JAN|...|DEC)(\d{4})/i *)
Definition re_expMmmYyyyNoSpace : regex :=
  seqs [liti "EXP"; plus space; Group 1 months_i; Group 2 (exactly 4 digit)].

Definition lotExpMmmYyyy_extract (t : str) : LabelFormatResult :=
  let out := empty_result in
  let out :=
    match exec_re re_lotPrefix t with
    | Some c => set_lot_no (grp c 1) out
    | None => out
    end in
  let out :=
    match exec_re re_expMmmYyyy t with
    | Some c => set_expiry (normalizeExpiry (grp c 1 ++ $" " ++ grp c 2)) out
    | None => out
    end in
  if truthy (expiry out) then out
  else
    match exec_re re_expMmmYyyyNoSpace t with
    | Some c => set_expiry (normalizeExpiry (grp c 1 ++ grp c 2)) out
    | None => out
    end.

(** /LOT\s*NUMBER\s*:?\s*([A-Z0-9]{6,15})/i *)
Definition re_lotNumber : regex :=
  seqs [liti "LOT"; star space; liti "NUMBER"; star space; opt (lit ":"); star space;
        Group 1 (times 6 15 (Chr (cls_i is_upper_digit)))].

(** /EXPIRATION\s*DATE\s*:?\s*(\d{4}\/\d{1,2})/i *)
Definition re_expirationDate : regex :=
  seqs [liti "EXPIRATION"; star space; liti "DATE"; star space; opt (lit ":"); star space;
        Group 1 (seqs [exactly 4 digit; lit "/"; times 1 2 digit])].

Definition lotNumberExpirationDate_extract (t : str) : LabelFormatResult :=
  let out := empty_result in
  let out :=
    match exec_re re_lotNumber t with
    | Some c => set_lot_no (Str.trim (grp c 1)) out
    | None => out
    end in
  match exec_re re_expirationDate t with
  | Some c => set_expiry (normalizeExpiry (grp c 1)) out
  | None => out
  end.

(** /LOT\s*#?\s*:?\s*([A-Za-z0-9]{4,14})/i *)
Definition re_lotHash : regex :=
  seqs [liti "LOT"; star space; opt (lit "#"); star space; opt (lit ":"); star space;
        Group 1 (times 4 14 (Chr (cls_i is_alnum)))].

(** /(?:EXP?\.?\s*:?\s* )?(\d{1,2}\/\d{4})(?:\s|$)/i (a space added before the
    first closing parenthesis) *)
Definition re_expSlashAnchored : regex :=
  seqs [opt (seqs [liti "EX"; opt (liti "P"); opt (lit "."); star space; opt (lit ":");
                   star space]);
        Group 1 (seqs [times 1 2 digit; lit "/"; exactly 4 digit]);
        Alt space Eol].

(** /(\d{1,2}\/\d{4})/ *)
Definition re_expSlash : regex :=
  Group 1 (seqs [times 1 2 digit; lit "/"; exactly 4 digit]).

(** [(s) => s !== out.lot_no && !expiryDigits.startsWith(s)] *)
Definition free_digits (out : LabelFormatResult) (expiryDigits : str) (s : str) : bool :=
  differs (lot_no out) s && negb (Str.startsWith expiryDigits s).

Definition lotHashExpSlash_extract (t : str) : LabelFormatResult :=
  let out := empty_result in
  let out :=
    match exec_re re_lotHash t with
    | Some c => set_lot_no (Str.toUpperCase (grp c 1)) out
    | None => out
    end in
  let out :=
    match orelse (exec_re re_expSlashAnchored t) (exec_re re_expSlash t) with
    | Some c => set_expiry (normalizeExpiry (grp c 1)) out
    | None => out
    end in
  let expiryDigits := Str.remove_char "/" (Str.remove_char "-" (or_empty (expiry out))) in
  match find (free_digits out expiryDigits) (match_all re_digit3to5 t) with
  | Some d => if truthy (Some d) then set_batch_no d out else out
  | None => out
  end.

Definition fallback_extract (t : str) : LabelFormatResult :=
  let out := empty_result in
  let out :=
    match exec_re re_expiryYyyyMm t, exec_re re_expSlash t with
    | Some c, _ => set_expiry (Str.slice 0 7 (grp c 0)) out
    | None, Some c => set_expiry (normalizeExpiry (grp c 1)) out
    | None, None => out
    end in
  let expiryDigits := Str.remove_char "/" (Str.remove_char "-" (or_empty (expiry out))) in
  let out :=
    if truthy (lot_no out) then out
    else
      match exec_re re_lotHash t with
      | Some c => set_lot_no (Str.toUpperCase (grp c 1)) out
      | None =>
          match sort_longest_first
                  (filter (fun s => negb (Str.eqb s expiryDigits)
                                    && negb (Str.startsWith expiryDigits s))
                          (match_all re_digitStrings t)) with
          | lot :: _ => if truthy (Some lot) then set_lot_no lot out else out
          | [] => out
          end
      end in
  if truthy (batch_no out) then out
  else
    match find letter_and_digit (match_all re_batchWord t) with
    | Some w => if truthy (Some w) then set_batch_no (Str.toUpperCase w) out else out
    | None =>
        match find (free_digits out expiryDigits) (match_all re_digit3to5 t) with
        | Some d => if truthy (Some d) then set_batch_no d out else out
        | None => out
        end
    end.

Definition gs1Style : LabelFormat :=
  {| id := $"gs1_style"; name := $"GS1-style (Lot No., Exp. YYYY-MM)";
     extract := gs1Style_extract |}.
Definition numericLotYyyyMmm : LabelFormat :=
  {| id := $"numeric_lot_yyyy_mmm"; name := $"6-digit batch/lot, YYYY-MMM expiry";
     extract := numericLotYyyyMmm_extract |}.
Definition lotExpMmmYyyy : LabelFormat :=
  {| id := $"lot_exp_mmm_yyyy"; name := $"LOT 6digits / EXP MMM YYYY";
     extract := lotExpMmmYyyy_extract |}.
Definition lotNumberExpirationDate : LabelFormat :=
  {| id := $"lot_number_expiration_date"; name := $"LOT NUMBER / EXPIRATION DATE YYYY/MM";
     extract := lotNumberExpirationDate_extract |}.
Definition lotHashExpSlash : LabelFormat :=
  {| id := $"lot_hash_exp_slash"; name := $"LOT # / EXP MM/YYYY";
     extract := lotHashExpSlash_extract |}.
Definition fallback : LabelFormat :=
  {| id := $"fallback"; name := $"Fallback (generic patterns)";
     extract := fallback_extract |}.

(** All formats in priority order. *)
Definition LABEL_FORMATS : list LabelFormat :=
  [gs1Style; numericLotYyyyMmm; lotExpMmmYyyy; lotNumberExpirationDate;
   lotHashExpSlash; fallback].

(** [if (x?.trim()) n += 1] *)
Definition counts (o : option str) : nat :=
  if truthy (option_map Str.trim o) then 1 else 0.

Definition score (result : LabelFormatResult) : nat :=
  counts (batch_no result) + counts (lot_no result) + counts (expiry result).

(** One turn of the selection loop on the pair [(best, bestScore)]. *)
Definition select_step (t : str) (acc : LabelFormatResult * nat) (format : LabelFormat)
  : LabelFormatResult * nat :=
  let result := extract format t in
  let s := score result in
  if snd acc <? s then (result, s) else acc.

Definition select (formats : list LabelFormat) (t : str) : LabelFormatResult * nat :=
  fold_left (select_step t) formats (empty_result, 0).

(** /^[A-Z0-9]{2,10}$/i *)
Definition re_firstLine : regex :=
  seqs [Bol; times 2 10 (Chr (cls_i is_upper_digit)); Eol].

(** The first-line rule applied to the selected result. *)
Definition adopt_first_line (ocrText : str) (best : LabelFormatResult) : LabelFormatResult :=
  let lines :=
    filter (fun s => negb (Str.eqb s [])) (map Str.trim (Str.split_lines ocrText)) in
  let firstLine :=
    match lines with
    | l0 :: _ => option_map (fun c => grp c 0) (exec_re re_firstLine l0)
    | [] => None
    end in
  match firstLine with
  | Some fl =>
      if negb (truthy (batch_no best)) && truthy (Some fl)
         && differs (lot_no best) fl && differs (expiry best) fl
      then set_batch_no fl best else best
  | None => best
  end.

(** The returned shape: every field a trimmed string. *)
Definition finish (best : LabelFormatResult) : str * str * str :=
  (Str.trim (or_empty (batch_no best)),
   Str.trim (or_empty (lot_no best)),
   Str.trim (or_empty (expiry best))).

(** [extractLabelFromOcr]; the result is [(batch_no, lot_no, expiry)]. *)
Definition extractLabelFromOcr (ocrText : str) : str * str * str :=
  let t := Str.trim (Str.collapse_ws ocrText) in
  let best := fst (select LABEL_FORMATS t) in
  finish (adopt_first_line ocrText best).

End LabelFormats.

(* ================================================================== *)
(** ** labelPatterns.ts: the field registry and its normalizer *)

Module LabelPatterns.

Inductive OutputKey : Type := K_batch_no | K_lot_no | K_expiry | K_serial | K_ref.

Definition OutputKey_eqb (a b : OutputKey) : bool :=
  match a, b with
  | K_batch_no, K_batch_no | K_lot_no, K_lot_no | K_expiry, K_expiry
  | K_serial, K_serial | K_ref, K_ref => true
  | _, _ => false
  end.

(** A field definition; the anchor and value patterns are grammar handed to
    the capture engine and are not read by the mapper, so only the name, the
    flag and the output keys are kept. *)
Record ScanditFieldDefinition : Type := {
  scanditFieldName : str;
  optional : bool;
  outputKeys : list OutputKey
}.

Definition SCANDIT_FIELD_DEFINITIONS : list ScanditFieldDefinition :=
  [ {| scanditFieldName := $"Lot no"; optional := true; outputKeys := [K_lot_no] |};
    {| scanditFieldName := $"Expiry"; optional := true; outputKeys := [K_expiry] |};
    {| scanditFieldName := $"Product code"; optional := true;
       outputKeys := [K_batch_no; K_lot_no] |};
    {| scanditFieldName := $"Batch no"; optional := true; outputKeys := [K_batch_no] |};
    {| scanditFieldName := $"Ref no"; optional := true; outputKeys := [K_ref] |};
    {| scanditFieldName := $"Batch/Lot (numeric)"; optional := true;
       outputKeys := [K_batch_no; K_lot_no] |};
    {| scanditFieldName := $"Expiry (YYYY-MMM)"; optional := true; outputKeys := [K_expiry] |};
    {| scanditFieldName := $"Lot no (LOT prefix)"; optional := true; outputKeys := [K_lot_no] |};
    {| scanditFieldName := $"Expiry (EXP MMM YYYY)"; optional := true;
       outputKeys := [K_expiry] |};
    {| scanditFieldName := $"Expiry (EXP MM/YY)"; optional := true; outputKeys := [K_expiry] |};
    {| scanditFieldName := $"Lot no (LOT NUMBER)"; optional := true; outputKeys := [K_lot_no] |};
    {| scanditFieldName := $"Serial no"; optional := true; outputKeys := [K_serial] |};
    {| scanditFieldName := $"Expiry (EXPIRATION DATE)"; optional := true;
       outputKeys := [K_expiry] |} ].

(** /^(\d{4})-(JAN|...|DEC)$/ *)
Definition re_yyyyMmm : regex :=
  seqs [Bol; Group 1 (exactly 4 digit); lit "-"; Group 2 months; Eol].

(** /^(JAN|...|DEC)\s+(\d{4})$/ *)
Definition re_mmmYyyy : regex :=
  seqs [Bol; Group 1 months; plus space; Group 2 (exactly 4 digit); Eol].

(** /^(JAN|...|DEC)(\d{4})$/ *)
Definition re_mmmYyyyNoSpace : regex :=
  seqs [Bol; Group 1 months; Group 2 (exactly 4 digit); Eol].

(** /^(\d{4})\/(\d{1,2})$/ *)
Definition re_yyyyMmSlash : regex :=
  seqs [Bol; Group 1 (exactly 4 digit); lit "/"; Group 2 (times 1 2 digit); Eol].

(** /^(\d{1,2})\/(\d{2})$/ *)
Definition re_mmYySlash : regex :=
  seqs [Bol; Group 1 (times 1 2 digit); lit "/"; Group 2 (exactly 2 digit); Eol].

(** A number that may be NaN, and its rendering in a template literal. *)
Definition show_num (n : option Z) : str :=
  match n with Some z => Str.of_Z z | None => $"NaN" end.

Definition num_between (lo hi : Z) (n : option Z) : bool :=
  match n with Some z => (lo <=? z)%Z && (z <=? hi)%Z | None => false end.

(** One month-name branch: [if (match) return num ? ... : value]. *)
Definition month_branch (re : regex) (gy gm : nat) (v value : str) : option str :=
  match exec_re re v with
  | Some c =>
      match lookup (grp c gm) month_table with
      | Some num => if Str.eqb num [] then Some value else Some (grp c gy ++ $"-" ++ num)
      | None => Some value
      end
  | None => None
  end.

Definition normalizeExpiryForMapping (value : str) : str :=
  let v := Str.toUpperCase (Str.trim value) in
  match month_branch re_yyyyMmm 1 2 v value with
  | Some r => r
  | None =>
  match month_branch re_mmmYyyy 2 1 v value with
  | Some r => r
  | None =>
  match month_branch re_mmmYyyyNoSpace 2 1 v value with
  | Some r => r
  | None =>
  match exec_re re_yyyyMmSlash v with
  | Some c => grp c 1 ++ $"-" ++ Str.padStart0 2 (grp c 2)
  | None =>
  match exec_re re_mmYySlash v with
  | Some c =>
      let mm := Str.padStart0 2 (grp c 1) in
      let yy := Str.parseInt (grp c 2) in
      let yyyy :=
        if num_between 0 99 yy then
          (if num_between 50 99 yy then option_map (Z.add 1900) yy
           else option_map (Z.add 2000) yy)
        else yy in
      let monthNum := Str.parseInt mm in
      if num_between 1 12 monthNum then show_num yyyy ++ $"-" ++ mm else value
  | None => value
  end end end end end.

End LabelPatterns.

(* ================================================================== *)
(** ** gs1Parse.ts: the GS1 decoder *)

Module Gs1.

(** The group separator, [String.fromCharCode(29)]. *)
Definition GS1_GROUP_SEPARATOR : ascii := "029"%char.

Definition preprocess (raw : str) : str :=
  match raw with
  | [] => []
  | _ => Str.trim (Str.replace_char "|"%char GS1_GROUP_SEPARATOR raw)
  end.

(** What the GS1 library hands back.  A value of an element is a string, a
    date (with its ISO rendering, [None] for an invalid date, on which
    [toISOString] raises) or anything else (with its [String(v)]
    rendering). *)
Inductive jsval : Type :=
| VStr (s : str)
| VDate (iso : option str)
| VOther (shown : str).

Record element : Type := { data : option jsval; dataString : option str }.

(** The outcome of [parser.decode]: an exception, or a result whose [data]
    may be missing; [data] is an object read by key. *)
Inductive decoded : Type :=
| Throws
| Decoded (data : option (list (str * element))).

(** [elToStr]; [None] when [toISOString] raises. *)
Definition elToStr (el : option element) : option str :=
  match el with
  | None => Some []
  | Some e =>
      match orelse (data e) (option_map VStr (dataString e)) with
      | None => Some []
      | Some (VStr s) => Some s
      | Some (VDate (Some iso)) => Some (Str.slice 0 10 iso)
      | Some (VDate None) => None
      | Some (VOther shown) => Some shown
      end
  end.

Record Gs1LabelResult : Type := {
  batch_no : str;
  lot_no : str;
  expiry : str;
  upc_gtin : option str;
  serial : option str
}.

(** [...(x && { key: x })]: the key is there only for a non-empty string. *)
Definition present (x : str) : option str :=
  match x with [] => None | _ :: _ => Some x end.

Definition nonempty (x : str) : bool :=
  match x with [] => false | _ :: _ => true end.

(** /01(\d{14})/ *)
Definition re_gtin : regex := seqs [lit "01"; Group 1 (exactly 14 digit)].

(** /21([A-Za-z0-9]{1,20})/ *)
Definition re_serial : regex := seqs [lit "21"; Group 1 (times 1 20 (Chr is_alnum))].

(** /17(\d{6})/ *)
Definition re_exp : regex := seqs [lit "17"; Group 1 (exactly 6 digit)].

(** /17\d{6}10([A-Za-z0-9]+?)21/ *)
Definition re_batchBeforeSerial : regex :=
  seqs [lit "17"; exactly 6 digit; lit "10"; Group 1 (plus_lazy (Chr is_alnum)); lit "21"].

(** /17\d{6}10([A-Za-z0-9]+)/ *)
Definition re_batchToEnd : regex :=
  seqs [lit "17"; exactly 6 digit; lit "10"; Group 1 (plus (Chr is_alnum))].

(** The batch of the positional fallback. *)
Definition concat_batch (t : str) : str :=
  match exec_re re_batchBeforeSerial t with
  | Some c => grp c 1
  | None =>
      match exec_re re_batchToEnd t with
      | Some c => grp c 1
      | None => []
      end
  end.

(** The expiry of the positional fallback: YYMMDD to YYYY-MM-DD. *)
Definition concat_expiry (t : str) : str :=
  match exec_re re_exp t with
  | Some c =>
      let yy := Str.slice 0 2 (grp c 1) in
      let mm := Str.slice 2 4 (grp c 1) in
      let dd := Str.slice 4 6 (grp c 1) in
      let yyyy :=
        match Str.parseInt yy with
        | Some n => if (50 <=? n)%Z then $"19" ++ yy else $"20" ++ yy
        | None => $"20" ++ yy
        end in
      yyyy ++ $"-" ++ mm ++ $"-" ++ dd
  | None => []
  end.

Definition parseConcatenatedGs1 (s : str) : option Gs1LabelResult :=
  let t := Str.strip_ws s in
  if length t <? 20 then None
  else
    let batch := concat_batch t in
    let gtin := match exec_re re_gtin t with Some c => grp c 1 | None => [] end in
    let serial := match exec_re re_serial t with Some c => grp c 1 | None => [] end in
    let expiry := concat_expiry t in
    if negb (nonempty gtin) && negb (nonempty expiry) && negb (nonempty batch)
       && negb (nonempty serial)
    then None
    else Some {| batch_no := batch; lot_no := batch; expiry := expiry;
                 upc_gtin := present gtin; serial := present serial |}.

Section WithLibrary.

(** The decoder of the GS1 library, [parser.decode]. *)
Variable decode : str -> decoded.

(** The [try] block of [parseGs1ToLabelJson]: [Some r] when it returns [r],
    [None] when it falls through or an exception is caught. *)
Definition primary (normalized : str) : option Gs1LabelResult :=
  match decode normalized with
  | Throws => None
  | Decoded None => None
  | Decoded (Some d) =>
      if 0 <? length d then
        match elToStr (lookup $"batch" d) with
        | None => None
        | Some batch =>
        match elToStr (lookup $"expDate" d) with
        | None => None
        | Some expiryRaw =>
        let expiry :=
          if nonempty expiryRaw
          then (if 10 <=? length expiryRaw then Str.slice 0 10 expiryRaw else expiryRaw)
          else [] in
        match elToStr (lookup $"gtin" d) with
        | None => None
        | Some gtin =>
        match elToStr (lookup $"serial" d) with
        | None => None
        | Some serial =>
        if nonempty batch || nonempty expiry || nonempty gtin || nonempty serial
        then Some {| batch_no := batch; lot_no := batch; expiry := expiry;
                     upc_gtin := present gtin; serial := present serial |}
        else None
        end end end end
      else None
  end.

Definition parseGs1ToLabelJson (raw : str) : option Gs1LabelResult :=
  let normalized := preprocess raw in
  if nonempty normalized then
    match primary normalized with
    | Some r => Some r
    | None => parseConcatenatedGs1 normalized
    end
  else None.

End WithLibrary.

End Gs1.

(* ================================================================== *)
(** ** scanditLabelToOcrFormat.ts: the structured-field mapper *)

Module Mapper.
Import LabelPatterns.

(** [FIELD_TO_OUTPUT_KEYS], built with [Object.fromEntries]. *)
Definition FIELD_TO_OUTPUT_KEYS : list (str * list OutputKey) :=
  map (fun def => (scanditFieldName def, outputKeys def)) SCANDIT_FIELD_DEFINITIONS.

(** The names every object inherits from [Object.prototype]. *)
Definition object_prototype_names : list str :=
  [$"constructor"; $"__defineGetter__"; $"__defineSetter__"; $"hasOwnProperty";
   $"__lookupGetter__"; $"__lookupSetter__"; $"isPrototypeOf"; $"propertyIsEnumerable";
   $"toString"; $"valueOf"; $"__proto__"; $"toLocaleString"].

(** The result of [FIELD_TO_OUTPUT_KEYS[name]]: the keys of a registered
    field (the last entry of a name wins), an inherited member for a name of
    [Object.prototype], or [undefined]. *)
Inductive looked_up : Type :=
| Keys (ks : list OutputKey)
| Inherited
| Undefined.

Definition output_keys_of (name : str) : looked_up :=
  match lookup name (rev FIELD_TO_OUTPUT_KEYS) with
  | Some ks => Keys ks
  | None => if existsb (Str.eqb name) object_prototype_names then Inherited else Undefined
  end.

Record LabelJson : Type := {
  batch_no : str;
  lot_no : str;
  expiry : str;
  upc_gtin : option str;
  serial : option str;
  ref : option str
}.

Record ScanditField : Type := { name : str; value : str }.

Definition with_batch_no (v : str) (j : LabelJson) : LabelJson :=
  {| batch_no := v; lot_no := lot_no j; expiry := expiry j;
     upc_gtin := upc_gtin j; serial := serial j; ref := ref j |}.
Definition with_lot_no (v : str) (j : LabelJson) : LabelJson :=
  {| batch_no := batch_no j; lot_no := v; expiry := expiry j;
     upc_gtin := upc_gtin j; serial := serial j; ref := ref j |}.
Definition with_expiry (v : str) (j : LabelJson) : LabelJson :=
  {| batch_no := batch_no j; lot_no := lot_no j; expiry := v;
     upc_gtin := upc_gtin j; serial := serial j; ref := ref j |}.
Definition with_upc_gtin (v : str) (j : LabelJson) : LabelJson :=
  {| batch_no := batch_no j; lot_no := lot_no j; expiry := expiry j;
     upc_gtin := Some v; serial := serial j; ref := ref j |}.
Definition with_serial (v : str) (j : LabelJson) : LabelJson :=
  {| batch_no := batch_no j; lot_no := lot_no j; expiry := expiry j;
     upc_gtin := upc_gtin j; serial := Some v; ref := ref j |}.
Definition with_ref (v : str) (j : LabelJson) : LabelJson :=
  {| batch_no := batch_no j; lot_no := lot_no j; expiry := expiry j;
     upc_gtin := upc_gtin j; serial := serial j; ref := Some v |}.

Definition nonempty := Gs1.nonempty.
Definition truthy := LabelFormats.truthy.

(** [a === b] for a string and an optional string. *)
Definition same (a : str) (o : option str) : bool :=
  match o with Some b => Str.eqb a b | None => false end.

(** /^\d{6}$/ *)
Definition re_sixDigits : regex := seqs [Bol; exactly 6 digit; Eol].

Definition isLikelyYYMMDD (s : str) : bool :=
  if negb (test re_sixDigits s) then false
  else
    let mm := Str.parseInt (Str.slice 2 4 s) in
    let dd := Str.parseInt (Str.slice 4 6 s) in
    num_between 1 12 mm && num_between 1 31 dd.

(** /^L0?T$/ *)
Definition re_L0T : regex := seqs [Bol; lit "L"; opt (lit "0"); lit "T"; Eol].

(** /^EXP?$/ *)
Definition re_EXP : regex := seqs [Bol; lit "EX"; opt (lit "P"); Eol].

(** /^E1P$/ *)
Definition re_E1P : regex := seqs [Bol; lit "E1P"; Eol].

(** /^LAY0?UT$/ *)
Definition re_LAY0UT : regex := seqs [Bol; lit "LAY"; opt (lit "0"); lit "UT"; Eol].

Definition isProductCodeMisread (value : str) : bool :=
  let s := Str.trim value in
  if length s <=? 3 then true
  else
    let u := Str.toUpperCase s in
    if test re_L0T u || test re_EXP u || test re_E1P u || Str.eqb u $"LOT" then true
    else if test re_LAY0UT u || Str.eqb u $"LAYOUT" then true
    else false.

(** /^(\d{4})-(\d{1,2})(-(\d{1,2}))?$/ *)
Definition re_yyyyMm : regex :=
  seqs [Bol; Group 1 (exactly 4 digit); lit "-"; Group 2 (times 1 2 digit);
        opt (Group 3 (seqs [lit "-"; Group 4 (times 1 2 digit)])); Eol].

(** /^(\d{1,2})\/(\d{1,2})\/(\d{4})$/ *)
Definition re_mmDdYyyy : regex :=
  seqs [Bol; Group 1 (times 1 2 digit); lit "/"; Group 2 (times 1 2 digit); lit "/";
        Group 3 (exactly 4 digit); Eol].

(** /^(\d{1,2})-(\d{1,2})-(\d{4})$/ *)
Definition re_ddMmYyyy : regex :=
  seqs [Bol; Group 1 (times 1 2 digit); lit "-"; Group 2 (times 1 2 digit); lit "-";
        Group 3 (exactly 4 digit); Eol].

(** /^(\d{1,2})\/(\d{4})$/ *)
Definition re_mmYyyy : regex :=
  seqs [Bol; Group 1 (times 1 2 digit); lit "/"; Group 2 (exactly 4 digit); Eol].

(** The mapper's own [normalizeExpiry]. *)
Definition normalizeExpiry (value : str) : str :=
  let v := Str.trim value in
  let fromMmm := normalizeExpiryForMapping v in
  if negb (Str.eqb fromMmm v) then fromMmm
  else
  match exec_re re_yyyyMm v with
  | Some c => grp c 1 ++ $"-" ++ Str.padStart0 2 (grp c 2)
  | None =>
  match exec_re re_mmDdYyyy v with
  | Some c => grp c 3 ++ $"-" ++ Str.padStart0 2 (grp c 1)
  | None =>
  match exec_re re_ddMmYyyy v with
  | Some c => grp c 3 ++ $"-" ++ Str.padStart0 2 (grp c 2)
  | None =>
  match exec_re re_mmYyyy v with
  | Some c => grp c 2 ++ $"-" ++ Str.padStart0 2 (grp c 1)
  | None => v
  end end end end.

(** [0-9A-Za-z] under the i flag *)
Definition alnum_i : regex := Chr (cls_i is_alnum).

(**
    /(?:Lot\s*(?:No\.?|Number|#)?\s*:?|LOT\s*NO\.?\s*:?|LOT\s*NUMBER\s*:?|LOT\s+)\s*([0-9A-Za-z]{4,15})/i
    *)
Definition re_lotFromRaw : regex :=
  seqs [alts [seqs [liti "Lot"; star space;
                    opt (alts [seqs [liti "No"; opt (lit ".")]; liti "Number"; lit "#"]);
                    star space; opt (lit ":")];
              seqs [liti "LOT"; star space; liti "NO"; opt (lit "."); star space;
                    opt (lit ":")];
              seqs [liti "LOT"; star space; liti "NUMBER"; star space; opt (lit ":")];
              seqs [liti "LOT"; plus space]];
        star space; Group 1 (times 4 15 alnum_i)].

(** /\b(\d{6})\b/ *)
Definition re_standAlone6 : regex := seqs [WordB; Group 1 (exactly 6 digit); WordB].

(**
    /(?:Exp\.?|Expiry|Expiration(?:\s*DATE)?|Use\s*[- ]?By|EXP\s+)\s*:?\s*(D)/i
    where D is \d{4}-\d{2}(-\d{2})? | \d{4}\/\d{1,2}(?:\/\d{2,4})? |
    \d{4}-(?:JAN|...|DEC) | (?:JAN|...|DEC)\s+\d{4} | (?:JAN|...|DEC)\d{4} |
    \d{1,2}\/\d{1,2}\/\d{4} | \d{1,2}-\d{1,2}-\d{4} *)
Definition re_expiryFromRaw : regex :=
  seqs [alts [seqs [liti "Exp"; opt (lit ".")];
              liti "Expiry";
              seqs [liti "Expiration"; opt (seqs [star space; liti "DATE"])];
              seqs [liti "Use"; star space;
                    opt (Chr (fun c => ch "-" c || ch " " c)); liti "By"];
              seqs [liti "EXP"; plus space]];
        star space; opt (lit ":"); star space;
        Group 1
          (alts [seqs [exactly 4 digit; lit "-"; exactly 2 digit;
                       opt (Group 2 (seqs [lit "-"; exactly 2 digit]))];
                 seqs [exactly 4 digit; lit "/"; times 1 2 digit;
                       opt (seqs [lit "/"; times 2 4 digit])];
                 seqs [exactly 4 digit; lit "-"; months_i];
                 seqs [months_i; plus space; exactly 4 digit];
                 seqs [months_i; exactly 4 digit];
                 seqs [times 1 2 digit; lit "/"; times 1 2 digit; lit "/"; exactly 4 digit];
                 seqs [times 1 2 digit; lit "-"; times 1 2 digit; lit "-"; exactly 4 digit]])].

(** /\b(\d{4}-(?:JAN|...|DEC))\b/i *)
Definition re_yyyyMmmWord : regex :=
  seqs [WordB; Group 1 (seqs [exactly 4 digit; lit "-"; months_i]); WordB].

(** /\b(EXP\s+)?(JAN|...|DEC)\s+(\d{4})\b/i *)
Definition re_expMmmYyyy : regex :=
  seqs [WordB; opt (Group 1 (seqs [liti "EXP"; plus space])); Group 2 months_i; plus space;
        Group 3 (exactly 4 digit); WordB].

(** /\bEXP\s+(JAN|...|DEC)(\d{4})\b/i *)
Definition re_expMmmYyyyNoSpace : regex :=
  seqs [WordB; liti "EXP"; plus space; Group 1 months_i; Group 2 (exactly 4 digit); WordB].

(** /\bEXP\s*(\d{1,2}\/\d{2})\b/i *)
Definition re_expMmYy : regex :=
  seqs [WordB; liti "EXP"; star space;
        Group 1 (seqs [times 1 2 digit; lit "/"; exactly 2 digit]); WordB].

(** [if (!expiry) { m = raw.match(re); if (m) expiry = f(m) }] *)
Definition retry (expiry : str) (re : regex) (f : caps -> str) (raw : str) : str :=
  if nonempty expiry then expiry
  else match exec_re re raw with Some c => f c | None => expiry end.

(** [parseLotAndExpiryFromRaw]; the result is [(lot_no, expiry)]. *)
Definition parseLotAndExpiryFromRaw (raw : str) : str * str :=
  let lot_no :=
    match exec_re re_lotFromRaw raw with Some c => Str.trim (grp c 1) | None => [] end in
  let lot_no :=
    if nonempty lot_no then lot_no
    else match exec_re re_standAlone6 raw with Some c => grp c 1 | None => lot_no end in
  let expiry :=
    match exec_re re_expiryFromRaw raw with
    | Some c => normalizeExpiry (grp c 1)
    | None => []
    end in
  let expiry := retry expiry re_yyyyMmmWord (fun c => normalizeExpiry (grp c 1)) raw in
  let expiry :=
    retry expiry re_expMmmYyyy (fun c => normalizeExpiry (grp c 2 ++ $" " ++ grp c 3)) raw in
  let expiry :=
    retry expiry re_expMmmYyyyNoSpace (fun c => normalizeExpiry (grp c 1 ++ grp c 2)) raw in
  let expiry := retry expiry re_expMmYy (fun c => normalizeExpiry (grp c 1)) raw in
  (lot_no, expiry).

(**
    /(?:Serial\s*(?:No\.?|Number|#)?\s*:?|SN\s*:?|S\/N\s*:?)\s*([A-Za-z0-9]{8,20})/i
    *)
Definition SERIAL_FROM_RAW_REGEX : regex :=
  seqs [alts [seqs [liti "Serial"; star space;
                    opt (alts [seqs [liti "No"; opt (lit ".")]; liti "Number"; lit "#"]);
                    star space; opt (lit ":")];
              seqs [liti "SN"; star space; opt (lit ":")];
              seqs [liti "S/N"; star space; opt (lit ":")]];
        star space; Group 1 (times 8 20 alnum_i)].

Definition parseSerialFromRaw (raw : str) : str :=
  match exec_re SERIAL_FROM_RAW_REGEX raw with
  | Some c => Str.trim (grp c 1)
  | None => []
  end.

(** The state of the loop over the fields: the record, the lines of the raw
    text and the barcode values. *)
Record state : Type := {
  labelJson : LabelJson;
  lines : list str;
  barcodeValues : list str
}.

Definition init : state :=
  {| labelJson := {| batch_no := []; lot_no := []; expiry := [];
                     upc_gtin := None; serial := None; ref := None |};
     lines := []; barcodeValues := [] |}.

Definition assign (valueToSet : str) (j : LabelJson) (key : OutputKey) : LabelJson :=
  match key with
  | K_batch_no => with_batch_no valueToSet j
  | K_lot_no => with_lot_no valueToSet j
  | K_expiry => with_expiry valueToSet j
  | K_serial => with_serial valueToSet j
  | K_ref => with_ref valueToSet j
  end.

(** The body of the loop for one field; [None] is the TypeError raised when
    the name is a member inherited from [Object.prototype]. *)
Definition step (st : state) (f : ScanditField) : option state :=
  let v := Str.trim (value f) in
  let isMisread := Str.eqb (name f) $"Product code" && isProductCodeMisread v in
  let lines' :=
    if isMisread then lines st else lines st ++ [name f ++ $": " ++ value f] in
  if Str.eqb (name f) $"Barcode" then
    Some {| labelJson := labelJson st; lines := lines';
            barcodeValues := barcodeValues st ++ [v] |}
  else
    match output_keys_of (name f) with
    | Inherited => None
    | Keys outputKeys =>
        let valueToSet :=
          if existsb (OutputKey_eqb K_expiry) outputKeys then normalizeExpiry v else v in
        if Str.eqb (name f) $"Product code" && isProductCodeMisread v then
          Some {| labelJson := labelJson st; lines := lines';
                  barcodeValues := barcodeValues st |}
        else if Str.eqb (name f) $"Batch/Lot (numeric)" && isLikelyYYMMDD v then
          Some {| labelJson := with_expiry v (labelJson st); lines := lines';
                  barcodeValues := barcodeValues st |}
        else
          Some {| labelJson := fold_left (assign valueToSet) outputKeys (labelJson st);
                  lines := lines'; barcodeValues := barcodeValues st |}
    | Undefined =>
        if Str.eqb (name f) $"Expiry Date" then
          Some {| labelJson := with_expiry (normalizeExpiry v) (labelJson st);
                  lines := lines'; barcodeValues := barcodeValues st |}
        else
          Some {| labelJson := labelJson st; lines := lines';
                  barcodeValues := barcodeValues st |}
    end.

Fixpoint loop (st : state) (fields : list ScanditField) : option state :=
  match fields with
  | [] => Some st
  | f :: fields' =>
      match step st f with
      | Some st' => loop st' fields'
      | None => None
      end
  end.

(** /01\d{14}/ *)
Definition re_gtinInside : regex := seqs [lit "01"; exactly 14 digit].

(** /^\d{5,7}$/ *)
Definition re_shortBarcode : regex := seqs [Bol; times 5 7 digit; Eol].

(** /^\(?01\)?\s*(\d{13,14})$/ *)
Definition re_gtinFromAi : regex :=
  seqs [Bol; opt (lit "("); lit "01"; opt (lit ")"); star space;
        Group 1 (times 13 14 digit); Eol].

(** /^\d{6,14}$/ *)
Definition re_plainDigits : regex := seqs [Bol; times 6 14 digit; Eol].

Definition is_longGs1 (val : str) : bool :=
  (20 <=? length (Str.strip_ws val)) && test re_gtinInside (Str.strip_ws val).

(** [barcodeValues.reduce((a, b) => (a.length >= b.length ? a : b))] *)
Definition longest (vals : list str) : str :=
  match vals with
  | [] => []
  | a :: rest => fold_left (fun a b => if length b <=? length a then a else b) rest a
  end.

(** The clearing of batch and lot against one identifier. *)
Definition clear_against (o : option str) (j : LabelJson) : LabelJson :=
  if truthy o then
    let j := if same (batch_no j) o then with_batch_no [] j else j in
    if same (lot_no j) o then with_lot_no [] j else j
  else j.

(** The final clearing: batch and lot must not repeat the product
    identifier or the reference. *)
Definition reconcile (j : LabelJson) : LabelJson :=
  let j := clear_against (upc_gtin j) j in
  clear_against (ref j) j.

Section WithLibrary.

Variable decode : str -> Gs1.decoded.

(** The part of [scanditFieldsToLabelJson] after the loop, up to the final
    clearing: barcode delegation, raw text and the raw-text fallbacks. *)
Definition gather (st : state) : LabelJson * str :=
  let j := labelJson st in
  let longGs1 := find is_longGs1 (barcodeValues st) in
  let barcodeValue :=
    match longGs1 with
    | Some val => val
    | None => longest (barcodeValues st)
    end in
  let shortBarcode := find (fun val => test re_shortBarcode (Str.strip_ws val))
                           (barcodeValues st) in
  let j :=
    match shortBarcode with
    | Some sb =>
        if negb (truthy (ref j)) && truthy shortBarcode && truthy longGs1
        then with_ref (Str.trim sb) j else j
    | None => j
    end in
  let j :=
    if 14 <=? length barcodeValue then
      match Gs1.parseGs1ToLabelJson decode barcodeValue with
      | Some gs1 =>
          let j := if nonempty (Gs1.batch_no gs1) then with_batch_no (Gs1.batch_no gs1) j else j in
          let j := if nonempty (Gs1.lot_no gs1) then with_lot_no (Gs1.lot_no gs1) j else j in
          let j := if nonempty (Gs1.expiry gs1) then with_expiry (Gs1.expiry gs1) j else j in
          let j := match Gs1.upc_gtin gs1 with
                   | Some g => if nonempty g then with_upc_gtin g j else j
                   | None => j
                   end in
          match Gs1.serial gs1 with
          | Some s => if nonempty s then with_serial s j else j
          | None => j
          end
      | None => j
      end
    else j in
  let j :=
    if negb (truthy (upc_gtin j)) && nonempty barcodeValue then
      match exec_re re_gtinFromAi (Str.trim barcodeValue) with
      | Some c => with_upc_gtin (grp c 1) j
      | None =>
          let digits := Str.strip_ws barcodeValue in
          if test re_plainDigits digits then with_upc_gtin digits j else j
      end
    else j in
  let raw := Str.join_nl (lines st) in
  let raw :=
    match serial j with
    | Some s =>
        if nonempty s then
          (if nonempty raw then raw ++ "010"%char :: $"Serial: " ++ s else $"Serial: " ++ s)
        else raw
    | None => raw
    end in
  let j :=
    if negb (nonempty (lot_no j)) || negb (nonempty (expiry j)) then
      let parsed := parseLotAndExpiryFromRaw raw in
      let j := if negb (nonempty (lot_no j)) && nonempty (fst parsed)
               then with_lot_no (fst parsed) j else j in
      if negb (nonempty (expiry j)) && nonempty (snd parsed)
      then with_expiry (snd parsed) j else j
    else j in
  let j :=
    if negb (truthy (serial j)) then
      let serialFromRaw := parseSerialFromRaw raw in
      if nonempty serialFromRaw then with_serial serialFromRaw j else j
    else j in
  (j, raw).

Definition after_loop (st : state) : LabelJson * str :=
  let '(j, raw) := gather st in (reconcile j, raw).

(** [scanditFieldsToLabelJson]; the result is [(labelJson, raw)], [None]
    when the loop raises. *)
Definition scanditFieldsToLabelJson (fields : list ScanditField)
  : option (LabelJson * str) :=
  match loop init fields with
  | Some st => Some (after_loop st)
  | None => None
  end.

End WithLibrary.

End Mapper.

(* ================================================================== *)
(** ** The notions the properties are stated with *)

Module Shapes.

(** The canonical forms of an expiry: YYYY-MM and YYYY-MM-DD. *)
Definition is_ym (s : str) : bool :=
  match s with
  | [y1; y2; y3; y4; d; m1; m2] =>
      is_digit y1 && is_digit y2 && is_digit y3 && is_digit y4 && ch "-" d
      && is_digit m1 && is_digit m2
  | _ => false
  end.

Definition is_ymd (s : str) : bool :=
  match s with
  | [y1; y2; y3; y4; d; m1; m2; e; d1; d2] =>
      is_ym [y1; y2; y3; y4; d; m1; m2] && ch "-" e && is_digit d1 && is_digit d2
  | _ => false
  end.

Definition canonical (s : str) : bool := is_ym s || is_ymd s.

Definition empty_or (p : str -> bool) (s : str) : bool :=
  match s with [] => true | _ => p s end.

(** A unit that is neither a digit nor a hyphen. *)
Definition not_date_unit (c : ascii) : bool := negb (is_digit c || ch "-" c).

(** One of the positional patterns of the fallback decoder occurs in the
    text. *)
Definition found_by_fallback (t : str) : bool :=
  test Gs1.re_gtin t || test Gs1.re_serial t || test Gs1.re_exp t
  || test Gs1.re_batchBeforeSerial t || test Gs1.re_batchToEnd t.

(** A decoder of the library that rejects every input. *)
Definition rejecting_decoder : str -> Gs1.decoded := fun _ => Gs1.Throws.

(** A structured field, from its name and value. *)
Definition field (n v : string) : Mapper.ScanditField :=
  {| Mapper.name := $n; Mapper.value := $v |}.

(** The values that a product code is compared with, after upper-casing,
    to detect a misread keyword. *)
Definition known_confusions : list str :=
  [$"LT"; $"L0T"; $"EX"; $"EXP"; $"E1P"; $"LOT"; $"LAYUT"; $"LAY0UT"; $"LAYOUT"].

(** The OCR text of the selection example: two lines. *)
Definition spec_ocr_text : str := $"Lot No.: 20054138" ++ "010"%char :: $"Exp.: 2027-02".

(** The month names as texts. *)
Definition month_strs : list str := map list_ascii_of_string month_names.

(** A property of all pairs of units, checked by enumeration. *)
Definition all2 (P : ascii -> ascii -> bool) : bool :=
  forallb (fun x => forallb (P x) all_ascii) all_ascii.

(** The pattern [re] matches [z] and its group [gm] holds a month name. *)
Definition month_ok (re : regex) (gm : nat) (z : str) : bool :=
  match exec_re re z with
  | Some c =>
      match c gm with
      | Some nm => existsb (Str.eqb nm) month_strs
      | None => false
      end
  | None => false
  end.

(** An optional expiry that, when there, has the form YYYY-MM. *)
Definition expiry_ok (o : option str) : Prop :=
  match o with Some e => is_ym e = true | None => True end.

(** *** The batch of a concatenated GS1 text, by position *)

(** The text starts with 17, six digits and 10. *)
Definition starts_17_10 (t : str) : bool :=
  match t with
  | a :: b :: d1 :: d2 :: d3 :: d4 :: d5 :: d6 :: e :: g :: _ =>
      ch "1" a && ch "7" b && is_digit d1 && is_digit d2 && is_digit d3
      && is_digit d4 && is_digit d5 && is_digit d6 && ch "1" e && ch "0" g
  | _ => false
  end.

(** The value of AI 10: what follows the first 17, six digits and 10 that
    have a unit after them. *)
Fixpoint value_after_17_10 (t : str) : option str :=
  match t with
  | [] => None
  | _ :: t' =>
      if starts_17_10 t && Gs1.nonempty (skipn 10 t) then Some (skipn 10 t)
      else value_after_17_10 t'
  end.

Definition starts_21 (s : str) : bool :=
  match s with
  | x :: y :: _ => ch "2" x && ch "1" y
  | _ => false
  end.

(** The text before the first 21. *)
Fixpoint upto_21 (s : str) : option str :=
  match s with
  | [] => None
  | a :: s' => if starts_21 s then Some [] else option_map (cons a) (upto_21 s')
  end.

(** The part of a value that ends before AI 21: its first unit and what
    follows up to the first 21. *)
Definition before_21 (v : str) : option str :=
  match v with
  | [] => None
  | a :: rest => option_map (cons a) (upto_21 rest)
  end.

(** The batch as the specification words it: the value of AI 10 after 17
    and six digits, ended by AI 21 when there is one, otherwise running to
    the end of the text. *)
Definition batch_by_position (t : str) : str :=
  match value_after_17_10 t with
  | Some v => match before_21 v with Some b => b | None => v end
  | None => []
  end.

(** A matcher for one unit of a class. *)
Definition unit_matcher (R : Type) (p : ascii -> bool)
    (ea : str -> str -> caps -> cont R -> option R) : Prop :=
  (forall l c k, ea l [] c k = None) /\
  (forall l a s c k, ea l (a :: s) c k = if p a then k (a :: l) s c else None).

(** The continuation of the lazy group of the first batch pattern: the
    literal 21, then the end of the match. *)
Definition k21 (l0 l1 : str) : cont result :=
  fun l2 s2 c2 =>
    exec (lit "21") l2 s2 (set_cap 1 (between l1 l2) c2)
         (fun l' s' c' => Some (l', s', set_cap 0 (between l0 l') c')).

End Shapes.
Import Shapes.

(* ================================================================== *)
(** ** scanditLabelToOcrFormat.ts: the fields of the capture SDK *)

Module LabelFields.

(** A date of the SDK: day, month and year, each a whole number or null. *)
Record DateValue : Type := { day : option Z; month : option Z; year : option Z }.

(** A field of the SDK: its name and, each optional, a recognised text, a
    date, and a barcode ([barcode] holds the [data] of the barcode, itself
    optional). *)
Record LabelField : Type := {
  name : str;
  text : option str;
  date : option DateValue;
  barcode : option (option str)
}.

(** [formatExpiry], on whole numbers of fewer than 22 digits: [String(n)]
    is then the decimal numeral.  (A fraction, NaN or a larger number
    prints in another way and is not a value of this model.) *)
Definition formatExpiry (day month year : option Z) : str :=
  match year with
  | None => []
  | Some year =>
      let y := Str.of_Z year in
      match month with
      | None => if length y =? 4 then y else []
      | Some month =>
          let m := Str.padStart0 2 (Str.of_Z month) in
          match day with
          | None => y ++ $"-" ++ m
          | Some day =>
              let d := Str.padStart0 2 (Str.of_Z day) in
              Str.slice 0 7 (y ++ $"-" ++ m ++ $"-" ++ d)
          end
      end
  end.

(** The value of a field: the date when there is one, else the data of the
    barcode, else the text. *)
Definition value_of (field : LabelField) : str :=
  match date field with
  | Some dt => formatExpiry (day dt) (month dt) (year dt)
  | None =>
      match barcode field with
      | Some (Some data) => data
      | _ => match text field with Some t => t | None => [] end
      end
  end.

Section WithLibrary.

Variable decode : str -> Gs1.decoded.

Definition scanditLabelFieldsToLabelJson (fields : list LabelField)
  : option (Mapper.LabelJson * str) :=
  let pairs :=
    map (fun field => {| Mapper.name := name field; Mapper.value := value_of field |})
        fields in
  Mapper.scanditFieldsToLabelJson decode pairs.

End WithLibrary.

End LabelFields.

(* ================================================================== *)
(** ** web-dashboard gs1Parse.ts: the barcode parser of the dashboard *)

Module Dashboard.

(** [preprocessScan] *)
Definition preprocessScan (raw : str) : str :=
  match raw with
  | [] => []
  | _ => Str.trim (Str.replace_char "|"%char Gs1.GS1_GROUP_SEPARATOR raw)
  end.

Inductive BarcodeType : Type :=
| GS1_LINEAR
| GS1_DATAMATRIX
| UPC
| EAN
| UNKNOWN.

(** [ParsedData]; an optional key that is absent is [None]. *)
Record ParsedData : Type := {
  upc_gtin : str;
  batch : option str;
  expiry : option str;
  serial : option str;
  type : BarcodeType;
  raw : option str
}.

(** [elToStr], the same function as in the scanner's gs1Parse.ts. *)
Definition elToStr : option Gs1.element -> option str := Gs1.elToStr.

Definition inferRawType (raw : str) : BarcodeType :=
  let digitsOnly := filter is_digit raw in
  let len := length digitsOnly in
  if len =? 8 then EAN
  else if (len =? 12) || (len =? 13) || (len =? 14) then UPC
  else if (0 <? len) && (len <=? 18) then UPC
  else UNKNOWN.

Definition GS1_DATAMATRIX_LENGTH_THRESHOLD : nat := 40.

Definition inferGS1Variant (gtin batch expiry serial : str) (normalizedLength : nat)
  : BarcodeType :=
  let aiCount := length (filter Gs1.nonempty [gtin; batch; expiry; serial]) in
  if 3 <=? aiCount then GS1_DATAMATRIX
  else if GS1_DATAMATRIX_LENGTH_THRESHOLD <? normalizedLength then GS1_DATAMATRIX
  else GS1_LINEAR.

(** What [parseBarcodeToData] returns for a scan the library does not take
    apart. *)
Definition undecoded (normalized raw : str) : ParsedData :=
  {| upc_gtin := normalized; batch := None; expiry := None; serial := None;
     type := inferRawType normalized; raw := Some raw |}.

Section WithLibrary.

(** The decoder of the GS1 library, [parser.decode]. *)
Variable decode : str -> Gs1.decoded.

(** The [try] block of [parseBarcodeToData]; [None] when an exception is
    caught. *)
Definition decoded_data (normalized raw : str) : option ParsedData :=
  match decode normalized with
  | Gs1.Throws => None
  | Gs1.Decoded None => Some (undecoded normalized raw)
  | Gs1.Decoded (Some d) =>
      if length d =? 0 then Some (undecoded normalized raw)
      else
        match elToStr (lookup $"gtin" d) with
        | None => None
        | Some gtin =>
        match elToStr (lookup $"batch" d) with
        | None => None
        | Some batch =>
        match elToStr (lookup $"expDate" d) with
        | None => None
        | Some expiry =>
        match elToStr (lookup $"serial" d) with
        | None => None
        | Some serial =>
        let hasStructuredData :=
          Gs1.nonempty gtin || Gs1.nonempty batch || Gs1.nonempty expiry
          || Gs1.nonempty serial in
        let type :=
          if hasStructuredData
          then inferGS1Variant gtin batch expiry serial (length normalized)
          else inferRawType normalized in
        let upc_gtin := if Gs1.nonempty gtin then gtin else normalized in
        Some {| upc_gtin := upc_gtin; batch := Gs1.present batch;
                expiry := Gs1.present expiry; serial := Gs1.present serial;
                type := type; raw := Some raw |}
        end end end end
  end.

Definition parseBarcodeToData (raw : str) : ParsedData :=
  let normalized := preprocessScan raw in
  if negb (Gs1.nonempty normalized) then
    {| upc_gtin := []; batch := None; expiry := None; serial := None;
       type := UNKNOWN; raw := None |}
  else
    match decoded_data normalized raw with
    | Some r => r
    | None => undecoded normalized raw
    end.

End WithLibrary.

Definition MONTHS : list str := map list_ascii_of_string month_names.

(** /^(\d{4})-(\d{2})(?:-(\d{2}))?/ *)
Definition re_display : regex :=
  seqs [Bol; Group 1 (exactly 4 digit); lit "-"; Group 2 (exactly 2 digit);
        opt (seqs [lit "-"; Group 3 (exactly 2 digit)])].

(** [MONTHS[mi]] in a template literal: an index that is NaN or out of the
    list prints as undefined. *)
Definition month_name (mi : option Z) : str :=
  match mi with
  | Some i => if (i <? 0)%Z then $"undefined" else nth (Z.to_nat i) MONTHS $"undefined"
  | None => $"undefined"
  end.

Definition formatExpiryDisplay (expiry : str) : str :=
  if negb (Gs1.nonempty expiry) || negb (Gs1.nonempty (Str.trim expiry)) then []
  else
    match exec_re re_display (Str.trim expiry) with
    | None => expiry
    | Some m =>
        let y := grp m 1 in
        let month := grp m 2 in
        let day := grp m 3 in
        let mi := option_map (fun n => (n - 1)%Z) (Str.parseInt month) in
        if match mi with Some i => (i <? 0)%Z || (11 <? i)%Z | None => false end
        then expiry
        else if Gs1.nonempty day
        then Str.padStart0 2 day ++ $" " ++ month_name mi ++ $" " ++ y
        else month_name mi ++ $" " ++ y
    end.

(** The tab of the display lines. *)
Definition TAB : ascii := "009"%char.

Definition is_gs1 (t : BarcodeType) : bool :=
  match t with GS1_DATAMATRIX | GS1_LINEAR => true | _ => false end.

(** One [if (x) lines.push(...)] of [formatGs1AsKeyValueLines]. *)
Definition push_if (cond : bool) (line : str) (lines : list str) : list str :=
  if cond then lines ++ [line] else lines.

Definition formatGs1AsKeyValueLines (parsed : ParsedData) : str :=
  let lines := [] in
  let lines :=
    push_if (Gs1.nonempty (upc_gtin parsed) && is_gs1 (type parsed))
            ($"(01) GTIN" ++ TAB :: upc_gtin parsed) lines in
  let lines :=
    push_if (LabelFormats.truthy (expiry parsed))
            ($"(17) EXPIRY" ++ TAB :: formatExpiryDisplay (LabelFormats.or_empty (expiry parsed)))
            lines in
  let lines :=
    push_if (LabelFormats.truthy (batch parsed))
            ($"(10) BATCH/LOT" ++ TAB :: LabelFormats.or_empty (batch parsed)) lines in
  let lines :=
    push_if (LabelFormats.truthy (serial parsed))
            ($"(21) SERIAL" ++ TAB :: LabelFormats.or_empty (serial parsed)) lines in
  Str.join_nl lines.

End Dashboard.

(* ================================================================== *)
(** ** App.tsx of the scanner: the label sent for an OCR text *)

Module ScannerApp.

(** [s.replace(/8/g, 'B').replace(/2/g, 'Z').toUpperCase()] *)
Definition correctBatchOcr (s : str) : str :=
  Str.toUpperCase (Str.replace_char "2"%char "Z"%char (Str.replace_char "8"%char "B"%char s)).

(** /^\d{3,5}$/ *)
Definition re_shortDigits : regex := seqs [Bol; times 3 5 digit; Eol].

(** [ocrTextToLabelJson]; the result is [(batch_no, lot_no, expiry)]. *)
Definition ocrTextToLabelJson (ocrText : str) : str * str * str :=
  let '(batch_no, lot_no, expiry) := LabelFormats.extractLabelFromOcr ocrText in
  if Gs1.nonempty batch_no && test re_shortDigits batch_no
  then (correctBatchOcr batch_no, lot_no, expiry)
  else (batch_no, lot_no, expiry).

End ScannerApp.

(* ================================================================== *)
(** ** Further notions the properties are stated with *)

Module Notions.

(** The century given to a two-digit year: 19 from 50 on, 20 below. *)
Definition century (y1 y2 : ascii) : str :=
  if (50 <=? 10 * Str.digit_val y1 + Str.digit_val y2)%Z then $"19" else $"20".

(** The value of a two-digit numeral. *)
Definition two_digits (a b : ascii) : Z := (10 * Str.digit_val a + Str.digit_val b)%Z.

(** Digits become 0; every other unit stays. *)
Definition absd (c : ascii) : ascii := if is_digit c then "0"%char else c.

(** A text that [trim] and [toUpperCase] leave alone: digits, hyphens and
    slashes. *)
Definition plain (c : ascii) : bool := is_digit c || ch "-" c || ch "/" c.

(** The pattern ends with [$]. *)
Fixpoint ends_eol (r : regex) : bool :=
  match r with
  | Seq _ b => ends_eol b
  | Eol => true
  | _ => false
  end.

(** The line of the raw text that a structured field gives. *)
Definition line_of (f : Mapper.ScanditField) : str :=
  Mapper.name f ++ $": " ++ Mapper.value f.

(** The field takes part in the raw text: it is not a misread product
    code. *)
Definition kept (f : Mapper.ScanditField) : bool :=
  negb (Str.eqb (Mapper.name f) $"Product code"
        && Mapper.isProductCodeMisread (Str.trim (Mapper.value f))).

(** The raw text with the line of a serial number after it. *)
Definition with_serial_line (base s : str) : str :=
  if Gs1.nonempty base then base ++ "010"%char :: $"Serial: " ++ s else $"Serial: " ++ s.

(** The decimal numeral of [n] is [lo] to [hi] digits. *)
Definition numeral_ok (lo hi : nat) (n : nat) : bool :=
  let x := Str.of_Z (Z.of_nat n) in
  forallb is_digit x && (lo <=? length x) && (length x <=? hi).

(** An optional field that, when there, is [lo] to [hi] letters and
    digits. *)
Definition field_ok (lo hi : nat) (o : option str) : Prop :=
  match o with Some x => shaped is_alnum lo hi x | None => True end.

(** A text that is empty or [lo] to [hi] letters and digits. *)
Definition empty_or_alnum (lo hi : nat) (x : str) : Prop :=
  x = [] \/ shaped is_alnum lo hi x.

(** The batch and the lot of a matcher's result are as long as the
    patterns allow. *)
Definition fields_ok (out : LabelFormats.LabelFormatResult) : Prop :=
  field_ok 2 10 (LabelFormats.batch_no out) /\ field_ok 4 15 (LabelFormats.lot_no out).

(** A property of all units, checked by enumeration. *)
Definition all1 (P : ascii -> bool) : bool := forallb P all_ascii.

(** The ten digits. *)
Definition digits10 : str := $"0123456789".

(** *** The batch correction of the scanner *)

(** The unit that the batch correction leaves for a digit: B for 8, Z for
    2, the digit itself otherwise. *)
Definition digit_fix (c : ascii) : ascii :=
  if Ascii.eqb c "8" then "B"%char else if Ascii.eqb c "2" then "Z"%char else c.

(** A text of 3 to 5 digits. *)
Definition short_digits (b : str) : bool :=
  forallb is_digit b && (3 <=? length b) && (length b <=? 5).

(** *** The expiry of a concatenated GS1 text, by position *)

(** The text starts with 17 and six digits. *)
Definition starts_17 (t : str) : bool :=
  match t with
  | a :: b :: d1 :: d2 :: d3 :: d4 :: d5 :: d6 :: _ =>
      ch "1" a && ch "7" b && is_digit d1 && is_digit d2 && is_digit d3
      && is_digit d4 && is_digit d5 && is_digit d6
  | _ => false
  end.

(** The six digits after the leftmost 17 that six digits follow. *)
Fixpoint yymmdd_after_17 (t : str) : option str :=
  match t with
  | [] => None
  | _ :: t' => if starts_17 t then Some (firstn 6 (skipn 2 t)) else yymmdd_after_17 t'
  end.

(** *** The batch of any concatenated GS1 text, by position *)

(** The longest start of a text that is letters and digits only. *)
Fixpoint alnum_run (s : str) : str :=
  match s with
  | a :: s' => if is_alnum a then a :: alnum_run s' else []
  | [] => []
  end.

(** The value that ends before an AI 21: at the leftmost place where 17,
    six digits and 10 are followed by letters and digits that hold a 21
    after their first unit, these letters and digits up to that 21. *)
Fixpoint value_before_21 (t : str) : option str :=
  match t with
  | [] => None
  | _ :: t' =>
      match (if starts_17_10 t then before_21 (alnum_run (skipn 10 t)) else None) with
      | Some b => Some b
      | None => value_before_21 t'
      end
  end.

(** The letters and digits after the leftmost 17, six digits and 10 that a
    letter or digit follows. *)
Fixpoint value_run (t : str) : option str :=
  match t with
  | [] => None
  | _ :: t' =>
      if starts_17_10 t && Gs1.nonempty (alnum_run (skipn 10 t))
      then Some (alnum_run (skipn 10 t))
      else value_run t'
  end.

(** The batch of a text by position, whatever its units. *)
Definition batch_of_text (t : str) : str :=
  match value_before_21 t with
  | Some b => b
  | None => match value_run t with Some b => b | None => [] end
  end.

(** *** What the mapper reads from its fields *)

(** The values of the barcode fields, trimmed, in their order. *)
Definition barcode_values (fields : list Mapper.ScanditField) : list str :=
  map (fun f => Str.trim (Mapper.value f))
      (filter (fun f => Str.eqb (Mapper.name f) $"Barcode") fields).

(** The serial that the fields give: the trimmed value of the last field
    named [Serial no]. *)
Definition field_serial (fields : list Mapper.ScanditField) : option str :=
  fold_left (fun acc f => if Str.eqb (Mapper.name f) $"Serial no"
                          then Some (Str.trim (Mapper.value f)) else acc)
            fields None.

(** The barcode value that is parsed: the first long GS1 value, otherwise
    the longest value (the first of the longest ones). *)
Definition chosen_barcode (vals : list str) : str :=
  match find Mapper.is_longGs1 vals with Some val => val | None => Mapper.longest vals end.

(** The serial known when the raw text is built: the serial of the parsed
    barcode when it gives one, otherwise the serial of the fields. *)
Definition serial_before_raw (decode : str -> Gs1.decoded)
    (fields : list Mapper.ScanditField) : option str :=
  let barcodeValue := chosen_barcode (barcode_values fields) in
  let fromBarcode :=
    if 14 <=? length barcodeValue then
      match Gs1.parseGs1ToLabelJson decode barcodeValue with
      | Some gs1 => Gs1.serial gs1
      | None => None
      end
    else None in
  if Mapper.truthy fromBarcode then fromBarcode else field_serial fields.

(** The names of the fields whose value is written to the expiry: the
    registered expiry fields and the built-in [Expiry Date]. *)
Definition expiry_names : list str :=
  [$"Expiry"; $"Expiry (YYYY-MMM)"; $"Expiry (EXP MMM YYYY)"; $"Expiry (EXP MM/YY)";
   $"Expiry (EXPIRATION DATE)"; $"Expiry Date"].

(** The expiry that the fields give: the last field that writes one
    decides; an expiry field writes its normalized value, and a
    [Batch/Lot (numeric)] field whose six digits look like YYMMDD writes its
    trimmed value. *)
Definition field_expiry (fields : list Mapper.ScanditField) : str :=
  fold_left (fun acc f =>
               let v := Str.trim (Mapper.value f) in
               if existsb (Str.eqb (Mapper.name f)) expiry_names
               then Mapper.normalizeExpiry v
               else if Str.eqb (Mapper.name f) $"Batch/Lot (numeric)"
                       && Mapper.isLikelyYYMMDD v then v
               else acc)
            fields [].

(** The expiry of the parsed barcode, empty when no barcode is parsed. *)
Definition barcode_expiry (decode : str -> Gs1.decoded)
    (fields : list Mapper.ScanditField) : str :=
  let barcodeValue := chosen_barcode (barcode_values fields) in
  if 14 <=? length barcodeValue then
    match Gs1.parseGs1ToLabelJson decode barcodeValue with
    | Some gs1 => Gs1.expiry gs1
    | None => []
    end
  else [].

(** The expiry known when the raw text is built: that of the barcode when
    it gives one, otherwise that of the fields. *)
Definition expiry_before_raw (decode : str -> Gs1.decoded)
    (fields : list Mapper.ScanditField) : str :=
  if Mapper.nonempty (barcode_expiry decode fields) then barcode_expiry decode fields
  else field_expiry fields.

(** The text is not empty and is the product identifier or the reference
    of the record. *)
Definition names_id (x : str) (j : Mapper.LabelJson) : bool :=
  Mapper.nonempty x && (Mapper.same x (Mapper.upc_gtin j) || Mapper.same x (Mapper.ref j)).

(** A batch or lot after the final clearing. *)
Definition cleared (x : str) (j : Mapper.LabelJson) : str :=
  if names_id x j then [] else x.

(** An expiry that comes from the fields or from the raw text: it is
    empty, or the six digits of a [Batch/Lot (numeric)] field taken as a
    date, or YYYY-MM, or a trimmed text that the mapper's normalizer leaves
    as it is. *)
Definition from_fields (fields : list Mapper.ScanditField) (e : str) : Prop :=
  e = [] \/
  (exists f, In f fields /\ Mapper.name f = $"Batch/Lot (numeric)" /\
             Mapper.isLikelyYYMMDD (Str.trim (Mapper.value f)) = true /\
             e = Str.trim (Mapper.value f)) \/
  is_ym e = true \/
  (exists x, Mapper.normalizeExpiry x = Str.trim x /\ e = Str.trim x).

(** A decoder of the library that gives the text 270228 as the data of
    the [expDate] element, whatever the input. *)
Definition decoder_giving_text : str -> Gs1.decoded :=
  fun _ => Gs1.Decoded
             (Some [($"expDate", {| Gs1.data := Some (Gs1.VStr $"270228");
                                    Gs1.dataString := None |})]).

(** *** The text that the OCR formats run on *)

(** The words of a text, left to right: its longest runs of units that are
    not white space.  [w] is the word being read, last unit first. *)
Fixpoint words_acc (w : str) (s : str) : list str :=
  match s with
  | [] => match w with [] => [] | _ :: _ => [rev w] end
  | c :: s' =>
      if is_space c then
        match w with
        | [] => words_acc [] s'
        | _ :: _ => rev w :: words_acc [] s'
        end
      else words_acc (c :: w) s'
  end.

Definition words (s : str) : list str := words_acc [] s.

(** Texts joined by single spaces. *)
Fixpoint join_sp (l : list str) : str :=
  match l with
  | [] => []
  | [x] => x
  | x :: l' => x ++ " "%char :: join_sp l'
  end.

Definition starts_ws (s : str) : bool :=
  match s with c :: _ => is_space c | [] => false end.

(** A word: not empty, without white space. *)
Definition word_ok (x : str) : Prop := x <> [] /\ Forall (fun c => is_space c = false) x.

(** The number of fields of a result that are there and not empty. *)
Definition filled (o : option str) : nat :=
  match o with Some (_ :: _) => 1 | _ => 0 end.

Definition filled_fields (r : LabelFormats.LabelFormatResult) : nat :=
  filled (LabelFormats.batch_no r) + filled (LabelFormats.lot_no r)
  + filled (LabelFormats.expiry r).

(** The first line of an OCR text that is not blank, trimmed. *)
Definition first_line (ocrText : str) : option str :=
  hd_error (filter (fun s => negb (Str.eqb s [])) (map Str.trim (Str.split_lines ocrText))).

(** A text of 2 to 10 letters and digits. *)
Definition short_code (x : str) : bool :=
  forallb is_alnum x && (2 <=? length x) && (length x <=? 10).

(** Letters and digits become 0; every other unit stays. *)
Definition absa (c : ascii) : ascii := if is_alnum c then "0"%char else c.

(** An OCR text whose first line is a short code that no format reads. *)
Definition first_line_text : str := $"AB" ++ "010"%char :: $"Lot No.: 20054138".

End Notions.
Import Notions.

(* ================================================================== *)
(** * Properties *)

(** ** Strings *)

Module StrFacts.

Lemma eqb_refl (a : str) : Str.eqb a a = true.
Proof.
  induction a as [|x a IH]; simpl; [reflexivity|].
  now rewrite Ascii.eqb_refl, IH.
Qed.

Lemma eqb_eq (a b : str) : Str.eqb a b = true <-> a = b.
Proof.
  split; [|intros ->; apply eqb_refl].
  revert b; induction a as [|x a IH]; intros [|y b]; simpl; try discriminate; auto.
  intros H; apply andb_prop in H as [H1 H2].
  apply Ascii.eqb_eq in H1; subst; f_equal; auto.
Qed.

Lemma eqb_neq (a b : str) : Str.eqb a b = false <-> a <> b.
Proof.
  split.
  - intros H E; apply eqb_eq in E; congruence.
  - intros H; destruct (Str.eqb a b) eqn:E; [apply eqb_eq in E; contradiction|reflexivity].
Qed.

Lemma drop_while_length p (s : str) : length (Str.drop_while p s) <= length s.
Proof.
  induction s as [|c s IH]; simpl; [lia|].
  destruct (p c); simpl; lia.
Qed.

Lemma drop_while_head p (s : str) :
  match Str.drop_while p s with [] => True | c :: _ => p c = false end.
Proof.
  induction s as [|c s IH]; simpl; [exact I|].
  destruct (p c) eqn:E; [exact IH|exact E].
Qed.

Lemma drop_while_fix p (s : str) :
  match s with [] => True | c :: _ => p c = false end -> Str.drop_while p s = s.
Proof. destruct s as [|c s]; simpl; [reflexivity|]. now intros ->. Qed.

Lemma trim_length (s : str) : length (Str.trim s) <= length s.
Proof.
  unfold Str.trim, Str.trimEnd, Str.trimStart.
  rewrite length_rev.
  etransitivity; [apply drop_while_length|].
  rewrite length_rev. apply drop_while_length.
Qed.

Lemma trim_tight_id (s : str) : tight s -> Str.trim s = s.
Proof.
  intros [H1 H2]. unfold Str.trim, Str.trimEnd, Str.trimStart.
  rewrite (drop_while_fix _ s H1), (drop_while_fix _ (rev s) H2).
  apply rev_involutive.
Qed.

Lemma drop_while_app_keep p (a : str) c :
  p c = false -> exists b, Str.drop_while p (a ++ [c]) = b ++ [c].
Proof.
  intros Hc. induction a as [|x a [b IH]]; simpl.
  - rewrite Hc. now exists [].
  - destruct (p x); [now exists b|]. now exists (x :: a).
Qed.

Lemma trim_tight (s : str) : tight (Str.trim s).
Proof.
  unfold Str.trim, Str.trimEnd, Str.trimStart, tight.
  rewrite rev_involutive.
  split; [|apply drop_while_head].
  pose proof (drop_while_head is_space s) as H.
  destruct (Str.drop_while is_space s) as [|c t]; [exact I|].
  simpl rev.
  destruct (drop_while_app_keep is_space (rev t) c H) as [b ->].
  rewrite rev_app_distr. simpl. exact H.
Qed.

Lemma trim_idem (s : str) : Str.trim (Str.trim s) = Str.trim s.
Proof. apply trim_tight_id, trim_tight. Qed.

End StrFacts.

(** ** The matcher is sound for the matching relation *)

Module ReFacts.

Lemma between_app (l w : str) : between l (rev w ++ l) = w.
Proof.
  unfold between. rewrite length_app, Nat.add_sub.
  rewrite firstn_app, firstn_all, Nat.sub_diag. simpl.
  rewrite app_nil_r. apply rev_involutive.
Qed.

Lemma clear_caps_some gs c i x : clear_caps gs c i = Some x -> c i = Some x.
Proof. unfold clear_caps. destruct (existsb _ gs); [discriminate|auto]. Qed.

Lemma clear_caps_out gs c i : ~ In i gs -> clear_caps gs c i = c i.
Proof.
  intros H. unfold clear_caps.
  destruct (existsb (Nat.eqb i) gs) eqn:E; [|reflexivity].
  apply existsb_exists in E as (j & Hj & Hij).
  apply Nat.eqb_eq in Hij; subst. contradiction.
Qed.

Section Sound.
Variable R : Type.

Lemma rep_loop_sound (a : regex) (greedy : bool) (k : cont R) :
  (forall l s c (k : cont R) res, exec a l s c k = Some res -> post a l s c k res) ->
  forall n lo l s c res,
    lo <= n ->
    rep_loop (exec a) (groups a) greedy k n lo l s c = Some res ->
    exists j w s' c',
      s = w ++ s' /\ lo <= j /\ j <= n /\ iter (mt a) j l w s' /\
      k (rev w ++ l) s' c' = Some res /\
      (forall i x, c' i = Some x -> c i = Some x \/ cap_ok a i x) /\
      (forall i, ~ In i (groups a) -> c' i = c i) /\
      (forall i, defines i a = true -> 1 <= j -> c' i <> None) /\
      (j = 0 -> forall i, c' i = c i).
Proof.
  intros IHa.
  assert (Hstop : forall n lo l s c res, lo = 0 -> k l s c = Some res ->
    exists j w s' c',
      s = w ++ s' /\ lo <= j /\ j <= n /\ iter (mt a) j l w s' /\
      k (rev w ++ l) s' c' = Some res /\
      (forall i x, c' i = Some x -> c i = Some x \/ cap_ok a i x) /\
      (forall i, ~ In i (groups a) -> c' i = c i) /\
      (forall i, defines i a = true -> 1 <= j -> c' i <> None) /\
      (j = 0 -> forall i, c' i = c i)).
  { intros n lo l s c res -> Hk. exists 0, [], s, c. simpl.
    repeat split; auto; try lia. }
  induction n as [|n IHn]; intros lo l s c res Hlo H.
  - simpl in H. apply Hstop; [lia|exact H].
  - assert (Hgo : exec a l s (clear_caps (groups a) c)
               (fun l' s' c' =>
                  if (lo =? 0) && (length s' =? length s) then None
                  else rep_loop (exec a) (groups a) greedy k n (pred lo) l' s' c')
             = Some res ->
             exists j w s' c',
               s = w ++ s' /\ lo <= j /\ j <= S n /\ iter (mt a) j l w s' /\
               k (rev w ++ l) s' c' = Some res /\
               (forall i x, c' i = Some x -> c i = Some x \/ cap_ok a i x) /\
               (forall i, ~ In i (groups a) -> c' i = c i) /\
               (forall i, defines i a = true -> 1 <= j -> c' i <> None) /\
               (j = 0 -> forall i, c' i = c i)).
    { intros Ha. apply IHa in Ha.
      destruct Ha as (w1 & s1 & c1 & Hs & Hm & Hd & Hc1 & Hf1 & Hdef1).
      destruct ((lo =? 0) && (length s1 =? length s)); [discriminate|].
      apply IHn in Hd; [|lia].
      destruct Hd as (j & w2 & s2 & c2 & Hs2 & Hj1 & Hj2 & Hit & Hk & Hc2 & Hf2 & Hdef2 & Hz).
      exists (S j), (w1 ++ w2), s2, c2.
      split; [subst; now rewrite app_assoc|].
      split; [lia|]. split; [lia|].
      split.
      { simpl. exists w1, w2. subst s1. auto. }
      split; [now rewrite rev_app_distr, <- app_assoc|].
      split.
      { intros i x Hx. apply Hc2 in Hx as [Hx|Hx]; [|auto].
        apply Hc1 in Hx as [Hx|Hx]; [|auto].
        left. eapply clear_caps_some; eauto. }
      split.
      { intros i Hi. rewrite Hf2, Hf1 by assumption. now apply clear_caps_out. }
      split; [|discriminate].
      intros i Hi _. destruct j as [|j].
      - rewrite Hz by reflexivity. now apply Hdef1.
      - apply Hdef2; [assumption|lia]. }
    simpl in H. destruct (lo =? 0) eqn:E.
    + apply Nat.eqb_eq in E.
      destruct greedy.
      * destruct (exec a l s _ _) eqn:Ea.
        -- injection H as ->. apply Hgo. reflexivity.
        -- apply Hstop; assumption.
      * destruct (k l s c) eqn:Ek.
        -- injection H as ->. apply Hstop; assumption.
        -- apply Hgo. exact H.
    + apply Hgo. exact H.
Qed.

Theorem exec_sound (r : regex) :
  wf r = true ->
  forall l s c (k : cont R) res, exec r l s c k = Some res -> post r l s c k res.
Proof.
  induction r as [|p|a IHa b IHb|a IHa b IHb|lo hi g a IHa|j a IHa| | |];
    intros Hwf l s c k res H; simpl in H, Hwf.
  - exists [], s, c. simpl. repeat split; auto; discriminate.
  - destruct s as [|x s]; [discriminate|].
    destruct (p x) eqn:E; [|discriminate].
    exists [x], s, c. simpl. repeat split; eauto; discriminate.
  - apply andb_prop in Hwf as [Ha Hb].
    apply (IHa Ha) in H as (w1 & s1 & c1 & Hs & Hm & Hd & Hc1 & Hf1 & Hdef1).
    apply (IHb Hb) in Hd as (w2 & s2 & c2 & Hs2 & Hm2 & Hk & Hc2 & Hf2 & Hdef2).
    exists (w1 ++ w2), s2, c2.
    split; [subst; now rewrite app_assoc|].
    split; [simpl; exists w1, w2; subst s1; auto|].
    split; [now rewrite rev_app_distr, <- app_assoc|].
    split.
    { intros i x Hx. simpl. apply Hc2 in Hx as [Hx|Hx]; [|auto].
      apply Hc1 in Hx as [Hx|Hx]; auto. }
    split.
    { intros i Hi. simpl in Hi. rewrite in_app_iff in Hi.
      rewrite Hf2, Hf1; auto. }
    intros i Hi. simpl in Hi.
    apply orb_prop in Hi as [Hi|Hi]; [now apply Hdef2|].
    apply andb_prop in Hi as [Hi1 Hi2].
    rewrite Hf2; [now apply Hdef1|].
    intros Hin. apply negb_true_iff in Hi2.
    assert (existsb (Nat.eqb i) (groups b) = true); [|congruence].
    apply existsb_exists. exists i. split; [assumption|apply Nat.eqb_refl].
  - apply andb_prop in Hwf as [Ha Hb].
    destruct (exec a l s c k) eqn:Ea.
    + injection H as ->. apply (IHa Ha) in Ea as (w & s' & c' & Hs & Hm & Hk & Hc & Hf & Hdef).
      exists w, s', c'. simpl.
      repeat split; auto.
      * intros i x Hx. apply Hc in Hx as [Hx|Hx]; auto.
      * intros i Hi. apply Hf. rewrite in_app_iff in Hi. tauto.
      * intros i Hi. apply andb_prop in Hi as [Hi _]. now apply Hdef.
    + apply (IHb Hb) in H as (w & s' & c' & Hs & Hm & Hk & Hc & Hf & Hdef).
      exists w, s', c'. simpl.
      repeat split; auto.
      * intros i x Hx. apply Hc in Hx as [Hx|Hx]; auto.
      * intros i Hi. apply Hf. rewrite in_app_iff in Hi. tauto.
      * intros i Hi. apply andb_prop in Hi as [_ Hi]. now apply Hdef.
  - apply andb_prop in Hwf as [Hb Ha].
    apply (@rep_loop_sound a g k (IHa Ha)) in H.
    + destruct H as (n & w & s' & c' & Hs & Hn1 & Hn2 & Hit & Hk & Hc & Hf & Hdef & _).
      exists w, s', c'. simpl.
      repeat split; auto.
      * exists n. repeat split; auto. intros h ->. exact Hn2.
      * intros i Hi. apply andb_prop in Hi as [Hi1 Hi2].
        apply Hdef; [assumption|]. destruct lo; [discriminate|lia].
    + destruct hi as [h|]; [now apply Nat.leb_le|lia].
  - apply (IHa Hwf) in H as (w & s' & c' & Hs & Hm & Hk & Hc & Hf & Hdef).
    rewrite between_app in Hk.
    exists w, s', (set_cap j w c'). simpl.
    repeat split; auto.
    + intros i x Hx. unfold set_cap in Hx.
      destruct (i =? j) eqn:E.
      * apply Nat.eqb_eq in E; subst i. inversion Hx; subst x.
        right. left. split; [reflexivity|]. now exists l, s'.
      * apply Hc in Hx as [Hx|Hx]; auto.
    + intros i Hi. unfold set_cap.
      destruct (i =? j) eqn:E.
      * apply Nat.eqb_eq in E. subst. exfalso. apply Hi. now left.
      * apply Hf. intros Hin. apply Hi. now right.
    + intros i Hi. unfold set_cap.
      destruct (i =? j) eqn:E; [discriminate|].
      simpl in Hi. now apply Hdef.
  - destruct l; [|discriminate].
    exists [], s, c. simpl. repeat split; auto; discriminate.
  - destruct s; [|discriminate].
    exists [], [], c. simpl. repeat split; auto; discriminate.
  - destruct (xorb (word_at l) (word_at s)) eqn:E; [|discriminate].
    exists [], s, c. simpl. repeat split; auto; try discriminate.
    intros Heq. rewrite Heq, xorb_nilpotent in E. discriminate.
Qed.

End Sound.

End ReFacts.

Module ReAnalysis.
Import ReFacts.

Lemma all_ascii_complete (a : ascii) : In a all_ascii.
Proof.
  unfold all_ascii. rewrite <- (ascii_nat_embedding a).
  apply in_map, in_seq. pose proof (nat_ascii_bounded a). lia.
Qed.

Lemma within_spec p q : within p q = true -> forall a, q a = true -> p a = true.
Proof.
  unfold within. intros H a Hq.
  rewrite forallb_forall in H. specialize (H a (all_ascii_complete a)).
  rewrite Hq in H. exact H.
Qed.

Lemma iter_len_min (A : str -> str -> str -> Prop) m :
  (forall l w s, A l w s -> m <= length w) ->
  forall j l w s, iter A j l w s -> j * m <= length w.
Proof.
  intros HA. induction j as [|j IH]; intros l w s H; simpl in *; [lia|].
  destruct H as (w1 & w2 & -> & H1 & H2).
  rewrite length_app. apply HA in H1. apply IH in H2. lia.
Qed.

Lemma iter_len_max (A : str -> str -> str -> Prop) m :
  (forall l w s, A l w s -> length w <= m) ->
  forall j l w s, iter A j l w s -> length w <= j * m.
Proof.
  intros HA. induction j as [|j IH]; intros l w s H; simpl in *.
  - subst. simpl. lia.
  - destruct H as (w1 & w2 & -> & H1 & H2).
    rewrite length_app. apply HA in H1. apply IH in H2. lia.
Qed.

Lemma iter_forall (A : str -> str -> str -> Prop) (P : ascii -> Prop) :
  (forall l w s, A l w s -> Forall P w) ->
  forall j l w s, iter A j l w s -> Forall P w.
Proof.
  intros HA. induction j as [|j IH]; intros l w s H; simpl in *.
  - subst. constructor.
  - destruct H as (w1 & w2 & -> & H1 & H2).
    apply Forall_app. split; [eapply HA|eapply IH]; eauto.
Qed.

Lemma mt_len (r : regex) :
  forall l w s, mt r l w s ->
    min_len r <= length w /\ (forall m, max_len r = Some m -> length w <= m).
Proof.
  induction r as [|p|a IHa b IHb|a IHa b IHb|lo hi g a IHa|j a IHa| | |];
    intros l w s H; simpl in *.
  - subst. split; [simpl; lia|]. intros m [= <-]. simpl. lia.
  - destruct H as (x & -> & _). split; [simpl; lia|]. intros m [= <-]. simpl. lia.
  - destruct H as (w1 & w2 & -> & H1 & H2).
    apply IHa in H1 as [H1 H1']. apply IHb in H2 as [H2 H2'].
    rewrite length_app. split; [lia|].
    intros m Hm. destruct (max_len a) as [x|]; [|discriminate].
    destruct (max_len b) as [y|]; [|discriminate].
    injection Hm as <-. specialize (H1' _ eq_refl). specialize (H2' _ eq_refl). lia.
  - destruct H as [H|H]; [apply IHa in H|apply IHb in H]; destruct H as [H H'];
      (split; [lia|]); intros m Hm;
      destruct (max_len a) as [x|] eqn:Ex; try discriminate;
      destruct (max_len b) as [y|] eqn:Ey; try discriminate;
      injection Hm as <-; specialize (H' _ eq_refl); lia.
  - destruct H as (n & Hn & Hh & Hit). split.
    + apply (iter_len_min (mt a) (min_len a)) in Hit; [nia|].
      intros l0 w0 s0 H0. now apply IHa in H0.
    + intros m Hm. destruct hi as [h|]; [|discriminate].
      destruct (max_len a) as [x|] eqn:Ex; [|discriminate].
      injection Hm as <-. specialize (Hh _ eq_refl).
      apply (iter_len_max (mt a) x) in Hit; [nia|].
      intros l0 w0 s0 H0. apply IHa in H0 as [_ H0]. now apply H0.
  - now apply IHa in H.
  - destruct H as [-> _]. split; [simpl; lia|]. intros m [= <-]. simpl. lia.
  - destruct H as [-> _]. split; [simpl; lia|]. intros m [= <-]. simpl. lia.
  - destruct H as [-> _]. split; [simpl; lia|]. intros m [= <-]. simpl. lia.
Qed.

Lemma mt_chars (p : ascii -> bool) (r : regex) :
  all_chars p r = true ->
  forall l w s, mt r l w s -> Forall (fun c => p c = true) w.
Proof.
  induction r as [|q|a IHa b IHb|a IHa b IHb|lo hi g a IHa|j a IHa| | |];
    intros Hc l w s H; simpl in *.
  - subst. constructor.
  - destruct H as (x & -> & Hq). constructor; [|constructor].
    eapply within_spec; eauto.
  - apply andb_prop in Hc as [Ha Hb].
    destruct H as (w1 & w2 & -> & H1 & H2).
    apply Forall_app. split; [eapply IHa|eapply IHb]; eauto.
  - apply andb_prop in Hc as [Ha Hb].
    destruct H as [H|H]; [eapply IHa|eapply IHb]; eauto.
  - destruct H as (n & _ & _ & Hit).
    eapply iter_forall; [|exact Hit]. intros; eapply IHa; eauto.
  - eapply IHa; eauto.
  - destruct H as [-> _]. constructor.
  - destruct H as [-> _]. constructor.
  - destruct H as [-> _]. constructor.
Qed.

Lemma mt_needs (p : ascii -> bool) (r : regex) :
  needs p r = true ->
  forall l w s, mt r l w s -> Exists (fun c => p c = true) w.
Proof.
  induction r as [|q|a IHa b IHb|a IHa b IHb|lo hi g a IHa|j a IHa| | |];
    intros Hc l w s H; simpl in *; try discriminate.
  - destruct H as (x & -> & Hq). constructor. eapply within_spec; eauto.
  - destruct H as (w1 & w2 & -> & H1 & H2). apply Exists_app.
    apply orb_prop in Hc as [Hc|Hc]; [left; eapply IHa|right; eapply IHb]; eauto.
  - apply andb_prop in Hc as [Ha Hb].
    destruct H as [H|H]; [eapply IHa|eapply IHb]; eauto.
  - apply andb_prop in Hc as [Hlo Ha].
    destruct H as (n & Hn & _ & Hit).
    destruct lo as [|lo]; [discriminate|].
    destruct n as [|n]; [lia|]. simpl in Hit.
    destruct Hit as (w1 & w2 & -> & H1 & _).
    apply Exists_app. left. eapply IHa; eauto.
  - eapply IHa; eauto.
Qed.

Lemma group_shape (i : nat) (p : ascii -> bool) (lo hi : nat) (r : regex) :
  group_chk i p lo hi r = true ->
  forall x, cap_ok r i x -> shaped p lo hi x.
Proof.
  induction r as [|q|a IHa b IHb|a IHa b IHb|lo' hi' g a IHa|j a IHa| | |];
    intros Hc x H; simpl in *; try contradiction.
  - apply andb_prop in Hc as [Ha Hb]. destruct H; auto.
  - apply andb_prop in Hc as [Ha Hb]. destruct H; auto.
  - auto.
  - apply andb_prop in Hc as [Hj Ha].
    destruct H as [[-> (l & s & Hm)]|H]; [|auto].
    rewrite Nat.eqb_refl in Hj. simpl in Hj.
    apply andb_prop in Hj as [Hj Hmax]. apply andb_prop in Hj as [Hch Hmin].
    split; [eapply mt_chars; eauto|].
    apply mt_len in Hm as [H1 H2]. apply Nat.leb_le in Hmin.
    destruct (max_len a) as [m|]; [|discriminate].
    apply Nat.leb_le in Hmax. specialize (H2 _ eq_refl). lia.
Qed.

Lemma group_min_spec (i lo : nat) (r : regex) :
  group_min i lo r = true -> forall x, cap_ok r i x -> lo <= length x.
Proof.
  induction r as [|q|a IHa b IHb|a IHa b IHb|lo' hi' g a IHa|j a IHa| | |];
    intros Hc x H; simpl in *; try contradiction.
  - apply andb_prop in Hc as [Ha Hb]. destruct H; auto.
  - apply andb_prop in Hc as [Ha Hb]. destruct H; auto.
  - auto.
  - apply andb_prop in Hc as [Hj Ha].
    destruct H as [[-> (l & s & Hm)]|H]; [|auto].
    rewrite Nat.eqb_refl in Hj. simpl in Hj.
    apply Nat.leb_le in Hj. apply mt_len in Hm as [Hm _]. lia.
Qed.

(** *** What a successful search tells *)

Lemma search_sound (r : regex) :
  wf r = true ->
  forall s l l' s' c, search_from r l s = Some (l', s', c) ->
    exists p w,
      s = p ++ w ++ s' /\ l' = rev w ++ rev p ++ l /\ mt r (rev p ++ l) w s' /\
      c 0 = Some w /\
      (forall i x, i <> 0 -> c i = Some x -> cap_ok r i x) /\
      (forall i, defines i r = true -> c i <> None).
Proof.
  intros Hwf. induction s as [|a s IH]; intros l l' s' c H; simpl in H.
  - destruct (match_at r l []) eqn:E; [|discriminate].
    injection H as ->. unfold match_at in E. simpl in E.
    apply (exec_sound _ r Hwf) in E as (w & s1 & c1 & Hs & Hm & Hk & Hc & Hf & Hdef).
    rewrite between_app in Hk. injection Hk as <- <- <-.
    exists [], w. simpl. repeat split; auto.
    + intros i x Hi Hx. unfold set_cap in Hx.
      destruct (i =? 0) eqn:E0; [apply Nat.eqb_eq in E0; contradiction|].
      apply Hc in Hx as [Hx|Hx]; [discriminate|exact Hx].
    + intros i Hi. unfold set_cap. destruct (i =? 0); [discriminate|auto].
  - destruct (match_at r l (a :: s)) eqn:E.
    + injection H as ->. unfold match_at in E. simpl in E.
      apply (exec_sound _ r Hwf) in E as (w & s1 & c1 & Hs & Hm & Hk & Hc & Hf & Hdef).
      rewrite between_app in Hk. injection Hk as <- <- <-.
      exists [], w. simpl. repeat split; auto.
      * intros i x Hi Hx. unfold set_cap in Hx.
        destruct (i =? 0) eqn:E0; [apply Nat.eqb_eq in E0; contradiction|].
        apply Hc in Hx as [Hx|Hx]; [discriminate|exact Hx].
      * intros i Hi. unfold set_cap. destruct (i =? 0); [discriminate|auto].
    + apply IH in H as (p & w & Hs & Hl & Hm & H0 & Hc & Hdef).
      exists (a :: p), w. simpl. rewrite <- app_assoc. simpl.
      repeat split; auto. now rewrite Hs.
Qed.

Theorem exec_re_sound (r : regex) (s : str) (c : caps) :
  wf r = true -> exec_re r s = Some c ->
  exists p w q,
    s = p ++ w ++ q /\ mt r (rev p) w q /\ c 0 = Some w /\
    (forall i x, i <> 0 -> c i = Some x -> cap_ok r i x) /\
    (forall i, defines i r = true -> c i <> None).
Proof.
  intros Hwf H. unfold exec_re in H.
  destruct (search_from r [] s) as [[[l' s'] c']|] eqn:E; [|discriminate].
  injection H as ->.
  apply (search_sound r Hwf) in E as (p & w & Hs & Hl & Hm & H0 & Hc & Hdef).
  rewrite app_nil_r in Hm. exists p, w, s'. auto.
Qed.

(** A group that every match defines holds a text of the shape its body
    allows. *)
Theorem exec_re_grp (r : regex) (s : str) (c : caps) (i : nat) p lo hi :
  exec_re r s = Some c ->
  (wf r && negb (i =? 0) && defines i r && group_chk i p lo hi r) = true ->
  shaped p lo hi (grp c i).
Proof.
  intros H Hchk.
  apply andb_prop in Hchk as [Hchk Hg]. apply andb_prop in Hchk as [Hchk Hd].
  apply andb_prop in Hchk as [Hwf Hi].
  apply negb_true_iff, Nat.eqb_neq in Hi.
  apply (exec_re_sound r s _ Hwf) in H as (p0 & w & q & _ & _ & _ & Hc & Hdef).
  specialize (Hdef i Hd). unfold grp.
  destruct (c i) as [x|] eqn:E; [|contradiction].
  eapply group_shape; eauto.
Qed.

(** A group that every match defines holds at least [lo] units. *)
Theorem exec_re_grp_min (r : regex) (s : str) (c : caps) (i lo : nat) :
  exec_re r s = Some c ->
  (wf r && negb (i =? 0) && defines i r && group_min i lo r) = true ->
  lo <= length (grp c i).
Proof.
  intros H Hchk.
  apply andb_prop in Hchk as [Hchk Hg]. apply andb_prop in Hchk as [Hchk Hd].
  apply andb_prop in Hchk as [Hwf Hi].
  apply negb_true_iff, Nat.eqb_neq in Hi.
  apply (exec_re_sound r s _ Hwf) in H as (p0 & w & q & _ & _ & _ & Hc & Hdef).
  specialize (Hdef i Hd). unfold grp.
  destruct (c i) as [x|] eqn:E; [|contradiction].
  eapply group_min_spec; eauto.
Qed.

(** The whole match is a text that the pattern matches and a piece of the
    subject. *)
Theorem exec_re_whole (r : regex) (s : str) (c : caps) :
  wf r = true -> exec_re r s = Some c ->
  exists p q, s = p ++ grp c 0 ++ q /\ mt r (rev p) (grp c 0) q.
Proof.
  intros Hwf H.
  apply (exec_re_sound r s _ Hwf) in H as (p & w & q & Hs & Hm & H0 & _).
  exists p, q. unfold grp. rewrite H0. auto.
Qed.

(** A subject without a unit that the pattern needs is not matched. *)
Theorem exec_re_needs (r : regex) (p : ascii -> bool) (s : str) :
  (wf r && needs p r) = true ->
  Forall (fun c => p c = false) s -> exec_re r s = None.
Proof.
  intros Hchk Hs. apply andb_prop in Hchk as [Hwf Hn].
  destruct (exec_re r s) as [c|] eqn:E; [|reflexivity].
  apply (exec_re_sound r s _ Hwf) in E as (p0 & w & q & -> & Hm & _).
  apply (mt_needs p r Hn) in Hm.
  apply Exists_exists in Hm as (x & Hx & Hpx).
  rewrite Forall_forall in Hs.
  rewrite (Hs x) in Hpx; [discriminate|].
  apply in_app_iff. right. apply in_app_iff. now left.
Qed.

End ReAnalysis.

(** ** Shapes of dates *)

Module ShapeFacts.
Import ReAnalysis.

Ltac chk := vm_compute; reflexivity.

Lemma shaped_cons p lo hi a (x : str) :
  shaped p (S lo) (S hi) (a :: x) -> p a = true /\ shaped p lo hi x.
Proof.
  intros [H1 H2]. inversion H1; subst. simpl in H2.
  split; [assumption|]. split; [assumption|lia].
Qed.

(** A text of exactly [n] units of [p], taken apart. *)
Lemma shaped2 p (x : str) :
  shaped p 2 2 x -> exists a b, x = [a; b] /\ p a = true /\ p b = true.
Proof.
  intros [H1 H2]. destruct x as [|a [|b [|c x]]]; simpl in H2; try lia.
  inversion H1 as [|? ? Ha H1']; subst. inversion H1' as [|? ? Hb _]; subst.
  now exists a, b.
Qed.

Lemma shaped4 p (x : str) :
  shaped p 4 4 x ->
  exists a b c d, x = [a; b; c; d] /\ p a = true /\ p b = true /\ p c = true /\ p d = true.
Proof.
  intros [H1 H2]. destruct x as [|a [|b [|c [|d [|e x]]]]]; simpl in H2; try lia.
  inversion H1 as [|? ? Ha H1']; subst. inversion H1' as [|? ? Hb H1'']; subst.
  inversion H1'' as [|? ? Hc H1''']; subst. inversion H1''' as [|? ? Hd _]; subst.
  now exists a, b, c, d.
Qed.

Lemma shaped12 p (x : str) :
  shaped p 1 2 x ->
  (exists a, x = [a] /\ p a = true) \/ (exists a b, x = [a; b] /\ p a = true /\ p b = true).
Proof.
  intros [H1 H2]. destruct x as [|a [|b [|c x]]]; simpl in H2; try lia.
  - left. inversion H1; subst. now exists a.
  - right. inversion H1 as [|? ? Ha H1']; subst. inversion H1' as [|? ? Hb _]; subst.
    now exists a, b.
Qed.

Lemma pad2_shaped (x : str) :
  shaped is_digit 1 2 x -> shaped is_digit 2 2 (Str.padStart0 2 x).
Proof.
  intros H. apply shaped12 in H as [(a & -> & Ha)|(a & b & -> & Ha & Hb)];
    unfold Str.padStart0; simpl; (split; [|simpl; lia]); repeat constructor; assumption.
Qed.

Lemma is_ym_build (y m : str) :
  shaped is_digit 4 4 y -> shaped is_digit 2 2 m -> is_ym (y ++ $"-" ++ m) = true.
Proof.
  intros Hy Hm.
  apply shaped4 in Hy as (a & b & c & d & -> & Ha & Hb & Hc & Hd).
  apply shaped2 in Hm as (e & f & -> & He & Hf).
  simpl. now rewrite Ha, Hb, Hc, Hd, He, Hf.
Qed.

Lemma slice7_build (y m d : str) :
  shaped is_digit 4 4 y -> shaped is_digit 2 2 m ->
  Str.slice 0 7 (y ++ $"-" ++ m ++ $"-" ++ d) = y ++ $"-" ++ m.
Proof.
  intros Hy Hm.
  apply shaped4 in Hy as (a & b & c & e & -> & _).
  apply shaped2 in Hm as (f & g & -> & _).
  reflexivity.
Qed.

Lemma date_unit_digit c : is_digit c = true -> not_date_unit c = false.
Proof. unfold not_date_unit. now intros ->. Qed.

Lemma date_unit_dash c : ch "-" c = true -> not_date_unit c = false.
Proof. unfold not_date_unit. intros ->. now rewrite orb_true_r. Qed.

Lemma is_ym_inv (a b c d e f g : ascii) :
  is_ym [a; b; c; d; e; f; g] = true ->
  is_digit a = true /\ is_digit b = true /\ is_digit c = true /\ is_digit d = true /\
  ch "-" e = true /\ is_digit f = true /\ is_digit g = true.
Proof.
  unfold is_ym. intros H.
  apply andb_prop in H as [H H7]. apply andb_prop in H as [H H6].
  apply andb_prop in H as [H H5]. apply andb_prop in H as [H H4].
  apply andb_prop in H as [H H3]. apply andb_prop in H as [H1 H2].
  tauto.
Qed.

Lemma is_ym_units (s : str) :
  is_ym s = true -> Forall (fun c => not_date_unit c = false) s.
Proof.
  destruct s as [|a [|b [|c [|d [|e [|f [|g [|h s]]]]]]]]; try discriminate.
  intros H. apply is_ym_inv in H as (Ha & Hb & Hc & Hd & He & Hf & Hg).
  repeat (apply Forall_cons || apply Forall_nil);
    (now apply date_unit_digit) || (now apply date_unit_dash).
Qed.

Lemma is_ymd_units (s : str) :
  is_ymd s = true -> Forall (fun c => not_date_unit c = false) s.
Proof.
  destruct s as [|a [|b [|c [|d [|e [|f [|g [|h [|i [|j [|k s]]]]]]]]]]];
    try discriminate.
  unfold is_ymd. intros H.
  apply andb_prop in H as [H Hj]. apply andb_prop in H as [H Hi].
  apply andb_prop in H as [H Hh].
  apply is_ym_inv in H as (Ha & Hb & Hc & Hd & He & Hf & Hg).
  repeat (apply Forall_cons || apply Forall_nil);
    (now apply date_unit_digit) || (now apply date_unit_dash).
Qed.

Lemma canonical_units (s : str) :
  canonical s = true -> Forall (fun c => not_date_unit c = false) s.
Proof.
  unfold canonical. intros H. apply orb_prop in H as [H|H];
    [now apply is_ym_units|now apply is_ymd_units].
Qed.

Lemma month_table_digits (k m : str) :
  lookup k month_table = Some m -> shaped is_digit 2 2 m.
Proof.
  unfold month_table. simpl.
  repeat match goal with
         | |- (if ?b then _ else _) = _ -> _ =>
             destruct b; [intros [= <-]; split; [repeat constructor|simpl; lia]|]
         end.
  discriminate.
Qed.

End ShapeFacts.

(** ** The normalizer of the OCR format registry *)

Module LabelFormatsFacts.
Import ReAnalysis ShapeFacts LabelFormats.

Lemma month_branch_ym re gy gm raw r :
  (wf re && negb (gy =? 0) && defines gy re && group_chk gy is_digit 4 4 re) = true ->
  month_branch re gy gm raw = Some r -> is_ym r = true.
Proof.
  intros Hchk. unfold month_branch.
  destruct (exec_re re raw) as [c|] eqn:E; [|discriminate].
  destruct (lookup _ month_table) as [m|] eqn:L; [|discriminate].
  destruct (Str.eqb m []); [discriminate|]. intros [= <-].
  apply is_ym_build.
  - eapply exec_re_grp; eauto.
  - eapply month_table_digits; eauto.
Qed.

Lemma month_branch_needs re gy gm raw :
  (wf re && needs not_date_unit re) = true ->
  Forall (fun c => not_date_unit c = false) raw ->
  month_branch re gy gm raw = None.
Proof.
  intros Hchk H. unfold month_branch. now rewrite (exec_re_needs re not_date_unit raw Hchk H).
Qed.

(** The normalizer returns a text of the form YYYY-MM, or none of its
    branches applies and it returns its input. *)
Lemma normalizeExpiry_chain (raw : str) :
  is_ym (normalizeExpiry raw) = true \/
  (normalizeExpiry raw = raw /\
   month_branch re_yyyyMmm 1 2 raw = None /\ month_branch re_mmmYyyy 2 1 raw = None /\
   month_branch re_mmmYyyyNoSpace 2 1 raw = None /\ exec_re re_slash raw = None /\
   exec_re re_mmYyyy raw = None /\ exec_re re_yyyyMmSlash raw = None).
Proof.
  unfold normalizeExpiry.
  destruct (month_branch re_yyyyMmm 1 2 raw) eqn:E1.
  { left. eapply month_branch_ym; [|exact E1]. chk. }
  destruct (month_branch re_mmmYyyy 2 1 raw) eqn:E2.
  { left. eapply month_branch_ym; [|exact E2]. chk. }
  destruct (month_branch re_mmmYyyyNoSpace 2 1 raw) eqn:E3.
  { left. eapply month_branch_ym; [|exact E3]. chk. }
  destruct (exec_re re_slash raw) as [c|] eqn:E4.
  { left.
    assert (H3 : shaped is_digit 4 4 (grp c 3)) by (eapply exec_re_grp; [exact E4|chk]).
    assert (H1 : shaped is_digit 1 2 (grp c 1)) by (eapply exec_re_grp; [exact E4|chk]).
    apply pad2_shaped in H1.
    rewrite slice7_build by assumption. now apply is_ym_build. }
  destruct (exec_re re_mmYyyy raw) as [c|] eqn:E5.
  { left. apply is_ym_build.
    - eapply exec_re_grp; [exact E5|chk].
    - apply pad2_shaped. eapply exec_re_grp; [exact E5|chk]. }
  destruct (exec_re re_yyyyMmSlash raw) as [c|] eqn:E6.
  { left. apply is_ym_build.
    - eapply exec_re_grp; [exact E6|chk].
    - apply pad2_shaped. eapply exec_re_grp; [exact E6|chk]. }
  right. tauto.
Qed.

(** The normalizer returns its input or a text of the form YYYY-MM. *)
Lemma normalizeExpiry_cases (raw : str) :
  normalizeExpiry raw = raw \/ is_ym (normalizeExpiry raw) = true.
Proof. destruct (normalizeExpiry_chain raw) as [H|[H _]]; auto. Qed.

(** A text of digits and hyphens is returned as it is. *)
Lemma normalizeExpiry_fix (x : str) :
  Forall (fun c => not_date_unit c = false) x -> normalizeExpiry x = x.
Proof.
  intros H. unfold normalizeExpiry.
  rewrite !month_branch_needs by (assumption || chk).
  rewrite (exec_re_needs re_slash not_date_unit x) by (assumption || chk).
  rewrite (exec_re_needs re_mmYyyy not_date_unit x) by (assumption || chk).
  rewrite (exec_re_needs re_yyyyMmSlash not_date_unit x) by (assumption || chk).
  reflexivity.
Qed.

(** C9. [normalizeExpiry] of the format registry is idempotent: for every
    input [x], normalizing the result again gives the same result, and a
    value already in the canonical form YYYY-MM or YYYY-MM-DD is returned
    unchanged. *)
Theorem normalizeExpiry_idempotent (x : str) :
  normalizeExpiry (normalizeExpiry x) = normalizeExpiry x /\
  (canonical x = true -> normalizeExpiry x = x).
Proof.
  split.
  - destruct (normalizeExpiry_cases x) as [H|H].
    + now rewrite !H.
    + apply normalizeExpiry_fix, is_ym_units, H.
  - intros H. apply normalizeExpiry_fix, canonical_units, H.
Qed.

Lemma normalizeExpiry_idempotent_witness :
  canonical $"2027-03-15" = true /\ normalizeExpiry $"2027-03-15" = $"2027-03-15".
Proof.
  split; [reflexivity|].
  apply (proj2 (normalizeExpiry_idempotent $"2027-03-15")). reflexivity.
Defined.

End LabelFormatsFacts.

(** ** The GS1 decoder *)

Module Gs1Facts.
Import ReAnalysis ShapeFacts Gs1.

Lemma nonempty_false (x : str) : nonempty x = false -> x = [].
Proof. destruct x; [reflexivity|discriminate]. Qed.

Lemma shaped_nonempty p hi (x : str) : shaped p 1 hi x -> nonempty x = true.
Proof. intros [_ H]. destruct x; [simpl in H; lia|reflexivity]. Qed.

Lemma test_true r s : test r s = true -> exists c, exec_re r s = Some c.
Proof. unfold test. destruct (exec_re r s) as [c|]; [eauto|discriminate]. Qed.

Lemma test_false r s : test r s = false -> exec_re r s = None.
Proof. unfold test. destruct (exec_re r s); [discriminate|reflexivity]. Qed.

Lemma primary_batch_lot decode normalized r :
  primary decode normalized = Some r -> batch_no r = lot_no r.
Proof.
  unfold primary.
  destruct (decode normalized) as [|[d|]]; try discriminate.
  destruct (0 <? length d); [|discriminate].
  destruct (elToStr (lookup $"batch" d)); [|discriminate].
  destruct (elToStr (lookup $"expDate" d)); [|discriminate].
  destruct (elToStr (lookup $"gtin" d)); [|discriminate].
  destruct (elToStr (lookup $"serial" d)); [|discriminate].
  match goal with |- (if ?b then _ else _) = _ -> _ => destruct b end;
    [|discriminate].
  now intros [= <-].
Qed.

Lemma concatenated_batch_lot s r :
  parseConcatenatedGs1 s = Some r -> batch_no r = lot_no r.
Proof.
  unfold parseConcatenatedGs1.
  destruct (length (Str.strip_ws s) <? 20); [discriminate|].
  match goal with |- (if ?b then _ else _) = _ -> _ => destruct b end;
    [discriminate|].
  now intros [= <-].
Qed.

(** C10. Whenever [parseGs1ToLabelJson] returns a result, whatever the
    library decodes, its [batch_no] and [lot_no] are the same string: both
    the primary path and the positional fallback copy the one AI-10 value
    into both. *)
Theorem parseGs1_batch_equals_lot (decode : str -> decoded) (raw : str) (r : Gs1LabelResult) :
  parseGs1ToLabelJson decode raw = Some r -> batch_no r = lot_no r.
Proof.
  unfold parseGs1ToLabelJson.
  destruct (nonempty (preprocess raw)); [|discriminate].
  destruct (primary decode (preprocess raw)) as [r'|] eqn:E.
  - intros [= <-]. eapply primary_batch_lot; eauto.
  - apply concatenated_batch_lot.
Qed.

Lemma parseGs1_batch_equals_lot_witness :
  exists r,
    parseGs1ToLabelJson rejecting_decoder
      $"01003501115610141727022810MK870121943321361918" = Some r /\
    batch_no r = $"MK8701" /\ batch_no r = lot_no r.
Proof.
  eexists. split; [vm_compute; reflexivity|].
  split; [reflexivity|].
  apply (parseGs1_batch_equals_lot rejecting_decoder
           $"01003501115610141727022810MK870121943321361918").
  vm_compute. reflexivity.
Defined.

(** The expiry of the positional fallback is empty or YYYY-MM-DD. *)
Lemma concat_expiry_shape (t : str) :
  concat_expiry t = [] \/ is_ymd (concat_expiry t) = true.
Proof.
  unfold concat_expiry.
  destruct (exec_re re_exp t) as [c|] eqn:E; [right|now left].
  assert (H : shaped is_digit 6 6 (grp c 1)) by (eapply exec_re_grp; [exact E|chk]).
  destruct H as [H1 H2].
  destruct (grp c 1) as [|a [|b [|m1 [|m2 [|d1 [|d2 [|x g]]]]]]]; simpl in H2; try lia.
  inversion H1 as [|? ? Ha H1a]; subst. inversion H1a as [|? ? Hb H1b]; subst.
  inversion H1b as [|? ? Hm1 H1c]; subst. inversion H1c as [|? ? Hm2 H1d]; subst.
  inversion H1d as [|? ? Hd1 H1e]; subst. inversion H1e as [|? ? Hd2 _]; subst.
  unfold Str.slice. cbn [skipn firstn Nat.sub app].
  destruct (Str.parseInt [a; b]) as [n|]; [destruct (50 <=? n)%Z|];
    cbn [list_ascii_of_string app]; unfold is_ymd, is_ym;
    rewrite Ha, Hb, Hm1, Hm2, Hd1, Hd2; reflexivity.
Qed.

Lemma concat_expiry_found (t : str) :
  nonempty (concat_expiry t) = test re_exp t.
Proof.
  unfold concat_expiry, test.
  destruct (exec_re re_exp t) as [c|]; [|reflexivity].
  destruct (Str.parseInt _) as [n|]; [destruct (50 <=? n)%Z|]; reflexivity.
Qed.

Lemma grp1_found re t :
  (wf re && negb (1 =? 0) && defines 1 re && group_min 1 1 re) = true ->
  nonempty (match exec_re re t with Some c => grp c 1 | None => [] end) = test re t.
Proof.
  intros H. unfold test. destruct (exec_re re t) as [c|] eqn:E; [|reflexivity].
  pose proof (exec_re_grp_min re t c 1 1 E H) as Hl.
  destruct (grp c 1); [simpl in Hl; lia|reflexivity].
Qed.

Lemma concat_batch_found (t : str) :
  nonempty (concat_batch t) = test re_batchBeforeSerial t || test re_batchToEnd t.
Proof.
  unfold concat_batch.
  rewrite <- (grp1_found re_batchToEnd t) by chk.
  pose proof (grp1_found re_batchBeforeSerial t eq_refl) as H. unfold test in *.
  destruct (exec_re re_batchBeforeSerial t) as [c|]; [now rewrite H|reflexivity].
Qed.

(** The fallback returns null exactly when the stripped text is shorter
    than 20 units or none of its patterns occurs. *)
Lemma concatenated_none_iff (s : str) :
  parseConcatenatedGs1 s = None <->
  length (Str.strip_ws s) < 20 \/ found_by_fallback (Str.strip_ws s) = false.
Proof.
  unfold parseConcatenatedGs1, found_by_fallback.
  set (t := Str.strip_ws s).
  destruct (length t <? 20) eqn:L.
  { apply Nat.ltb_lt in L. tauto. }
  apply Nat.ltb_ge in L.
  rewrite (grp1_found re_gtin t) by chk.
  rewrite (grp1_found re_serial t) by chk.
  rewrite concat_expiry_found, concat_batch_found.
  destruct (test re_gtin t), (test re_serial t), (test re_exp t),
    (test re_batchBeforeSerial t), (test re_batchToEnd t); simpl;
    (split; [discriminate || (intros _; now right)
            |intros [H|H]; [lia|discriminate || reflexivity]]).
Qed.

Lemma truthy_present (x : str) : LabelFormats.truthy (present x) = nonempty x.
Proof. now destruct x. Qed.

(** A result of the primary path carries at least one of the four
    fields. *)
Lemma primary_found decode normalized r :
  primary decode normalized = Some r ->
  nonempty (batch_no r) || nonempty (expiry r)
  || LabelFormats.truthy (upc_gtin r) || LabelFormats.truthy (serial r) = true.
Proof.
  unfold primary.
  destruct (decode normalized) as [|[d|]]; try discriminate.
  destruct (0 <? length d); [|discriminate].
  destruct (elToStr (lookup $"batch" d)) as [b|]; [|discriminate].
  destruct (elToStr (lookup $"expDate" d)) as [e|]; [|discriminate].
  destruct (elToStr (lookup $"gtin" d)) as [g|]; [|discriminate].
  destruct (elToStr (lookup $"serial" d)) as [sn|]; [|discriminate].
  match goal with |- (if ?b then _ else _) = _ -> _ => destruct b eqn:E end;
    [|discriminate].
  intros [= <-]. cbn [batch_no expiry upc_gtin serial].
  rewrite !truthy_present. exact E.
Qed.

(** C7 as the specification states it fails on a short input: the GTIN
    pattern occurs in [ABC0112345678901234] (19 units), the library rejects
    the text, and the decoder returns null. *)
Lemma parseGs1_null_despite_gtin :
  found_by_fallback (Str.strip_ws (preprocess $"ABC0112345678901234")) = true /\
  parseGs1ToLabelJson rejecting_decoder $"ABC0112345678901234" = None.
Proof. split; vm_compute; reflexivity. Qed.

(** C7, amended. [parseGs1ToLabelJson] returns null exactly when the
    normalized input is empty, or the primary decode yields none of the
    four fields and the white-space-free input either is shorter than 20
    units or contains none of the positional patterns of GTIN, serial,
    expiry and batch; a result of the primary decode always carries one of
    the four fields. *)
Theorem parseGs1_null_iff (decode : str -> decoded) (raw : str) :
  (parseGs1ToLabelJson decode raw = None <->
   preprocess raw = [] \/
   (primary decode (preprocess raw) = None /\
    (length (Str.strip_ws (preprocess raw)) < 20 \/
     found_by_fallback (Str.strip_ws (preprocess raw)) = false))) /\
  (forall r, primary decode (preprocess raw) = Some r ->
     nonempty (batch_no r) || nonempty (expiry r)
     || LabelFormats.truthy (upc_gtin r) || LabelFormats.truthy (serial r) = true).
Proof.
  split; [|intros r; apply primary_found].
  unfold parseGs1ToLabelJson.
  destruct (preprocess raw) as [|a n] eqn:En; simpl nonempty; cbv iota.
  { split; [now left|reflexivity]. }
  destruct (primary decode (a :: n)) as [r|] eqn:Ep.
  { split; [discriminate|]. intros [H|[H _]]; discriminate. }
  rewrite concatenated_none_iff.
  split; [intros H; right; now split|].
  intros [H|[_ H]]; [discriminate|exact H].
Qed.

Lemma parseGs1_null_iff_witness :
  parseGs1ToLabelJson rejecting_decoder $"ABC0112345678901234" = None.
Proof.
  apply (proj1 (parseGs1_null_iff rejecting_decoder $"ABC0112345678901234")).
  right. split; [reflexivity|]. left. vm_compute. apply le_n.
Defined.

End Gs1Facts.

(** ** The structured-field mapper *)

Module MapperFacts.
Import StrFacts Mapper.

Lemma same_spec (a : str) (o : option str) : same a o = true <-> o = Some a.
Proof.
  destruct o as [b|]; simpl; [|split; discriminate].
  rewrite eqb_eq. split; [now intros ->|now intros [= ->]].
Qed.

Lemma clear_against_ids o j :
  upc_gtin (clear_against o j) = upc_gtin j /\ ref (clear_against o j) = ref j.
Proof.
  unfold clear_against. destruct (truthy o); [|tauto].
  destruct (same (batch_no j) o); simpl;
    match goal with |- context [if ?b then _ else _] => destruct b end; simpl; tauto.
Qed.

Lemma clear_against_kept o j :
  (batch_no (clear_against o j) = batch_no j \/ batch_no (clear_against o j) = []) /\
  (lot_no (clear_against o j) = lot_no j \/ lot_no (clear_against o j) = []).
Proof.
  unfold clear_against. destruct (truthy o); [|tauto].
  destruct (same (batch_no j) o); simpl;
    match goal with |- context [if ?b then _ else _] => destruct b end; simpl; tauto.
Qed.

Lemma clear_against_distinct o j :
  (batch_no (clear_against o j) <> [] -> Some (batch_no (clear_against o j)) <> o) /\
  (lot_no (clear_against o j) <> [] -> Some (lot_no (clear_against o j)) <> o).
Proof.
  unfold clear_against. destruct (truthy o) eqn:T.
  - destruct (same (batch_no j) o) eqn:B; cbn [lot_no with_batch_no];
      destruct (same (lot_no j) o) eqn:L; simpl; split; intros H E;
      try (now apply H);
      symmetry in E; apply same_spec in E; congruence.
  - split; intros H E; subst o; simpl in T;
      match type of T with
      | match ?x with _ => _ end = false => destruct x; [now apply H|discriminate]
      end.
Qed.

(** After the final clearing a non-empty batch or lot differs from the
    product identifier and from the reference. *)
Lemma reconcile_distinct (j : LabelJson) :
  let j' := reconcile j in
  (batch_no j' <> [] -> Some (batch_no j') <> upc_gtin j' /\ Some (batch_no j') <> ref j') /\
  (lot_no j' <> [] -> Some (lot_no j') <> upc_gtin j' /\ Some (lot_no j') <> ref j').
Proof.
  unfold reconcile. cbv zeta.
  set (j1 := clear_against (upc_gtin j) j).
  destruct (clear_against_ids (upc_gtin j) j) as [Hg1 Hr1]. fold j1 in Hg1, Hr1.
  destruct (clear_against_distinct (upc_gtin j) j) as [Hb1 Hl1]. fold j1 in Hb1, Hl1.
  destruct (clear_against_ids (ref j1) j1) as [Hg2 Hr2].
  destruct (clear_against_kept (ref j1) j1) as [Hbk Hlk].
  destruct (clear_against_distinct (ref j1) j1) as [Hb2 Hl2].
  rewrite Hg2, Hr2, Hg1. split; intros H; split; auto.
  - destruct Hbk as [Hk|Hk]; [|contradiction]. rewrite Hk in *. auto.
  - destruct Hlk as [Hk|Hk]; [|contradiction]. rewrite Hk in *. auto.
Qed.

(** A product code fills both batch and lot, which then hold the same
    non-empty value: batch and lot are not compared with each other. *)
Lemma mapper_batch_equals_lot :
  exists j raw,
    scanditFieldsToLabelJson rejecting_decoder [field "Product code" "B0Z7"] = Some (j, raw) /\
    batch_no j = $"B0Z7" /\ lot_no j = $"B0Z7".
Proof. eexists _, _. split; [vm_compute; reflexivity|]. split; reflexivity. Qed.

(** The reference is never compared with the product identifier: for the
    fields [Ref no: 12345678] and [Barcode: 12345678] the record holds
    12345678 both as [ref] and as [upc_gtin], whatever the library decodes
    (the barcode value is too short to be handed to it). *)
Lemma ref_equals_identifier_any_decoder (decode : str -> Gs1.decoded) :
  exists j raw,
    scanditFieldsToLabelJson decode
      [field "Ref no" "12345678"; field "Barcode" "12345678"] = Some (j, raw) /\
    upc_gtin j = Some $"12345678" /\ ref j = Some $"12345678".
Proof. eexists _, _. split; [vm_compute; reflexivity|]. split; reflexivity. Qed.

(** C1 as the specification states it fails: the fields
    [Ref no: 12345678] and [Barcode: 12345678] give a record whose [ref]
    and [upc_gtin] are both 12345678. *)
Lemma mapper_ref_equals_identifier :
  exists j raw,
    scanditFieldsToLabelJson rejecting_decoder
      [field "Ref no" "12345678"; field "Barcode" "12345678"] = Some (j, raw) /\
    upc_gtin j = Some $"12345678" /\ ref j = Some $"12345678".
Proof. eexists _, _. split; [vm_compute; reflexivity|]. split; reflexivity. Qed.

Lemma same_truthy (a : str) (o : option str) : same a o = true -> truthy o = nonempty a.
Proof. intros H. apply same_spec in H. subst o. now destruct a. Qed.

Lemma clear_against_spec o j :
  clear_against o j =
  {| batch_no := if truthy o && same (batch_no j) o then [] else batch_no j;
     lot_no := if truthy o && same (lot_no j) o then [] else lot_no j;
     expiry := expiry j; upc_gtin := upc_gtin j; serial := serial j; ref := ref j |}.
Proof.
  unfold clear_against. destruct j as [b l e g s r].
  cbn [batch_no lot_no expiry upc_gtin serial ref].
  destruct (truthy o); cbn [andb]; [|reflexivity].
  destruct (same b o); cbn [with_batch_no lot_no batch_no expiry upc_gtin serial ref];
    destruct (same l o); reflexivity.
Qed.

(** Clearing against the identifier and then against the reference empties
    a text exactly when it is one of the two. *)
Lemma cleared_twice (x : str) (j : LabelJson) :
  (let x1 := if truthy (upc_gtin j) && same x (upc_gtin j) then [] else x in
   if truthy (ref j) && same x1 (ref j) then [] else x1) = cleared x j.
Proof.
  unfold cleared, names_id. cbv zeta.
  destruct (same x (upc_gtin j)) eqn:E1.
  - rewrite (same_truthy _ _ E1). destruct x as [|a x]; cbn [nonempty Gs1.nonempty andb orb].
    + now destruct (truthy (ref j) && same [] (ref j)).
    + now destruct (truthy (ref j) && same [] (ref j)).
  - rewrite andb_false_r. cbn [orb].
    destruct (same x (ref j)) eqn:E2.
    + rewrite (same_truthy _ _ E2). now destruct (nonempty x).
    + rewrite !andb_false_r. reflexivity.
Qed.

(** The final clearing changes batch and lot only. *)
Lemma reconcile_spec (j : LabelJson) :
  reconcile j =
  {| batch_no := cleared (batch_no j) j; lot_no := cleared (lot_no j) j;
     expiry := expiry j; upc_gtin := upc_gtin j; serial := serial j; ref := ref j |}.
Proof.
  unfold reconcile. cbv zeta. rewrite (clear_against_spec (upc_gtin j) j).
  rewrite clear_against_spec. cbn [batch_no lot_no expiry upc_gtin serial ref].
  pose proof (cleared_twice (batch_no j) j) as Hb.
  pose proof (cleared_twice (lot_no j) j) as Hl.
  cbv zeta in Hb, Hl. now rewrite Hb, Hl.
Qed.

(** C1, amended. The record returned by [scanditFieldsToLabelJson] is the
    record [j0] gathered from the fields, the barcode and the raw text,
    with batch and lot cleared against the identifiers: [upc_gtin], [ref],
    [expiry] and [serial] are those of [j0]; [batch_no] is empty when the
    batch of [j0] is not empty and equals [upc_gtin] or [ref], and is the
    batch of [j0] otherwise; likewise [lot_no].  So a non-empty batch or
    lot of the returned record differs from [upc_gtin] and from [ref]
    (identifier and reference outrank batch and lot).  Nothing else is
    reconciled: [ref] and [upc_gtin] are handed on as they are. *)
Theorem mapper_batch_lot_distinct (decode : str -> Gs1.decoded)
    (fields : list ScanditField) (j : LabelJson) (raw : str) :
  scanditFieldsToLabelJson decode fields = Some (j, raw) ->
  (exists st j0,
     loop init fields = Some st /\ gather decode st = (j0, raw) /\
     upc_gtin j = upc_gtin j0 /\ ref j = ref j0 /\
     expiry j = expiry j0 /\ serial j = serial j0 /\
     batch_no j = cleared (batch_no j0) j0 /\
     lot_no j = cleared (lot_no j0) j0) /\
  (batch_no j <> [] -> Some (batch_no j) <> upc_gtin j /\ Some (batch_no j) <> ref j) /\
  (lot_no j <> [] -> Some (lot_no j) <> upc_gtin j /\ Some (lot_no j) <> ref j).
Proof.
  unfold scanditFieldsToLabelJson, after_loop.
  destruct (loop init fields) as [st|]; [|discriminate].
  destruct (gather decode st) as [j0 raw0] eqn:Eg. intros [= <- <-].
  split; [|apply reconcile_distinct].
  exists st, j0. rewrite reconcile_spec. cbn [batch_no lot_no expiry upc_gtin serial ref].
  split; [reflexivity|]. split; [exact Eg|].
  repeat (split; [reflexivity|]). reflexivity.
Qed.

(** A lot that repeats the barcode is cleared; the batch stays. *)
Lemma mapper_batch_lot_distinct_witness :
  exists j raw,
    scanditFieldsToLabelJson rejecting_decoder
      [field "Lot no" "456085"; field "Batch no" "AB12"; field "Barcode" "456085"]
      = Some (j, raw) /\
    upc_gtin j = Some $"456085" /\ lot_no j = [] /\ batch_no j = $"AB12" /\
    (exists st j0,
       loop init [field "Lot no" "456085"; field "Batch no" "AB12"; field "Barcode" "456085"]
         = Some st /\
       gather rejecting_decoder st = (j0, raw) /\
       upc_gtin j = upc_gtin j0 /\ ref j = ref j0 /\
       expiry j = expiry j0 /\ serial j = serial j0 /\
       batch_no j = cleared (batch_no j0) j0 /\
       lot_no j = cleared (lot_no j0) j0) /\
    (batch_no j <> [] -> Some (batch_no j) <> upc_gtin j /\ Some (batch_no j) <> ref j) /\
    (lot_no j <> [] -> Some (lot_no j) <> upc_gtin j /\ Some (lot_no j) <> ref j).
Proof.
  eexists _, _. split; [vm_compute; reflexivity|].
  split; [reflexivity|]. split; [reflexivity|]. split; [reflexivity|].
  eapply (mapper_batch_lot_distinct rejecting_decoder
            [field "Lot no" "456085"; field "Batch no" "AB12"; field "Barcode" "456085"]).
  vm_compute. reflexivity.
Defined.

(** *** The misread filter *)

Lemma loop_app st l1 l2 :
  loop st (l1 ++ l2) =
  match loop st l1 with Some st' => loop st' l2 | None => None end.
Proof.
  revert st. induction l1 as [|f l1 IH]; intros st; simpl; [reflexivity|].
  destruct (step st f); [apply IH|reflexivity].
Qed.

Lemma step_misread st f :
  name f = $"Product code" -> isProductCodeMisread (Str.trim (value f)) = true ->
  step st f = Some st.
Proof.
  intros Hn Hm. unfold step. rewrite Hn, Hm.
  destruct st. reflexivity.
Qed.

Lemma misread_short (v : str) :
  length v <= 3 -> isProductCodeMisread (Str.trim v) = true.
Proof.
  intros H. unfold isProductCodeMisread. rewrite trim_idem.
  pose proof (trim_length v) as Hl.
  destruct (length (Str.trim v) <=? 3) eqn:E; [reflexivity|].
  apply Nat.leb_gt in E. lia.
Qed.

Lemma misread_confusion (v : str) :
  In (Str.toUpperCase (Str.trim v)) known_confusions ->
  isProductCodeMisread (Str.trim v) = true.
Proof.
  intros H. unfold isProductCodeMisread. rewrite trim_idem.
  destruct (length (Str.trim v) <=? 3); [reflexivity|].
  cbv zeta. unfold known_confusions in H. simpl in H.
  repeat destruct H as [H|H]; try contradiction; rewrite <- H; reflexivity.
Qed.

(** C8. A field named [Product code] whose value has at most 3 characters,
    or whose trimmed value is, ignoring case, one of the known confusions of
    a keyword (LT, L0T, EX, EXP, E1P, LOT, LAYUT, LAY0UT, LAYOUT), is
    discarded: [scanditFieldsToLabelJson] returns for a field list that
    contains it exactly what it returns for the list without it, record and
    raw text alike. *)
Theorem misread_product_code_discarded (decode : str -> Gs1.decoded)
    (before after : list ScanditField) (f : ScanditField) :
  name f = $"Product code" ->
  (length (value f) <= 3 \/ In (Str.toUpperCase (Str.trim (value f))) known_confusions) ->
  scanditFieldsToLabelJson decode (before ++ f :: after) =
  scanditFieldsToLabelJson decode (before ++ after).
Proof.
  intros Hn Hv.
  assert (Hm : isProductCodeMisread (Str.trim (value f)) = true).
  { destruct Hv; [now apply misread_short|now apply misread_confusion]. }
  unfold scanditFieldsToLabelJson. rewrite !loop_app.
  destruct (loop init before) as [st|]; [|reflexivity].
  simpl. now rewrite step_misread.
Qed.

Lemma misread_product_code_discarded_witness :
  scanditFieldsToLabelJson rejecting_decoder
    ([field "Lot no" "20054138"] ++ field "Product code" "Lay0ut" :: [field "Expiry" "2027-02"]) =
  scanditFieldsToLabelJson rejecting_decoder
    ([field "Lot no" "20054138"] ++ [field "Expiry" "2027-02"]).
Proof.
  apply (misread_product_code_discarded rejecting_decoder
           [field "Lot no" "20054138"] [field "Expiry" "2027-02"]
           (field "Product code" "Lay0ut")).
  - reflexivity.
  - right. vm_compute. tauto.
Defined.

(** The example of the specification: [L0T] reaches neither batch nor lot
    nor the raw text. *)
Example misread_L0T :
  exists j,
    scanditFieldsToLabelJson rejecting_decoder [field "Product code" "L0T"] = Some (j, []) /\
    batch_no j = [] /\ lot_no j = [].
Proof. eexists. split; [vm_compute; reflexivity|]. split; reflexivity. Qed.

(** *** The six-digit date *)

(** C3. For the single field [Batch/Lot (numeric)] with the valid YYMMDD
    value 261201 the mapper stores the six digits in [expiry] as they are
    and leaves [batch_no] empty, but the raw-text fallback then reads the
    same digits from the line of the field and stores them in [lot_no];
    the value 999999 fills [batch_no] and [lot_no] and leaves [expiry]
    empty. *)
Theorem yymmdd_field_leaks_into_lot (decode : str -> Gs1.decoded) :
  (exists j raw,
     scanditFieldsToLabelJson decode [field "Batch/Lot (numeric)" "261201"] = Some (j, raw) /\
     expiry j = $"261201" /\ batch_no j = [] /\ lot_no j = $"261201") /\
  (exists j raw,
     scanditFieldsToLabelJson decode [field "Batch/Lot (numeric)" "999999"] = Some (j, raw) /\
     expiry j = [] /\ batch_no j = $"999999" /\ lot_no j = $"999999").
Proof.
  split; eexists _, _; (split; [vm_compute; reflexivity|]); repeat split; reflexivity.
Qed.

(** The loop itself does redirect: the step for such a field writes only
    [expiry] when the value is a likely YYMMDD, and only batch and lot
    otherwise. *)
Lemma step_batch_lot_numeric st f :
  name f = $"Batch/Lot (numeric)" ->
  exists st',
    step st f = Some st' /\
    (isLikelyYYMMDD (Str.trim (value f)) = true ->
     expiry (labelJson st') = Str.trim (value f) /\
     batch_no (labelJson st') = batch_no (labelJson st) /\
     lot_no (labelJson st') = lot_no (labelJson st)) /\
    (isLikelyYYMMDD (Str.trim (value f)) = false ->
     expiry (labelJson st') = expiry (labelJson st) /\
     batch_no (labelJson st') = Str.trim (value f) /\
     lot_no (labelJson st') = Str.trim (value f)).
Proof.
  intros Hn. unfold step. rewrite Hn.
  change (Str.eqb $"Batch/Lot (numeric)" $"Product code") with false.
  change (Str.eqb $"Batch/Lot (numeric)" $"Barcode") with false.
  change (output_keys_of $"Batch/Lot (numeric)") with (Keys [LabelPatterns.K_batch_no; LabelPatterns.K_lot_no]).
  change (Str.eqb $"Batch/Lot (numeric)" $"Batch/Lot (numeric)") with true.
  cbn [andb existsb LabelPatterns.OutputKey_eqb orb].
  destruct (isLikelyYYMMDD (Str.trim (value f))); eexists; (split; [reflexivity|]);
    split; intros H; try discriminate; repeat split; reflexivity.
Qed.

(** *** Raw expiry values *)

(** C2 as the specification states it fails: the value 13/27 of an
    [Expiry (EXP MM/YY)] field has no valid month, is not recognised by the
    normalizer and is returned as it is. *)
Lemma mapper_returns_raw_expiry :
  exists j raw,
    scanditFieldsToLabelJson rejecting_decoder [field "Expiry (EXP MM/YY)" "13/27"]
    = Some (j, raw) /\
    expiry j = $"13/27" /\ canonical (expiry j) = false.
Proof. eexists _, _. split; [vm_compute; reflexivity|]. split; reflexivity. Qed.

End MapperFacts.

(** ** The three normalizers on the notations of the specification *)

Module NormalizerFacts.
Import LabelFormatsFacts.



End NormalizerFacts.

(** ** The selection among the format matchers *)

Module SelectionFacts.
Import LabelFormats.

Lemma select_fold (t : str) (formats : list LabelFormat) :
  forall best bs,
    let r := fold_left (select_step t) formats (best, bs) in
    (forall f, In f formats -> score (extract f t) <= snd r) /\
    ((r = (best, bs) /\ forall f, In f formats -> score (extract f t) <= bs) \/
     (exists pre f post,
        formats = pre ++ f :: post /\ fst r = extract f t /\ snd r = score (extract f t) /\
        bs < snd r /\ forall g, In g pre -> score (extract g t) < snd r)).
Proof.
  induction formats as [|f fs IH]; intros best bs; cbv zeta in *; simpl.
  - split; [intros f []|]. left. split; [reflexivity|intros f []].
  - change (select_step t (best, bs) f)
      with (if bs <? score (extract f t)
            then (extract f t, score (extract f t)) else (best, bs)).
    destruct (bs <? score (extract f t)) eqn:E.
    + apply Nat.ltb_lt in E.
      destruct (IH (extract f t) (score (extract f t))) as [Hmax Hsel].
      destruct Hsel as [[Hr Hle]|(pre & g & post & Hf & Hb & Hs & Hlt & Hpre)].
      * rewrite Hr in *. cbn [fst snd] in *. split.
        -- intros g [<-|Hg]; [lia|auto].
        -- right. exists [], f, fs. cbn [app fst snd].
           split; [reflexivity|]. split; [reflexivity|]. split; [reflexivity|].
           split; [exact E|]. intros g [].
      * split.
        -- intros h [<-|Hh]; [lia|auto].
        -- right. exists (f :: pre), g, post.
           split; [simpl; now f_equal|]. split; [exact Hb|]. split; [exact Hs|].
           split; [lia|]. intros h [<-|Hh]; [lia|auto].
    + apply Nat.ltb_ge in E.
      destruct (IH best bs) as [Hmax Hsel].
      destruct Hsel as [[Hr Hle]|(pre & g & post & Hf & Hb & Hs & Hlt & Hpre)].
      * rewrite Hr in *. cbn [fst snd] in *. split.
        -- intros g [<-|Hg]; [lia|auto].
        -- left. split; [reflexivity|]. intros g [<-|Hg]; [lia|auto].
      * split.
        -- intros h [<-|Hh]; [lia|auto].
        -- right. exists (f :: pre), g, post.
           split; [simpl; now f_equal|]. split; [exact Hb|]. split; [exact Hs|].
           split; [exact Hlt|]. intros h [<-|Hh]; [lia|auto].
Qed.

Lemma adopt_first_line_keeps (ocrText : str) (best : LabelFormatResult) :
  lot_no (adopt_first_line ocrText best) = lot_no best /\
  expiry (adopt_first_line ocrText best) = expiry best /\
  (truthy (batch_no best) = true ->
   batch_no (adopt_first_line ocrText best) = batch_no best).
Proof.
  unfold adopt_first_line.
  destruct (match filter _ _ with [] => None | _ => _ end) as [fl|]; [|tauto].
  destruct (truthy (batch_no best)) eqn:T; simpl; [tauto|].
  match goal with |- context [if ?b then _ else _] => destruct b end;
    simpl; (split; [reflexivity|split; [reflexivity|discriminate]]).
Qed.

End SelectionFacts.

(** ** Matching does not depend on what the tests of a pattern cannot see *)

Module ReMap.
Import ReAnalysis.

Lemma stable_spec f p : stable f p = true -> forall c, p (f c) = p c.
Proof.
  unfold stable. intros H c. rewrite forallb_forall in H.
  specialize (H c (all_ascii_complete c)). now apply Bool.eqb_prop in H.
Qed.

Lemma between_map f (l l' : str) :
  between (map f l) (map f l') = map f (between l l').
Proof. unfold between. now rewrite !length_map, firstn_map, map_rev. Qed.

Lemma crel_set f c c' i w :
  crel f c c' -> crel f (set_cap i w c) (set_cap i (map f w) c').
Proof. intros H j. unfold set_cap. destruct (j =? i); [reflexivity|apply H]. Qed.

Lemma crel_clear f c c' gs :
  crel f c c' -> crel f (clear_caps gs c) (clear_caps gs c').
Proof. intros H j. unfold clear_caps. destruct (existsb _ gs); [reflexivity|apply H]. Qed.

Section Map.
Variable f : ascii -> ascii.
Variables (R R' : Type) (RR : R -> R' -> Prop).

Lemma rep_loop_map (a : regex) (greedy : bool) (k : cont R) (k' : cont R') :
  (forall l s c c' (k1 : cont R) (k1' : cont R'),
     crel f c c' -> krel f RR k1 k1' ->
     orel RR (exec a l s c k1) (exec a (map f l) (map f s) c' k1')) ->
  krel f RR k k' ->
  forall n lo l s c c',
    crel f c c' ->
    orel RR (rep_loop (exec a) (groups a) greedy k n lo l s c)
            (rep_loop (exec a) (groups a) greedy k' n lo (map f l) (map f s) c').
Proof.
  intros IHa Hk. induction n as [|n IHn]; intros lo l s c c' Hc; simpl.
  - now apply Hk.
  - assert (Hd : orel RR
      (exec a l s (clear_caps (groups a) c)
         (fun l' s' c1 =>
            if (lo =? 0) && (length s' =? length s) then None
            else rep_loop (exec a) (groups a) greedy k n (pred lo) l' s' c1))
      (exec a (map f l) (map f s) (clear_caps (groups a) c')
         (fun l' s' c1 =>
            if (lo =? 0) && (length s' =? length (map f s)) then None
            else rep_loop (exec a) (groups a) greedy k' n (pred lo) l' s' c1))).
    { apply IHa; [now apply crel_clear|].
      intros l1 s1 c1 c1' Hc1. rewrite !length_map.
      destruct ((lo =? 0) && (length s1 =? length s)); [exact I|].
      now apply IHn. }
    pose proof (Hk l s c c' Hc) as Hk0.
    destruct (lo =? 0); [|exact Hd].
    destruct greedy.
    + destruct (exec a l s _ _), (exec a (map f l) _ _ _); simpl in Hd;
        try contradiction; [exact Hd|exact Hk0].
    + destruct (k l s c), (k' (map f l) (map f s) c'); simpl in Hk0;
        try contradiction; [exact Hk0|exact Hd].
Qed.

End Map.

Theorem exec_map (f : ascii -> ascii) (r : regex) :
  stable_re f r = true ->
  forall (R R' : Type) (RR : R -> R' -> Prop) l s c c' (k : cont R) (k' : cont R'),
    crel f c c' -> krel f RR k k' ->
    orel RR (exec r l s c k) (exec r (map f l) (map f s) c' k').
Proof.
  induction r as [|p|a IHa b IHb|a IHa b IHb|lo hi g a IHa|j a IHa| | |];
    intros Hst R R' RR l s c c' k k' Hc Hk; simpl in Hst; simpl.
  - now apply Hk.
  - destruct s as [|x s]; simpl; [exact I|].
    rewrite (stable_spec f p Hst x).
    destruct (p x); [|exact I]. now apply (Hk (x :: l) s).
  - apply andb_prop in Hst as [Ha Hb].
    apply (IHa Ha); [assumption|].
    intros l1 s1 c1 c1' Hc1. now apply (IHb Hb).
  - apply andb_prop in Hst as [Ha Hb].
    pose proof (IHa Ha R R' RR l s c c' k k' Hc Hk) as H1.
    pose proof (IHb Hb R R' RR l s c c' k k' Hc Hk) as H2.
    destruct (exec a l s c k), (exec a (map f l) (map f s) c' k'); simpl in H1;
      try contradiction; [exact H1|exact H2].
  - rewrite length_map.
    apply rep_loop_map; [|assumption|assumption].
    intros; now apply (IHa Hst).
  - apply (IHa Hst); [assumption|].
    intros l1 s1 c1 c1' Hc1. rewrite between_map.
    apply Hk. now apply crel_set.
  - destruct l; simpl; [now apply Hk|exact I].
  - destruct s; simpl; [now apply Hk|exact I].
  - assert (Hw : forall u, word_at (map f u) = word_at u).
    { intros [|x u]; simpl; [reflexivity|]. apply (stable_spec f is_word Hst). }
    rewrite !Hw. destruct (xorb _ _); [now apply Hk|exact I].
Qed.

Lemma search_map (f : ascii -> ascii) (r : regex) :
  stable_re f r = true ->
  forall s l,
    orel (res_rel f) (search_from r l s) (search_from r (map f l) (map f s)).
Proof.
  intros Hst.
  assert (Hat : forall l s,
    orel (res_rel f) (match_at r l s) (match_at r (map f l) (map f s))).
  { intros l s. unfold match_at.
    apply (exec_map f (Group 0 r) Hst).
    - intros i. reflexivity.
    - intros l1 s1 c1 c1' Hc1. simpl. auto. }
  induction s as [|a s IH]; intros l; simpl.
  - pose proof (Hat l []) as H. simpl in H.
    destruct (match_at r l []), (match_at r (map f l) []); simpl in H;
      try contradiction; [exact H|exact I].
  - pose proof (Hat l (a :: s)) as H. simpl in H.
    destruct (match_at r l (a :: s)), (match_at r (map f l) (f a :: map f s));
      simpl in H; try contradiction; [exact H|].
    apply (IH (a :: l)).
Qed.

(** A pattern finds a match in a text exactly when it finds one in the
    image of the text, and the captures are the images of the captures. *)
Theorem exec_re_map (f : ascii -> ascii) (r : regex) (s : str) :
  stable_re f r = true ->
  orel (crel f) (exec_re r s) (exec_re r (map f s)).
Proof.
  intros Hst. unfold exec_re.
  pose proof (search_map f r Hst s []) as H. simpl in H.
  destruct (search_from r [] s) as [[[l1 s1] c1]|],
           (search_from r [] (map f s)) as [[[l2 s2] c2]|]; simpl in H;
    try contradiction; [|exact I].
  simpl. tauto.
Qed.

Corollary exec_re_map_some (f : ascii -> ascii) (r : regex) (s : str) :
  stable_re f r = true -> test r (map f s) = true -> exists c, exec_re r s = Some c.
Proof.
  intros Hst H. pose proof (exec_re_map f r s Hst) as Hm. unfold test in H.
  destruct (exec_re r s) as [c|]; [eauto|].
  destruct (exec_re r (map f s)); [contradiction|discriminate].
Qed.

End ReMap.

(** ** Units and their images *)

Module CharFacts.
Import ReAnalysis.

Lemma all2_spec (P : ascii -> ascii -> bool) :
  all2 P = true -> forall x c, P x c = true.
Proof.
  unfold all2. intros H x c. rewrite forallb_forall in H.
  specialize (H x (all_ascii_complete x)). rewrite forallb_forall in H.
  exact (H c (all_ascii_complete c)).
Qed.

Lemma absf_digit c : is_digit c = true -> absf c = "0"%char.
Proof. unfold absf. now intros ->. Qed.

Lemma absf_ch x c : ch x c = true -> absf c = absf x.
Proof. unfold ch. intros H. apply Ascii.eqb_eq in H. now subst. Qed.

Lemma absf_chi x c : chi x c = true -> is_digit (upper x) = false -> absf c = upper x.
Proof.
  intros H1 H2.
  pose proof (all2_spec
    (fun x c => implb (chi x c && negb (is_digit (upper x))) (Ascii.eqb (absf c) (upper x)))
    ltac:(vm_compute; reflexivity) x c) as H.
  cbv beta in H. rewrite H1, H2 in H. now apply Ascii.eqb_eq in H.
Qed.

Lemma upper_units_absf c X :
  absf c = X -> is_upper X = true -> Str.upper_units c = [X].
Proof.
  intros H1 H2.
  pose proof (all2_spec
    (fun c X => implb (Ascii.eqb (absf c) X && is_upper X) (Str.eqb (Str.upper_units c) [X]))
    ltac:(vm_compute; reflexivity) c X) as H.
  cbv beta in H. rewrite H1, Ascii.eqb_refl, H2 in H. now apply StrFacts.eqb_eq in H.
Qed.

Lemma toUpperCase_absf (w z : str) :
  map absf w = z -> forallb is_upper z = true -> Str.toUpperCase w = z.
Proof.
  revert z. induction w as [|c w IH]; intros z Hz Hu; simpl in *; [assumption|].
  destruct z as [|X z]; [discriminate|]. injection Hz as H1 H2.
  simpl in Hu. apply andb_prop in Hu as [Hu1 Hu2].
  rewrite (upper_units_absf c X H1 Hu1). simpl. f_equal. now apply IH.
Qed.

Lemma digit_not_space c : is_digit c = true -> is_space c = false.
Proof.
  intros H.
  pose proof (all2_spec (fun c _ => implb (is_digit c) (negb (is_space c)))
    ltac:(vm_compute; reflexivity) c c) as H0.
  cbv beta in H0. rewrite H in H0. now apply negb_true_iff in H0.
Qed.

End CharFacts.

(** ** Taking a match apart *)

Module MtFacts.
Import ReAnalysis CharFacts.

Lemma mt_seq_inv a b l w s :
  mt (Seq a b) l w s ->
  exists w1 w2, w = w1 ++ w2 /\ mt a l w1 (w2 ++ s) /\ mt b (rev w1 ++ l) w2 s.
Proof. exact (fun H => H). Qed.

Lemma mt_chr_inv p l w s : mt (Chr p) l w s -> exists a, w = [a] /\ p a = true.
Proof. exact (fun H => H). Qed.

Lemma mt_shaped r p lo hi l w s :
  mt r l w s ->
  (all_chars p r && (lo <=? min_len r)
   && match max_len r with Some m => m <=? hi | None => false end) = true ->
  shaped p lo hi w.
Proof.
  intros Hm H. apply andb_prop in H as [H Hmax]. apply andb_prop in H as [Hch Hmin].
  split; [eapply mt_chars; eauto|].
  apply mt_len in Hm as [H1 H2]. apply Nat.leb_le in Hmin.
  destruct (max_len r) as [m|]; [|discriminate].
  apply Nat.leb_le in Hmax. specialize (H2 _ eq_refl). lia.
Qed.

Lemma map_absf_digits (w : str) :
  Forall (fun c => is_digit c = true) w -> map absf w = repeat "0"%char (length w).
Proof.
  induction 1 as [|c w Hc _ IH]; simpl; [reflexivity|].
  now rewrite (absf_digit c Hc), IH.
Qed.

Lemma mt_month l w s : mt months_i l w s -> In (map absf w) month_strs.
Proof.
  intros H. unfold months_i, month_names in H. simpl in H.
  repeat match goal with
         | H : _ \/ _ |- _ => destruct H as [H|H]
         end;
    destruct H as (w1 & w2 & -> & (a & -> & Ha) & w3 & w4 & -> & (b & -> & Hb) & c & -> & Hc);
    simpl map;
    rewrite (absf_chi _ a Ha eq_refl), (absf_chi _ b Hb eq_refl), (absf_chi _ c Hc eq_refl);
    vm_compute; tauto.
Qed.

(** The bodies of the groups numbered [i]. *)
Lemma cap_ok_bodies r i x :
  cap_ok r i x -> exists b, In b (bodies i r) /\ exists l s, mt b l x s.
Proof.
  induction r as [|q|a IHa b IHb|a IHa b IHb|lo hi g a IHa|j a IHa| | |];
    intros H; simpl in *; try contradiction.
  - destruct H as [H|H]; [apply IHa in H|apply IHb in H];
      destruct H as (b0 & Hin & Hm); exists b0; (split; [|assumption]);
      apply in_app_iff; tauto.
  - destruct H as [H|H]; [apply IHa in H|apply IHb in H];
      destruct H as (b0 & Hin & Hm); exists b0; (split; [|assumption]);
      apply in_app_iff; tauto.
  - auto.
  - destruct H as [[-> Hm]|H].
    + exists a. rewrite Nat.eqb_refl. split; [now left|assumption].
    + apply IHa in H as (b0 & Hin & Hm). exists b0. split; [|assumption].
      destruct (j =? i); [now right|assumption].
Qed.

(** A group that every match defines holds a text matched by its body. *)
Theorem exec_re_body (r : regex) (s : str) (c : caps) (i : nat) (b : regex) :
  exec_re r s = Some c ->
  (wf r && negb (i =? 0) && defines i r) = true ->
  bodies i r = [b] ->
  exists l s', mt b l (grp c i) s'.
Proof.
  intros H Hchk Hb.
  apply andb_prop in Hchk as [Hchk Hd]. apply andb_prop in Hchk as [Hwf Hi].
  apply negb_true_iff, Nat.eqb_neq in Hi.
  apply (exec_re_sound r s _ Hwf) in H as (p0 & w & q & _ & _ & _ & Hc & Hdef).
  specialize (Hdef i Hd). unfold grp.
  destruct (c i) as [x|] eqn:E; [|contradiction].
  apply Hc in E; [|assumption].
  apply cap_ok_bodies in E as (b0 & Hin & Hm).
  rewrite Hb in Hin. destruct Hin as [<-|[]]. exact Hm.
Qed.

End MtFacts.

(** ** The expiry found by the format matchers *)

Module OcrExpiryFacts.
Import ReAnalysis ShapeFacts CharFacts MtFacts ReMap LabelFormats LabelFormatsFacts.

Lemma month_strs_facts (nm : str) :
  In nm month_strs ->
  forallb is_upper nm = true /\
  exists m, lookup nm month_table = Some m /\ Str.eqb m [] = false.
Proof.
  intros H. unfold month_strs, month_names in H. simpl in H.
  repeat destruct H as [H|H]; try contradiction; subst nm;
    (split; [reflexivity|eexists; split; reflexivity]).
Qed.

(** A month branch applies to a text as soon as it applies to its
    image. *)
Lemma month_branch_complete re gy gm (x : str) :
  stable_re absf re = true -> month_ok re gm (map absf x) = true ->
  month_branch re gy gm x <> None.
Proof.
  intros Hst Hok. unfold month_ok in Hok. unfold month_branch.
  pose proof (exec_re_map absf re x Hst) as Hm.
  destruct (exec_re re (map absf x)) as [c'|]; [|discriminate].
  destruct (exec_re re x) as [c|]; [|contradiction].
  simpl in Hm. specialize (Hm gm).
  destruct (c' gm) as [nm|]; [|discriminate].
  apply existsb_exists in Hok as (nm' & Hin & Heq).
  apply StrFacts.eqb_eq in Heq. subst nm'.
  apply month_strs_facts in Hin as (Hup & m & Hl & Hne).
  unfold grp. destruct (c gm) as [w|]; [|discriminate].
  injection Hm as Hm.
  rewrite (toUpperCase_absf w nm (eq_sym Hm) Hup), Hl, Hne. discriminate.
Qed.

Ltac each_month H :=
  unfold month_strs, month_names in H; simpl in H;
  repeat destruct H as [H|H]; try contradiction.

Lemma shaped_absf lo hi (w : str) :
  shaped is_digit lo hi w -> map absf w = repeat "0"%char (length w) /\ lo <= length w <= hi.
Proof. intros [H1 H2]. split; [now apply map_absf_digits|assumption]. Qed.

(** YYYY-MMM *)
Lemma ym_of_yyyy_mmm l x s :
  mt (seqs [exactly 4 digit; liti "-"; months_i]) l x s ->
  is_ym (normalizeExpiry x) = true.
Proof.
  intros H.
  apply mt_seq_inv in H as (y & w & -> & Hy & H).
  apply mt_seq_inv in H as (d & mon & -> & Hd & Hm).
  apply (mt_shaped _ is_digit 4 4) in Hy; [|chk].
  apply shaped_absf in Hy as [Hy Hl].
  apply mt_chr_inv in Hd as (a & -> & Ha).
  apply mt_month in Hm.
  assert (Hb : month_branch re_yyyyMmm 1 2 (y ++ [a] ++ mon) <> None).
  { apply month_branch_complete; [chk|].
    rewrite !map_app, Hy. simpl map. rewrite (absf_chi _ a Ha eq_refl).
    replace (length y) with 4 by lia.
    each_month Hm; rewrite <- Hm; vm_compute; reflexivity. }
  destruct (normalizeExpiry_chain (y ++ [a] ++ mon)) as [Hn|(_ & Hn & _)];
    [assumption|contradiction].
Qed.

(** MMM YYYY and MMMYYYY, as the matcher joins the two groups. *)
Lemma ym_of_mmm_yyyy l1 s1 (mon y : str) :
  mt months_i l1 mon s1 -> shaped is_digit 4 4 y ->
  is_ym (normalizeExpiry (mon ++ $" " ++ y)) = true /\
  is_ym (normalizeExpiry (mon ++ y)) = true.
Proof.
  intros Hm Hy. apply mt_month in Hm.
  apply shaped_absf in Hy as [Hy Hl].
  split.
  - assert (Hb : month_branch re_mmmYyyy 2 1 (mon ++ $" " ++ y) <> None).
    { apply month_branch_complete; [chk|].
      rewrite !map_app, Hy. replace (length y) with 4 by lia.
      each_month Hm; rewrite <- Hm; vm_compute; reflexivity. }
    destruct (normalizeExpiry_chain (mon ++ $" " ++ y)) as [Hn|(_ & _ & Hn & _)];
      [assumption|contradiction].
  - assert (Hb : month_branch re_mmmYyyyNoSpace 2 1 (mon ++ y) <> None).
    { apply month_branch_complete; [chk|].
      rewrite !map_app, Hy. replace (length y) with 4 by lia.
      each_month Hm; rewrite <- Hm; vm_compute; reflexivity. }
    destruct (normalizeExpiry_chain (mon ++ y)) as [Hn|(_ & _ & _ & Hn & _)];
      [assumption|contradiction].
Qed.

Lemma lit1_absf x l w s : mt (lit (String x EmptyString)) l w s -> map absf w = [absf x].
Proof.
  intros H. apply mt_chr_inv in H as (a & -> & Ha). simpl. now rewrite (absf_ch x a Ha).
Qed.

(** YYYY/MM *)
Lemma ym_of_yyyy_slash_mm l x s :
  mt (seqs [exactly 4 digit; lit "/"; times 1 2 digit]) l x s ->
  is_ym (normalizeExpiry x) = true.
Proof.
  intros H.
  apply mt_seq_inv in H as (y & w & -> & Hy & H).
  apply mt_seq_inv in H as (d & m & -> & Hd & Hm).
  apply (mt_shaped _ is_digit 4 4) in Hy; [|chk].
  apply (mt_shaped _ is_digit 1 2) in Hm; [|chk].
  apply shaped_absf in Hy as [Hy Hl]. apply shaped_absf in Hm as [Hm Hlm].
  apply lit1_absf in Hd.
  assert (Hb : exists c, exec_re re_yyyyMmSlash (y ++ d ++ m) = Some c).
  { apply (exec_re_map_some absf); [chk|].
    rewrite !map_app, Hy, Hd, Hm. replace (length y) with 4 by lia.
    assert (Hc : length m = 1 \/ length m = 2) by lia.
    destruct Hc as [-> | ->]; vm_compute; reflexivity. }
  destruct Hb as [c Hb].
  destruct (normalizeExpiry_chain (y ++ d ++ m)) as [Hn|(_ & _ & _ & _ & _ & _ & Hn)];
    [assumption|congruence].
Qed.

(** MM/YYYY *)
Lemma ym_of_mm_slash_yyyy l x s :
  mt (seqs [times 1 2 digit; lit "/"; exactly 4 digit]) l x s ->
  is_ym (normalizeExpiry x) = true.
Proof.
  intros H.
  apply mt_seq_inv in H as (m & w & -> & Hm & H).
  apply mt_seq_inv in H as (d & y & -> & Hd & Hy).
  apply (mt_shaped _ is_digit 4 4) in Hy; [|chk].
  apply (mt_shaped _ is_digit 1 2) in Hm; [|chk].
  apply shaped_absf in Hy as [Hy Hl]. apply shaped_absf in Hm as [Hm Hlm].
  apply lit1_absf in Hd.
  assert (Hb : exists c, exec_re re_mmYyyy (m ++ d ++ y) = Some c).
  { apply (exec_re_map_some absf); [chk|].
    rewrite !map_app, Hy, Hd, Hm. replace (length y) with 4 by lia.
    assert (Hc : length m = 1 \/ length m = 2) by lia.
    destruct Hc as [-> | ->]; vm_compute; reflexivity. }
  destruct Hb as [c Hb].
  destruct (normalizeExpiry_chain (m ++ d ++ y)) as [Hn|(_ & _ & _ & _ & _ & Hn & _)];
    [assumption|congruence].
Qed.

(** The first seven units of a match of YYYY-MM(-DD)?. *)
Lemma ym_of_whole t c :
  exec_re re_expiryYyyyMm t = Some c -> is_ym (Str.slice 0 7 (grp c 0)) = true.
Proof.
  intros E. apply exec_re_whole in E as (p & q & _ & H); [|reflexivity].
  apply mt_seq_inv in H as (y & w & -> & Hy & H).
  apply mt_seq_inv in H as (d & w' & -> & Hd & H).
  apply mt_seq_inv in H as (m & rest & -> & Hm & _).
  apply (mt_shaped _ is_digit 4 4) in Hy; [|chk].
  apply (mt_shaped _ is_digit 2 2) in Hm; [|chk].
  apply mt_chr_inv in Hd as (a & -> & Ha).
  apply Ascii.eqb_eq in Ha. subst a.
  change (y ++ ["-"%char] ++ m ++ rest) with (y ++ $"-" ++ m ++ rest).
  replace (Str.slice 0 7 (y ++ $"-" ++ m ++ rest)) with (y ++ $"-" ++ m).
  - now apply is_ym_build.
  - apply shaped4 in Hy as (a & b & c' & e & -> & _).
    apply shaped2 in Hm as (f & g & -> & _). reflexivity.
Qed.

(** *** Each matcher *)

Ltac split_matches :=
  repeat match goal with
         | |- context [match ?x with _ => _ end] => destruct x eqn:?
         end.

Ltac show_expiry :=
  cbn [expiry set_expiry set_lot_no set_batch_no empty_result expiry_ok batch_no lot_no].

Lemma gs1Style_expiry t : expiry_ok (expiry (gs1Style_extract t)).
Proof.
  unfold gs1Style_extract. cbv zeta.
  destruct (exec_re re_expiryYyyyMm t) as [c|] eqn:E; split_matches; show_expiry; trivial.
  all: try (now apply (ym_of_whole t)).
Qed.

Lemma yyyyMmmWord_ym t c :
  exec_re re_yyyyMmmWord t = Some c -> is_ym (normalizeExpiry (grp c 1)) = true.
Proof.
  intros E.
  apply (exec_re_body _ _ _ 1 (seqs [exactly 4 digit; liti "-"; months_i])) in E;
    [|reflexivity|reflexivity].
  destruct E as (l & s & E). now apply ym_of_yyyy_mmm in E.
Qed.

Lemma numericLotYyyyMmm_expiry t : expiry_ok (expiry (numericLotYyyyMmm_extract t)).
Proof.
  unfold numericLotYyyyMmm_extract. cbv zeta.
  destruct (exec_re re_yyyyMmmWord t) as [c|] eqn:E; split_matches; show_expiry; trivial.
  all: try (now apply (yyyyMmmWord_ym t)).
Qed.

Lemma expMmmYyyy_ym t c :
  exec_re re_expMmmYyyy t = Some c ->
  is_ym (normalizeExpiry (grp c 1 ++ $" " ++ grp c 2)) = true.
Proof.
  intros E.
  assert (Hy : shaped is_digit 4 4 (grp c 2)) by (eapply exec_re_grp; [exact E|chk]).
  apply (exec_re_body _ _ _ 1 months_i) in E; [|reflexivity|reflexivity].
  destruct E as (l & s & E). exact (proj1 (ym_of_mmm_yyyy l s _ _ E Hy)).
Qed.

Lemma expMmmYyyyNoSpace_ym t c :
  exec_re re_expMmmYyyyNoSpace t = Some c ->
  is_ym (normalizeExpiry (grp c 1 ++ grp c 2)) = true.
Proof.
  intros E.
  assert (Hy : shaped is_digit 4 4 (grp c 2)) by (eapply exec_re_grp; [exact E|chk]).
  apply (exec_re_body _ _ _ 1 months_i) in E; [|reflexivity|reflexivity].
  destruct E as (l & s & E). exact (proj2 (ym_of_mmm_yyyy l s _ _ E Hy)).
Qed.

Lemma lotExpMmmYyyy_expiry t : expiry_ok (expiry (lotExpMmmYyyy_extract t)).
Proof.
  unfold lotExpMmmYyyy_extract. cbv zeta.
  destruct (exec_re re_lotPrefix t) as [c0|];
    destruct (exec_re re_expMmmYyyy t) as [c1|] eqn:E1;
    destruct (exec_re re_expMmmYyyyNoSpace t) as [c2|] eqn:E2;
    show_expiry; split_matches; show_expiry; trivial.
  all: try (now apply (expMmmYyyy_ym t)).
  all: try (now apply (expMmmYyyyNoSpace_ym t)).
Qed.

Lemma expirationDate_ym t c :
  exec_re re_expirationDate t = Some c -> is_ym (normalizeExpiry (grp c 1)) = true.
Proof.
  intros E.
  apply (exec_re_body _ _ _ 1 (seqs [exactly 4 digit; lit "/"; times 1 2 digit])) in E;
    [|reflexivity|reflexivity].
  destruct E as (l & s & E). now apply ym_of_yyyy_slash_mm in E.
Qed.

Lemma lotNumberExpirationDate_expiry t :
  expiry_ok (expiry (lotNumberExpirationDate_extract t)).
Proof.
  unfold lotNumberExpirationDate_extract. cbv zeta.
  destruct (exec_re re_expirationDate t) as [c|] eqn:E; split_matches; show_expiry; trivial.
  all: try (now apply (expirationDate_ym t)).
Qed.

Lemma expSlash_ym t c :
  exec_re re_expSlash t = Some c -> is_ym (normalizeExpiry (grp c 1)) = true.
Proof.
  intros E.
  apply (exec_re_body _ _ _ 1 (seqs [times 1 2 digit; lit "/"; exactly 4 digit])) in E;
    [|reflexivity|reflexivity].
  destruct E as (l & s & E). now apply ym_of_mm_slash_yyyy in E.
Qed.

Lemma expSlashEither_ym t c :
  orelse (exec_re re_expSlashAnchored t) (exec_re re_expSlash t) = Some c ->
  is_ym (normalizeExpiry (grp c 1)) = true.
Proof.
  unfold orelse. destruct (exec_re re_expSlashAnchored t) as [c1|] eqn:E1.
  - intros [= <-].
    apply (exec_re_body _ _ _ 1 (seqs [times 1 2 digit; lit "/"; exactly 4 digit])) in E1;
      [|reflexivity|reflexivity].
    destruct E1 as (l & s & E1). now apply ym_of_mm_slash_yyyy in E1.
  - apply expSlash_ym.
Qed.

Lemma lotHashExpSlash_expiry t : expiry_ok (expiry (lotHashExpSlash_extract t)).
Proof.
  unfold lotHashExpSlash_extract. cbv zeta.
  destruct (orelse (exec_re re_expSlashAnchored t) (exec_re re_expSlash t)) as [c|] eqn:E;
    split_matches; show_expiry; trivial.
  all: try (now apply (expSlashEither_ym t)).
Qed.

Lemma fallback_expiry t : expiry_ok (expiry (fallback_extract t)).
Proof.
  unfold fallback_extract. cbv zeta.
  destruct (exec_re re_expiryYyyyMm t) as [c1|] eqn:E1;
    destruct (exec_re re_expSlash t) as [c2|] eqn:E2;
    split_matches; show_expiry; trivial.
  all: try (now apply (ym_of_whole t)).
  all: try (now apply (expSlash_ym t)).
Qed.

Lemma formats_expiry t f : In f LABEL_FORMATS -> expiry_ok (expiry (extract f t)).
Proof.
  intros H. unfold LABEL_FORMATS in H. simpl in H.
  repeat destruct H as [H|H]; try contradiction; subst f; simpl.
  - apply gs1Style_expiry.
  - apply numericLotYyyyMmm_expiry.
  - apply lotExpMmmYyyy_expiry.
  - apply lotNumberExpirationDate_expiry.
  - apply lotHashExpSlash_expiry.
  - apply fallback_expiry.
Qed.

Lemma select_in (formats : list LabelFormat) t :
  fst (select formats t) = empty_result \/
  exists f, In f formats /\ fst (select formats t) = extract f t.
Proof.
  destruct (SelectionFacts.select_fold t formats empty_result 0) as [_ H].
  cbv zeta in H. unfold select.
  destruct H as [[-> _]|(pre & f & post & -> & Hb & _)]; [now left|].
  right. exists f. split; [|exact Hb]. apply in_app_iff. right. now left.
Qed.

Lemma is_ym_trim (e : str) : is_ym e = true -> Str.trim e = e.
Proof.
  intros H. apply StrFacts.trim_tight_id.
  destruct e as [|a [|b [|c [|d [|e [|f [|g [|h s]]]]]]]]; try discriminate.
  apply is_ym_inv in H as (Ha & _ & _ & _ & _ & _ & Hg).
  split; simpl; now apply digit_not_space.
Qed.

(** The expiry returned for an OCR text is empty or of the form YYYY-MM. *)
Lemma extractLabelFromOcr_expiry (ocrText : str) :
  empty_or is_ym (snd (extractLabelFromOcr ocrText)) = true.
Proof.
  unfold extractLabelFromOcr, finish. cbv zeta. cbn [snd].
  destruct (SelectionFacts.adopt_first_line_keeps ocrText
              (fst (select LABEL_FORMATS (Str.trim (Str.collapse_ws ocrText)))))
    as (_ & -> & _).
  destruct (select_in LABEL_FORMATS (Str.trim (Str.collapse_ws ocrText)))
    as [->|(f & Hin & ->)]; [reflexivity|].
  pose proof (formats_expiry (Str.trim (Str.collapse_ws ocrText)) f Hin) as H.
  destruct (expiry (extract f _)) as [e|]; [|reflexivity].
  simpl in H. simpl or_empty. rewrite (is_ym_trim e H).
  destruct e; [reflexivity|exact H].
Qed.

End OcrExpiryFacts.

(** ** The batch of the positional fallback *)

Module BatchFacts.
Import ReFacts ReAnalysis Gs1.

(** The fixed head of both batch patterns. *)
Lemma head_exec (R : Type) (rest : regex) l t c (k : cont R) :
  exec (seqs [lit "17"; exactly 6 digit; lit "10"; rest]) l t c k =
  if starts_17_10 t then exec rest (rev (firstn 10 t) ++ l) (skipn 10 t) c k else None.
Proof.
  destruct t as [|a [|b [|d1 [|d2 [|d3 [|d4 [|d5 [|d6 [|e [|g t]]]]]]]]]];
    cbn -[is_digit ch];
    repeat match goal with
           | |- context [if ch ?x ?y then _ else _] => destruct (ch x y)
           | |- context [if is_digit ?y then _ else _] => destruct (is_digit y)
           end; reflexivity.
Qed.

Lemma unit_matcher_chr (R : Type) p : unit_matcher R p (exec (Chr p)).
Proof. split; reflexivity. Qed.

(** A greedy run over units that all match takes them all, when the
    continuation accepts the end. *)
Lemma greedy_all (R : Type) (p : ascii -> bool) ea (k : cont R) (z : R) :
  unit_matcher R p ea ->
  forall s l c n lo,
    Forall (fun a => p a = true) s -> lo <= length s -> length s <= n ->
    k (rev s ++ l) [] c = Some z ->
    rep_loop ea [] true k n lo l s c = Some z.
Proof.
  intros [Hnil Hcons].
  induction s as [|a s IH]; intros l c n lo Hs Hlo Hn Hk.
  - simpl in Hlo, Hk. assert (lo = 0) by lia. subst lo.
    destruct n as [|n]; simpl; [exact Hk|]. now rewrite Hnil.
  - destruct n as [|n]; [simpl in Hn; lia|].
    inversion Hs as [|? ? Ha Hs']; subst.
    assert (Hrec : rep_loop ea [] true k n (pred lo) (a :: l) s c = Some z).
    { apply IH; [assumption|simpl in Hlo; lia|simpl in Hn; lia|].
      simpl in Hk. now rewrite <- app_assoc in Hk. }
    cbn [rep_loop]. rewrite Hcons, Ha.
    change (clear_caps [] c) with c.
    replace (length s =? length (a :: s)) with false
      by (symmetry; apply Nat.eqb_neq; simpl; lia).
    rewrite andb_false_r, Hrec.
    destruct (lo =? 0); reflexivity.
Qed.

Lemma k21_eq l0 l1 l2 s2 c2 :
  k21 l0 l1 l2 s2 c2 =
  if starts_21 s2
  then Some (rev (firstn 2 s2) ++ l2, skipn 2 s2,
             set_cap 0 (between l0 (rev (firstn 2 s2) ++ l2)) (set_cap 1 (between l1 l2) c2))
  else None.
Proof.
  unfold k21. destruct s2 as [|x [|y s2]]; cbn -[ch];
    repeat match goal with
           | |- context [if ch ?x ?y then _ else _] => destruct (ch x y)
           end; reflexivity.
Qed.

(** A lazy run stops at the first 21. *)
Lemma lazy_scan ea l0 l1 c :
  unit_matcher result is_alnum ea ->
  forall rest pre n,
    Forall (fun a => is_alnum a = true) rest -> length rest <= n ->
    match upto_21 rest with
    | Some b =>
        exists l3 s3 c3,
          rep_loop ea [] false (k21 l0 l1) n 0 (rev pre ++ l1) rest c
          = Some (l3, s3, c3) /\ c3 1 = Some (pre ++ b)
    | None =>
        rep_loop ea [] false (k21 l0 l1) n 0 (rev pre ++ l1) rest c = None
    end.
Proof.
  intros [Hnil Hcons].
  induction rest as [|a rest IH]; intros pre n Hr Hn.
  - cbn [upto_21]. destruct n; cbn [rep_loop Nat.eqb]; rewrite k21_eq; cbn [starts_21];
      [reflexivity|apply Hnil].
  - destruct n as [|n]; [simpl in Hn; lia|].
    inversion Hr as [|? ? Ha Hr']; subst.
    cbn [rep_loop Nat.eqb]. rewrite k21_eq.
    cbn [upto_21].
    destruct (starts_21 (a :: rest)) eqn:E.
    + eexists _, _, _. split; [reflexivity|].
      unfold set_cap. simpl. now rewrite between_app, app_nil_r.
    + rewrite Hcons, Ha.
      replace (length rest =? length (a :: rest)) with false
        by (symmetry; apply Nat.eqb_neq; simpl; lia).
      cbn [andb pred]. change (clear_caps [] c) with c.
      specialize (IH (pre ++ [a]) n Hr' ltac:(simpl in Hn; lia)).
      rewrite rev_app_distr in IH. simpl in IH.
      destruct (upto_21 rest) as [b|]; simpl.
      * destruct IH as (l3 & s3 & c3 & H1 & H2).
        exists l3, s3, c3. split; [exact H1|]. now rewrite H2, <- app_assoc.
      * exact IH.
Qed.

Lemma Forall_skipn_alnum n (t : str) :
  Forall (fun a => is_alnum a = true) t -> Forall (fun a => is_alnum a = true) (skipn n t).
Proof.
  revert t. induction n as [|n IH]; intros [|a t] H; simpl; auto.
  inversion H; subst. auto.
Qed.

Lemma skipn_S_tl (n : nat) (t : str) : skipn (S n) t = tl (skipn n t).
Proof.
  revert t. induction n as [|n IH]; intros [|a t]; try reflexivity.
  simpl skipn at 2. rewrite <- IH. reflexivity.
Qed.

Lemma upto_21_tl (t : str) : upto_21 t = None -> upto_21 (tl t) = None.
Proof.
  destruct t as [|a t]; [reflexivity|]. cbn [upto_21 tl].
  destruct (starts_21 (a :: t)); [discriminate|].
  destruct (upto_21 t); [discriminate|reflexivity].
Qed.

Lemma before_21_none (v : str) : upto_21 (tl v) = None -> before_21 v = None.
Proof. destruct v as [|a r]; [reflexivity|]. simpl. now intros ->. Qed.

(** The second batch pattern at one position. *)
Lemma match_at_batchToEnd l t :
  Forall (fun a => is_alnum a = true) t ->
  if starts_17_10 t && nonempty (skipn 10 t)
  then exists l3 s3 c3,
         match_at re_batchToEnd l t = Some (l3, s3, c3) /\ c3 1 = Some (skipn 10 t)
  else match_at re_batchToEnd l t = None.
Proof.
  intros Ht.
  change (match_at re_batchToEnd l t)
    with (exec (seqs [lit "17"; exactly 6 digit; lit "10"; Group 1 (plus (Chr is_alnum))])
               l t no_caps
               (fun l' s' c' => Some (l', s', set_cap 0 (between l l') c'))).
  rewrite head_exec.
  destruct (starts_17_10 t); [|reflexivity].
  set (l1 := rev (firstn 10 t) ++ l).
  pose proof (Forall_skipn_alnum 10 t Ht) as Hv.
  destruct (skipn 10 t) as [|a v] eqn:Ev; cbn [andb nonempty]; [reflexivity|].
  change (exec (Group 1 (plus (Chr is_alnum))) l1 (a :: v) no_caps
            (fun l' s' c' => Some (l', s', set_cap 0 (between l l') c')))
    with (rep_loop (exec (Chr is_alnum)) [] true
            (fun l2 s2 c2 =>
               Some (l2, s2, set_cap 0 (between l l2) (set_cap 1 (between l1 l2) c2)))
            (1 + length (a :: v)) 1 l1 (a :: v) no_caps).
  eexists _, _, _. split.
  - apply (greedy_all _ is_alnum); [apply unit_matcher_chr|assumption|simpl; lia|lia|].
    reflexivity.
  - unfold set_cap. simpl Nat.eqb. cbv iota. now rewrite between_app.
Qed.

(** The first batch pattern at one position. *)
Lemma match_at_batchBeforeSerial l t :
  Forall (fun a => is_alnum a = true) t ->
  match (if starts_17_10 t then before_21 (skipn 10 t) else None) with
  | Some b =>
      exists l3 s3 c3,
        match_at re_batchBeforeSerial l t = Some (l3, s3, c3) /\ c3 1 = Some b
  | None => match_at re_batchBeforeSerial l t = None
  end.
Proof.
  intros Ht.
  change (match_at re_batchBeforeSerial l t)
    with (exec (seqs [lit "17"; exactly 6 digit; lit "10";
                      Seq (Group 1 (plus_lazy (Chr is_alnum))) (lit "21")])
               l t no_caps
               (fun l' s' c' => Some (l', s', set_cap 0 (between l l') c'))).
  rewrite head_exec.
  destruct (starts_17_10 t); [|reflexivity].
  set (l1 := rev (firstn 10 t) ++ l).
  pose proof (Forall_skipn_alnum 10 t Ht) as Hv.
  destruct (skipn 10 t) as [|a v] eqn:Ev; [reflexivity|].
  inversion Hv as [|? ? Ha Hv']; subst.
  change (exec (Seq (Group 1 (plus_lazy (Chr is_alnum))) (lit "21")) l1 (a :: v) no_caps
            (fun l' s' c' => Some (l', s', set_cap 0 (between l l') c')))
    with (rep_loop (exec (Chr is_alnum)) [] false (k21 l l1)
            (1 + length (a :: v)) 1 l1 (a :: v) no_caps).
  cbn [Nat.add length rep_loop Nat.eqb exec]. rewrite Ha.
  replace (length v =? S (length v)) with false by (symmetry; apply Nat.eqb_neq; lia).
  cbn [andb pred]. change (clear_caps [] no_caps) with no_caps.
  pose proof (lazy_scan (exec (Chr is_alnum)) l l1 no_caps (unit_matcher_chr _ _)
                v [a] (S (length v)) Hv' ltac:(lia)) as H.
  cbn [before_21]. destruct (upto_21 v) as [b|]; exact H.
Qed.

Lemma search_batchToEnd t :
  forall l,
    Forall (fun a => is_alnum a = true) t ->
    match value_after_17_10 t with
    | Some v =>
        exists l3 s3 c3, search_from re_batchToEnd l t = Some (l3, s3, c3) /\ c3 1 = Some v
    | None => search_from re_batchToEnd l t = None
    end.
Proof.
  induction t as [|a t IH]; intros l Ht.
  - pose proof (match_at_batchToEnd l [] Ht) as H. simpl in H.
    cbn [value_after_17_10 search_from]. now rewrite H.
  - pose proof (match_at_batchToEnd l (a :: t) Ht) as H.
    cbn [value_after_17_10 search_from].
    destruct (starts_17_10 (a :: t) && nonempty (skipn 10 (a :: t))).
    + destruct H as (l3 & s3 & c3 & H1 & H2). rewrite H1. eauto.
    + rewrite H. apply IH. now inversion Ht.
Qed.

Lemma search_batchBeforeSerial_none t :
  forall l,
    Forall (fun a => is_alnum a = true) t ->
    upto_21 (skipn 11 t) = None ->
    search_from re_batchBeforeSerial l t = None.
Proof.
  induction t as [|a t IH]; intros l Ht Hn.
  - pose proof (match_at_batchBeforeSerial l [] Ht) as H. simpl in H.
    cbn [search_from]. now rewrite H.
  - pose proof (match_at_batchBeforeSerial l (a :: t) Ht) as H.
    rewrite (before_21_none (skipn 10 (a :: t))) in H
      by (rewrite <- skipn_S_tl; exact Hn).
    assert (H' : match_at re_batchBeforeSerial l (a :: t) = None)
      by (destruct (starts_17_10 (a :: t)); exact H).
    cbn [search_from]. rewrite H'. apply IH; [now inversion Ht|].
    apply upto_21_tl in Hn. rewrite <- skipn_S_tl in Hn. exact Hn.
Qed.

Lemma search_batchBeforeSerial t :
  forall l,
    Forall (fun a => is_alnum a = true) t ->
    match value_after_17_10 t with
    | Some v =>
        match before_21 v with
        | Some b =>
            exists l3 s3 c3,
              search_from re_batchBeforeSerial l t = Some (l3, s3, c3) /\ c3 1 = Some b
        | None => search_from re_batchBeforeSerial l t = None
        end
    | None => search_from re_batchBeforeSerial l t = None
    end.
Proof.
  induction t as [|a t IH]; intros l Ht.
  - pose proof (match_at_batchBeforeSerial l [] Ht) as H. simpl in H.
    cbn [value_after_17_10 search_from]. now rewrite H.
  - pose proof (match_at_batchBeforeSerial l (a :: t) Ht) as H.
    assert (Ht' : Forall (fun a => is_alnum a = true) t) by now inversion Ht.
    cbn [value_after_17_10 search_from].
    destruct (starts_17_10 (a :: t)) eqn:Es; cbn [andb].
    + destruct (nonempty (skipn 10 (a :: t))) eqn:En.
      * destruct (before_21 (skipn 10 (a :: t))) as [b|] eqn:Eb.
        -- destruct H as (l3 & s3 & c3 & H1 & H2). rewrite H1. eauto.
        -- rewrite H. apply search_batchBeforeSerial_none; [assumption|].
           change (skipn 11 t) with (skipn 12 (a :: t)).
           rewrite skipn_S_tl. apply upto_21_tl.
           rewrite skipn_S_tl.
           destruct (skipn 10 (a :: t)) as [|x r]; [discriminate|].
           simpl in Eb. cbn [tl]. destruct (upto_21 r); [discriminate|reflexivity].
      * destruct (skipn 10 (a :: t)); [|discriminate].
        cbn [before_21] in H. rewrite H. now apply IH.
    + rewrite H. now apply IH.
Qed.

(** On a text of letters and digits the batch of the fallback is the batch
    by position. *)
Lemma concat_batch_by_position (t : str) :
  Forall (fun a => is_alnum a = true) t -> concat_batch t = batch_by_position t.
Proof.
  intros Ht. unfold concat_batch, batch_by_position, exec_re, grp.
  pose proof (search_batchBeforeSerial t [] Ht) as H1.
  pose proof (search_batchToEnd t [] Ht) as H2.
  destruct (value_after_17_10 t) as [v|].
  - destruct (before_21 v) as [b|].
    + destruct H1 as (l3 & s3 & c3 & -> & ->). reflexivity.
    + rewrite H1. destruct H2 as (l3 & s3 & c3 & -> & ->). reflexivity.
  - now rewrite H1, H2.
Qed.

Lemma starts_21_run (s : str) : starts_21 (alnum_run s) = starts_21 s.
Proof.
  destruct s as [|x [|y s]]; cbn [alnum_run starts_21].
  - reflexivity.
  - destruct (is_alnum x); reflexivity.
  - destruct (ch "2" x) eqn:Ex.
    + apply Ascii.eqb_eq in Ex. subst x. cbn [andb].
      change (is_alnum "2") with true. cbv iota.
      destruct (ch "1" y) eqn:Ey.
      * apply Ascii.eqb_eq in Ey. subst y. reflexivity.
      * destruct (is_alnum y); cbn [starts_21]; [|reflexivity].
        change (ch "2" "2") with true. now rewrite Ey.
    + destruct (is_alnum x); [|reflexivity]. destruct (is_alnum y); cbn [starts_21].
      * now rewrite Ex.
      * reflexivity.
Qed.

(** A greedy run takes the longest start of letters and digits, when the
    continuation accepts what follows. *)
Lemma greedy_run (R : Type) ea (k : cont R) (z : R) :
  unit_matcher R is_alnum ea ->
  forall s l c n lo,
    lo <= length (alnum_run s) -> length s <= n ->
    k (rev (alnum_run s) ++ l) (skipn (length (alnum_run s)) s) c = Some z ->
    rep_loop ea [] true k n lo l s c = Some z.
Proof.
  intros [Hnil Hcons].
  induction s as [|a s IH]; intros l c n lo Hlo Hn Hk.
  - simpl in Hlo, Hk. assert (lo = 0) by lia. subst lo.
    destruct n as [|n]; simpl; [exact Hk|]. now rewrite Hnil.
  - cbn [alnum_run] in Hlo, Hk. destruct (is_alnum a) eqn:Ha.
    + destruct n as [|n]; [simpl in Hn; lia|].
      assert (Hrec : rep_loop ea [] true k n (pred lo) (a :: l) s c = Some z).
      { apply IH; [simpl in Hlo; lia|simpl in Hn; lia|].
        cbn [length skipn rev] in Hk. now rewrite <- app_assoc in Hk. }
      cbn [rep_loop]. rewrite Hcons, Ha.
      change (clear_caps [] c) with c.
      replace (length s =? length (a :: s)) with false
        by (symmetry; apply Nat.eqb_neq; simpl; lia).
      rewrite andb_false_r, Hrec.
      destruct (lo =? 0); reflexivity.
    + simpl in Hlo, Hk. assert (lo = 0) by lia. subst lo.
      destruct n as [|n]; cbn [rep_loop Nat.eqb]; [exact Hk|].
      now rewrite Hcons, Ha.
Qed.

(** A lazy run stops at the first 21 that it reaches through letters and
    digits. *)
Lemma lazy_scan_run ea l0 l1 c :
  unit_matcher result is_alnum ea ->
  forall rest pre n,
    length rest <= n ->
    match upto_21 (alnum_run rest) with
    | Some b =>
        exists l3 s3 c3,
          rep_loop ea [] false (k21 l0 l1) n 0 (rev pre ++ l1) rest c
          = Some (l3, s3, c3) /\ c3 1 = Some (pre ++ b)
    | None =>
        rep_loop ea [] false (k21 l0 l1) n 0 (rev pre ++ l1) rest c = None
    end.
Proof.
  intros [Hnil Hcons].
  induction rest as [|a rest IH]; intros pre n Hn.
  - cbn [alnum_run upto_21]. destruct n; cbn [rep_loop Nat.eqb]; rewrite k21_eq;
      cbn [starts_21]; [reflexivity|apply Hnil].
  - destruct n as [|n]; [simpl in Hn; lia|].
    cbn [rep_loop Nat.eqb]. rewrite k21_eq.
    pose proof (starts_21_run (a :: rest)) as Hs.
    destruct (starts_21 (a :: rest)) eqn:E.
    + assert (Hu : upto_21 (alnum_run (a :: rest)) = Some []).
      { destruct (alnum_run (a :: rest)) as [|x r]; [discriminate|].
        cbn [upto_21]. now rewrite Hs. }
      rewrite Hu. eexists _, _, _. split; [reflexivity|].
      unfold set_cap. simpl. now rewrite between_app, app_nil_r.
    + rewrite Hcons. cbn [alnum_run] in Hs |- *. destruct (is_alnum a) eqn:Ha.
      * replace (length rest =? length (a :: rest)) with false
          by (symmetry; apply Nat.eqb_neq; simpl; lia).
        cbn [andb pred]. change (clear_caps [] c) with c.
        specialize (IH (pre ++ [a]) n ltac:(simpl in Hn; lia)).
        rewrite rev_app_distr in IH. simpl in IH.
        cbn [upto_21]. rewrite Hs.
        destruct (upto_21 (alnum_run rest)) as [b|]; simpl.
        -- destruct IH as (l3 & s3 & c3 & H1 & H2).
           exists l3, s3, c3. split; [exact H1|]. now rewrite H2, <- app_assoc.
        -- exact IH.
      * reflexivity.
Qed.

Lemma match_at_batchToEnd_run l t :
  if starts_17_10 t && nonempty (alnum_run (skipn 10 t))
  then exists l3 s3 c3,
         match_at re_batchToEnd l t = Some (l3, s3, c3) /\
         c3 1 = Some (alnum_run (skipn 10 t))
  else match_at re_batchToEnd l t = None.
Proof.
  change (match_at re_batchToEnd l t)
    with (exec (seqs [lit "17"; exactly 6 digit; lit "10"; Group 1 (plus (Chr is_alnum))])
               l t no_caps
               (fun l' s' c' => Some (l', s', set_cap 0 (between l l') c'))).
  rewrite head_exec.
  destruct (starts_17_10 t); [|reflexivity].
  set (l1 := rev (firstn 10 t) ++ l).
  destruct (skipn 10 t) as [|a v] eqn:Ev; cbn [andb nonempty Gs1.nonempty alnum_run];
    [reflexivity|].
  change (exec (Group 1 (plus (Chr is_alnum))) l1 (a :: v) no_caps
            (fun l' s' c' => Some (l', s', set_cap 0 (between l l') c')))
    with (rep_loop (exec (Chr is_alnum)) [] true
            (fun l2 s2 c2 =>
               Some (l2, s2, set_cap 0 (between l l2) (set_cap 1 (between l1 l2) c2)))
            (1 + length (a :: v)) 1 l1 (a :: v) no_caps).
  destruct (is_alnum a) eqn:Ha; cbn [nonempty Gs1.nonempty].
  - eexists _, _, _. split.
    + apply greedy_run; [apply unit_matcher_chr| | |].
      * cbn [alnum_run]. rewrite Ha. simpl. lia.
      * lia.
      * reflexivity.
    + unfold set_cap. simpl Nat.eqb. cbv iota. cbn [alnum_run]. rewrite Ha.
      now rewrite between_app.
  - cbn [Nat.add length rep_loop Nat.eqb exec]. now rewrite Ha.
Qed.

Lemma match_at_batchBeforeSerial_run l t :
  match (if starts_17_10 t then before_21 (alnum_run (skipn 10 t)) else None) with
  | Some b =>
      exists l3 s3 c3,
        match_at re_batchBeforeSerial l t = Some (l3, s3, c3) /\ c3 1 = Some b
  | None => match_at re_batchBeforeSerial l t = None
  end.
Proof.
  change (match_at re_batchBeforeSerial l t)
    with (exec (seqs [lit "17"; exactly 6 digit; lit "10";
                      Seq (Group 1 (plus_lazy (Chr is_alnum))) (lit "21")])
               l t no_caps
               (fun l' s' c' => Some (l', s', set_cap 0 (between l l') c'))).
  rewrite head_exec.
  destruct (starts_17_10 t); [|reflexivity].
  set (l1 := rev (firstn 10 t) ++ l).
  destruct (skipn 10 t) as [|a v] eqn:Ev; [reflexivity|].
  change (exec (Seq (Group 1 (plus_lazy (Chr is_alnum))) (lit "21")) l1 (a :: v) no_caps
            (fun l' s' c' => Some (l', s', set_cap 0 (between l l') c')))
    with (rep_loop (exec (Chr is_alnum)) [] false (k21 l l1)
            (1 + length (a :: v)) 1 l1 (a :: v) no_caps).
  cbn [Nat.add length rep_loop Nat.eqb exec alnum_run].
  destruct (is_alnum a) eqn:Ha; [|reflexivity].
  replace (length v =? S (length v)) with false by (symmetry; apply Nat.eqb_neq; lia).
  cbn [andb pred]. change (clear_caps [] no_caps) with no_caps.
  pose proof (lazy_scan_run (exec (Chr is_alnum)) l l1 no_caps (unit_matcher_chr _ _)
                v [a] (S (length v)) ltac:(lia)) as H.
  cbn [before_21]. destruct (upto_21 (alnum_run v)) as [b|]; exact H.
Qed.

Lemma search_batchToEnd_run t :
  forall l,
    match value_run t with
    | Some v =>
        exists l3 s3 c3, search_from re_batchToEnd l t = Some (l3, s3, c3) /\ c3 1 = Some v
    | None => search_from re_batchToEnd l t = None
    end.
Proof.
  induction t as [|a t IH]; intros l.
  - pose proof (match_at_batchToEnd_run l []) as H. simpl in H.
    cbn [value_run search_from]. now rewrite H.
  - pose proof (match_at_batchToEnd_run l (a :: t)) as H.
    cbn [value_run search_from].
    destruct (starts_17_10 (a :: t) && nonempty (alnum_run (skipn 10 (a :: t)))).
    + destruct H as (l3 & s3 & c3 & H1 & H2). rewrite H1. eauto.
    + rewrite H. apply IH.
Qed.

Lemma search_batchBeforeSerial_run t :
  forall l,
    match value_before_21 t with
    | Some b =>
        exists l3 s3 c3,
          search_from re_batchBeforeSerial l t = Some (l3, s3, c3) /\ c3 1 = Some b
    | None => search_from re_batchBeforeSerial l t = None
    end.
Proof.
  induction t as [|a t IH]; intros l.
  - pose proof (match_at_batchBeforeSerial_run l []) as H. simpl in H.
    cbn [value_before_21 search_from]. now rewrite H.
  - pose proof (match_at_batchBeforeSerial_run l (a :: t)) as H.
    cbn [value_before_21 search_from].
    destruct (if starts_17_10 (a :: t) then before_21 (alnum_run (skipn 10 (a :: t)))
              else None) as [b|].
    + destruct H as (l3 & s3 & c3 & H1 & H2). rewrite H1. eauto.
    + rewrite H. apply IH.
Qed.

Lemma concat_batch_of_text (t : str) : concat_batch t = batch_of_text t.
Proof.
  unfold concat_batch, batch_of_text, exec_re, grp.
  pose proof (search_batchBeforeSerial_run t []) as H1.
  pose proof (search_batchToEnd_run t []) as H2.
  destruct (value_before_21 t) as [b|].
  - destruct H1 as (l3 & s3 & c3 & -> & ->). reflexivity.
  - rewrite H1. destruct (value_run t) as [v|].
    + destruct H2 as (l3 & s3 & c3 & -> & ->). reflexivity.
    + now rewrite H2.
Qed.

(** C5 as the specification states it fails: the batch does not run to
    the end of the text, nor to the 21, across a unit that is not a letter
    or a digit.  On a text whose AI 10 value is AB-12345678 the batch is AB,
    and with a 21 after AB-12 it is AB as well. *)
Lemma batch_stops_at_separator :
  (exists r,
     parseConcatenatedGs1 $"01003501115610141727022810AB-12345678" = Some r /\
     batch_no r = $"AB" /\
     batch_by_position $"01003501115610141727022810AB-12345678" = $"AB-12345678") /\
  (exists r,
     parseConcatenatedGs1 $"01003501115610141727022810AB-1221943321" = Some r /\
     batch_no r = $"AB" /\
     batch_by_position $"01003501115610141727022810AB-1221943321" = $"AB-12").
Proof.
  split; (eexists; split; [vm_compute; reflexivity|]; split; vm_compute; reflexivity).
Qed.

(** C5, amended. On the text
    0100350111561014211010454151481217270531107981055 the fallback decoder
    returns the GTIN 00350111561014 and the batch 7981055, the value after
    the 10 that follows 17 and six digits, not the 10 inside the GTIN.  In
    general the batch is found at the leftmost place where 17, six digits
    and 10 are followed by letters and digits that hold a 21 after their
    first unit, and is these letters and digits up to that 21; when there
    is no such place, it is the longest run of letters and digits after the
    leftmost 17, six digits and 10 that a letter or digit follows; it is
    empty otherwise.  For a text of
    letters and digits only, this is the value after the first 17, six
    digits and 10, ended before the first 21 that comes after at least one
    unit of the value, and running to the end of the text when there is no
    such 21. *)
Theorem concatenated_batch (s : str) (r : Gs1LabelResult) :
  (exists r0,
     parseConcatenatedGs1 $"0100350111561014211010454151481217270531107981055" = Some r0 /\
     upc_gtin r0 = Some $"00350111561014" /\ batch_no r0 = $"7981055" /\
     expiry r0 = $"2027-05-31") /\
  (parseConcatenatedGs1 s = Some r -> batch_no r = batch_of_text (Str.strip_ws s)) /\
  (parseConcatenatedGs1 s = Some r ->
   Forall (fun a => is_alnum a = true) (Str.strip_ws s) ->
   batch_no r = batch_by_position (Str.strip_ws s)).
Proof.
  split; [|split].
  - eexists. split; [vm_compute; reflexivity|]. repeat split; reflexivity.
  - unfold parseConcatenatedGs1.
    destruct (length (Str.strip_ws s) <? 20); [discriminate|].
    match goal with |- (if ?b then _ else _) = _ -> _ => destruct b end; [discriminate|].
    intros [= <-]. cbn [batch_no]. apply concat_batch_of_text.
  - unfold parseConcatenatedGs1.
    destruct (length (Str.strip_ws s) <? 20); [discriminate|].
    match goal with |- (if ?b then _ else _) = _ -> _ => destruct b end; [discriminate|].
    intros [= <-] Ht. cbn [batch_no]. now apply concat_batch_by_position.
Qed.

(** A text with a 21 after the batch, and a text with a hyphen in the
    value of AI 10. *)
Lemma concatenated_batch_witness :
  (exists r,
     parseConcatenatedGs1 $"01003501115610141727022810MK870121943321361918" = Some r /\
     batch_by_position $"01003501115610141727022810MK870121943321361918" = $"MK8701" /\
     batch_no r =
     batch_by_position (Str.strip_ws $"01003501115610141727022810MK870121943321361918")) /\
  (exists r,
     parseConcatenatedGs1 $"01003501115610141727022810AB-12345678" = Some r /\
     batch_of_text $"01003501115610141727022810AB-12345678" = $"AB" /\
     batch_no r = batch_of_text (Str.strip_ws $"01003501115610141727022810AB-12345678")).
Proof.
  split.
  - eexists. split; [vm_compute; reflexivity|]. split; [vm_compute; reflexivity|].
    eapply (proj2 (proj2 (concatenated_batch
                            $"01003501115610141727022810MK870121943321361918" _))).
    + vm_compute. reflexivity.
    + apply Forall_forall. apply (proj1 (forallb_forall _ _)). vm_compute. reflexivity.
  - eexists. split; [vm_compute; reflexivity|]. split; [vm_compute; reflexivity|].
    eapply (proj1 (proj2 (concatenated_batch
                            $"01003501115610141727022810AB-12345678" _))).
    vm_compute. reflexivity.
Defined.

End BatchFacts.

(** ** When a six-digit value counts as a date *)

Module YymmddFacts.
Import ReAnalysis CharFacts MtFacts ReMap Mapper.

Lemma digit_not_sign c :
  is_digit c = true -> Ascii.eqb c "-"%char = false /\ Ascii.eqb c "+"%char = false.
Proof.
  intros H.
  pose proof (all2_spec
    (fun c _ => implb (is_digit c)
                  (negb (Ascii.eqb c "-"%char) && negb (Ascii.eqb c "+"%char)))
    ltac:(vm_compute; reflexivity) c c) as H0.
  cbv beta in H0. rewrite H in H0. simpl in H0.
  apply andb_prop in H0 as [H1 H2]. now rewrite negb_true_iff in H1, H2.
Qed.

Lemma parseInt_two_digits a b :
  is_digit a = true -> is_digit b = true ->
  Str.parseInt [a; b] = Some (10 * Str.digit_val a + Str.digit_val b)%Z.
Proof.
  intros Ha Hb. unfold Str.parseInt, Str.trimStart. cbn [Str.drop_while].
  rewrite (digit_not_space a Ha).
  destruct (digit_not_sign a Ha) as [-> ->].
  rewrite Ha, Hb. reflexivity.
Qed.

(** [isLikelyYYMMDD] on six digits: the month is 1 to 12 and the day 1 to
    31. *)
Lemma isLikelyYYMMDD_six_digits (y1 y2 m1 m2 d1 d2 : ascii) :
  Forall (fun c => is_digit c = true) [y1; y2; m1; m2; d1; d2] ->
  isLikelyYYMMDD [y1; y2; m1; m2; d1; d2] =
  LabelPatterns.num_between 1 12 (Some (10 * Str.digit_val m1 + Str.digit_val m2)%Z)
  && LabelPatterns.num_between 1 31 (Some (10 * Str.digit_val d1 + Str.digit_val d2)%Z).
Proof.
  intros H. unfold isLikelyYYMMDD.
  assert (Ht : test re_sixDigits [y1; y2; m1; m2; d1; d2] = true).
  { destruct (exec_re_map_some absf re_sixDigits [y1; y2; m1; m2; d1; d2])
      as [c Hc]; [reflexivity| |unfold test; now rewrite Hc].
    rewrite (map_absf_digits _ H). reflexivity. }
  rewrite Ht. cbn [negb].
  inversion H as [|? ? _ H1]; subst. inversion H1 as [|? ? _ H2]; subst.
  inversion H2 as [|? ? Hm1 H3]; subst. inversion H3 as [|? ? Hm2 H4]; subst.
  inversion H4 as [|? ? Hd1 H5]; subst. inversion H5 as [|? ? Hd2 _]; subst.
  unfold Str.slice. cbn [skipn firstn Nat.sub].
  now rewrite (parseInt_two_digits m1 m2 Hm1 Hm2), (parseInt_two_digits d1 d2 Hd1 Hd2).
Qed.

End YymmddFacts.

(** ** The GS1 decoder: what a result holds *)

Module Gs1ResultFacts.
Import ReAnalysis ShapeFacts StrFacts MtFacts YymmddFacts Gs1 Gs1Facts.

Lemma drop_while_incl p (s : str) x : In x (Str.drop_while p s) -> In x s.
Proof.
  induction s as [|c s IH]; simpl; [auto|].
  destruct (p c); [auto|]. now simpl.
Qed.

Lemma trim_incl (s : str) x : In x (Str.trim s) -> In x s.
Proof.
  unfold Str.trim, Str.trimEnd, Str.trimStart. intros H.
  apply in_rev, drop_while_incl, in_rev, drop_while_incl in H. exact H.
Qed.

Lemma replace_char_gone x y (s : str) : x <> y -> ~ In x (Str.replace_char x y s).
Proof.
  intros Hxy. unfold Str.replace_char. rewrite in_map_iff. intros (c & Hc & _).
  destruct (Ascii.eqb x c) eqn:E; [now subst|].
  apply Ascii.eqb_neq in E. now subst.
Qed.

Lemma replace_char_absent x y (s : str) : ~ In x s -> Str.replace_char x y s = s.
Proof.
  unfold Str.replace_char. induction s as [|c s IH]; simpl; intros H; [reflexivity|].
  destruct (Ascii.eqb x c) eqn:E.
  - apply Ascii.eqb_eq in E. subst. exfalso. apply H. now left.
  - f_equal. apply IH. intros Hin. apply H. now right.
Qed.

Lemma preprocess_no_pipe (raw : str) : ~ In "|"%char (preprocess raw).
Proof.
  unfold preprocess. destruct raw as [|a raw]; [simpl; tauto|].
  intros H. apply trim_incl in H. revert H. now apply replace_char_gone.
Qed.

Lemma preprocess_tight (raw : str) : tight (preprocess raw).
Proof.
  unfold preprocess. destruct raw as [|a raw]; [split; exact I|apply trim_tight].
Qed.

(** X1. Normalizing a scan is idempotent: the normalized text holds no
    pipe and no white space at either end, so normalizing it again changes
    nothing; the dashboard's [preprocessScan] computes the same text as the
    scanner's [preprocess]. *)
Theorem preprocess_idempotent (raw : str) :
  preprocess (preprocess raw) = preprocess raw /\
  ~ In "|"%char (preprocess raw) /\ tight (preprocess raw) /\
  Dashboard.preprocessScan raw = preprocess raw.
Proof.
  split; [|split; [apply preprocess_no_pipe|split; [apply preprocess_tight|reflexivity]]].
  pose proof (preprocess_no_pipe raw) as Hp. pose proof (preprocess_tight raw) as Ht.
  destruct (preprocess raw) as [|a t] eqn:E; [reflexivity|].
  unfold preprocess at 1. rewrite (replace_char_absent _ _ _ Hp).
  now apply trim_tight_id.
Qed.

Lemma present_some (x y : str) : present x = Some y -> x = y /\ y <> [].
Proof. destruct x; [discriminate|]. intros [= <-]. split; [reflexivity|discriminate]. Qed.

Lemma slice_length a b (s : str) : length (Str.slice a b s) <= b - a.
Proof. unfold Str.slice. rewrite length_firstn. lia. Qed.

(** X2. The fields found by the positional fallback have the shapes of
    their patterns: the GTIN is 14 digits, the serial 1 to 20 letters and
    digits, the batch letters and digits only, and a result is only given
    for a text of at least 20 units without its white space. *)
Theorem concatenated_field_shapes (s : str) (r : Gs1LabelResult) :
  parseConcatenatedGs1 s = Some r ->
  20 <= length (Str.strip_ws s) /\
  (forall g, upc_gtin r = Some g -> shaped is_digit 14 14 g) /\
  (forall x, serial r = Some x -> shaped is_alnum 1 20 x) /\
  Forall (fun c => is_alnum c = true) (batch_no r).
Proof.
  unfold parseConcatenatedGs1. set (t := Str.strip_ws s).
  destruct (length t <? 20) eqn:L; [discriminate|]. apply Nat.ltb_ge in L.
  match goal with |- (if ?b then _ else _) = _ -> _ => destruct b end; [discriminate|].
  intros [= <-]. cbn [upc_gtin serial batch_no].
  split; [exact L|]. split; [|split].
  - intros g Hg. apply present_some in Hg as [Hg Hne].
    destruct (exec_re re_gtin t) as [c|] eqn:E; [|now subst].
    subst g. eapply exec_re_grp; [exact E|chk].
  - intros x Hx. apply present_some in Hx as [Hx Hne].
    destruct (exec_re re_serial t) as [c|] eqn:E; [|now subst].
    subst x. eapply exec_re_grp; [exact E|chk].
  - unfold concat_batch.
    destruct (exec_re re_batchBeforeSerial t) as [c|] eqn:E1.
    { destruct (exec_re_body re_batchBeforeSerial t c 1 (plus_lazy (Chr is_alnum)) E1)
        as (l & s' & Hm); [chk|reflexivity|].
      eapply mt_chars; [|exact Hm]. chk. }
    destruct (exec_re re_batchToEnd t) as [c|] eqn:E2; [|constructor].
    destruct (exec_re_body re_batchToEnd t c 1 (plus (Chr is_alnum)) E2)
      as (l & s' & Hm); [chk|reflexivity|].
    eapply mt_chars; [|exact Hm]. chk.
Qed.

Lemma concatenated_field_shapes_witness :
  exists r,
    parseConcatenatedGs1 $"01003501115610141727022810MK870121943321361918" = Some r /\
    20 <= length (Str.strip_ws $"01003501115610141727022810MK870121943321361918") /\
    (forall g, upc_gtin r = Some g -> shaped is_digit 14 14 g) /\
    (forall x, serial r = Some x -> shaped is_alnum 1 20 x) /\
    Forall (fun c => is_alnum c = true) (batch_no r).
Proof.
  eexists. split; [vm_compute; reflexivity|].
  apply (concatenated_field_shapes $"01003501115610141727022810MK870121943321361918").
  vm_compute. reflexivity.
Defined.

(** The expiry pattern at one position. *)
Lemma match_at_exp l t :
  if starts_17 t
  then exists l3 s3 c3,
         match_at re_exp l t = Some (l3, s3, c3) /\ c3 1 = Some (firstn 6 (skipn 2 t))
  else match_at re_exp l t = None.
Proof.
  destruct t as [|a [|b [|d1 [|d2 [|d3 [|d4 [|d5 [|d6 t]]]]]]]];
    cbn -[is_digit ch between];
    repeat match goal with
           | |- context [if ch ?x ?y then _ else _] => destruct (ch x y)
           | |- context [if is_digit ?y then _ else _] => destruct (is_digit y)
           end; try reflexivity.
  eexists _, _, _. split; [reflexivity|].
  unfold set_cap. cbn [Nat.eqb].
  change (d6 :: d5 :: d4 :: d3 :: d2 :: d1 :: b :: a :: l)
    with (rev [d1; d2; d3; d4; d5; d6] ++ (b :: a :: l)).
  now rewrite ReFacts.between_app.
Qed.

Lemma search_exp t :
  forall l,
    match yymmdd_after_17 t with
    | Some d => exists l3 s3 c3, search_from re_exp l t = Some (l3, s3, c3) /\ c3 1 = Some d
    | None => search_from re_exp l t = None
    end.
Proof.
  induction t as [|a t IH]; intros l.
  - reflexivity.
  - pose proof (match_at_exp l (a :: t)) as H.
    cbn [yymmdd_after_17 search_from].
    destruct (starts_17 (a :: t)).
    + destruct H as (l3 & s3 & c3 & H1 & H2). rewrite H1. eauto.
    + rewrite H. apply IH.
Qed.

(** The six digits found by position are digits of the text, after a
    17. *)
Lemma yymmdd_after_17_occurs t d :
  yymmdd_after_17 t = Some d ->
  Forall (fun c => is_digit c = true) d /\ length d = 6 /\
  exists p q, t = p ++ $"17" ++ d ++ q.
Proof.
  induction t as [|a t IH]; [discriminate|].
  cbn [yymmdd_after_17]. destruct (starts_17 (a :: t)) eqn:E.
  - intros [= <-].
    destruct t as [|b [|d1 [|d2 [|d3 [|d4 [|d5 [|d6 t]]]]]]]; try discriminate.
    cbn [starts_17] in E. rewrite !andb_true_iff in E.
    destruct E as [[[[[[[Ea Eb] E1] E2] E3] E4] E5] E6].
    apply Ascii.eqb_eq in Ea, Eb. subst.
    split; [repeat constructor; assumption|]. split; [reflexivity|].
    exists [], t. reflexivity.
  - intros H. destruct (IH H) as (Hd & Hl & p & q & ->).
    split; [exact Hd|]. split; [exact Hl|]. exists (a :: p), q. reflexivity.
Qed.

Lemma concat_expiry_by_position (t : str) :
  match yymmdd_after_17 t with
  | Some d =>
      exists y1 y2 m1 m2 d1 d2,
        d = [y1; y2; m1; m2; d1; d2] /\
        concat_expiry t = century y1 y2 ++ [y1; y2; "-"%char; m1; m2; "-"%char; d1; d2]
  | None => concat_expiry t = []
  end.
Proof.
  unfold concat_expiry, exec_re, grp.
  pose proof (search_exp t []) as H.
  destruct (yymmdd_after_17 t) as [d|] eqn:E; [|now rewrite H].
  destruct H as (l3 & s3 & c3 & -> & ->).
  destruct (yymmdd_after_17_occurs t d E) as (Hd & Hl & _).
  destruct d as [|a [|b [|m1 [|m2 [|d1 [|d2 [|x g]]]]]]]; simpl in Hl; try lia.
  exists a, b, m1, m2, d1, d2. split; [reflexivity|].
  inversion Hd as [|? ? Ha H1a]; subst. inversion H1a as [|? ? Hb _]; subst.
  unfold Str.slice. cbn [skipn firstn Nat.sub app].
  rewrite (parseInt_two_digits a b Ha Hb). unfold century.
  destruct (50 <=? _)%Z; reflexivity.
Qed.

(** X3. The expiry of the positional fallback is read by position: the six
    digits YYMMDD that follow the leftmost 17 followed by six digits in the
    text without its white space, written CCYY-MM-DD, the century being 19
    when YY is 50 or more and 20 otherwise; the expiry is empty when the
    text holds no 17 followed by six digits.  Month and day are any two
    digits: they are not checked. *)
Theorem concatenated_expiry_century (s : str) (r : Gs1LabelResult) :
  parseConcatenatedGs1 s = Some r ->
  match yymmdd_after_17 (Str.strip_ws s) with
  | Some d =>
      exists y1 y2 m1 m2 d1 d2,
        d = [y1; y2; m1; m2; d1; d2] /\
        Forall (fun c => is_digit c = true) d /\
        (exists p q, Str.strip_ws s = p ++ $"17" ++ d ++ q) /\
        expiry r = century y1 y2 ++ [y1; y2; "-"%char; m1; m2; "-"%char; d1; d2]
  | None => expiry r = []
  end.
Proof.
  unfold parseConcatenatedGs1. set (t := Str.strip_ws s).
  destruct (length t <? 20); [discriminate|].
  match goal with |- (if ?b then _ else _) = _ -> _ => destruct b end; [discriminate|].
  intros [= <-]. cbn [expiry].
  pose proof (concat_expiry_by_position t) as H.
  destruct (yymmdd_after_17 t) as [d|] eqn:E; [|exact H].
  destruct H as (y1 & y2 & m1 & m2 & d1 & d2 & Hd & He).
  destruct (yymmdd_after_17_occurs t d E) as (Hf & _ & Hp).
  exists y1, y2, m1, m2, d1, d2. auto.
Qed.

(** The digits 991339 after 17 give the expiry 1999-13-39. *)
Lemma concatenated_expiry_century_witness :
  exists r,
    parseConcatenatedGs1 $"01003501115610141799133910MK870121943321361918" = Some r /\
    yymmdd_after_17 $"01003501115610141799133910MK870121943321361918" = Some $"991339" /\
    expiry r = $"1999-13-39".
Proof.
  eexists. split; [vm_compute; reflexivity|]. split; [vm_compute; reflexivity|].
  pose proof (concatenated_expiry_century
                $"01003501115610141799133910MK870121943321361918" _
                ltac:(vm_compute; reflexivity)) as H.
  replace (yymmdd_after_17
             (Str.strip_ws $"01003501115610141799133910MK870121943321361918"))
    with (Some $"991339") in H by (vm_compute; reflexivity).
  destruct H as (y1 & y2 & m1 & m2 & d1 & d2 & Hd & _ & _ & He).
  injection Hd as <- <- <- <- <- <-. exact He.
Defined.

(** X4. Whatever the library decodes, a result of [parseGs1ToLabelJson]
    never holds an empty GTIN or an empty serial (the key is left out
    instead), and an expiry taken from the library is cut to its first ten
    units, so no expiry is longer than ten units. *)
Theorem parseGs1_result_keys (decode : str -> decoded) (raw : str) (r : Gs1LabelResult) :
  parseGs1ToLabelJson decode raw = Some r ->
  upc_gtin r <> Some [] /\ serial r <> Some [] /\ length (expiry r) <= 10.
Proof.
  unfold parseGs1ToLabelJson.
  destruct (nonempty (preprocess raw)); [|discriminate].
  destruct (primary decode (preprocess raw)) as [r'|] eqn:Ep.
  - intros [= <-]. revert Ep. unfold primary.
    destruct (decode (preprocess raw)) as [|[d|]]; try discriminate.
    destruct (0 <? length d); [|discriminate].
    destruct (elToStr (lookup $"batch" d)) as [b|]; [|discriminate].
    destruct (elToStr (lookup $"expDate" d)) as [e|]; [|discriminate].
    destruct (elToStr (lookup $"gtin" d)) as [g|]; [|discriminate].
    destruct (elToStr (lookup $"serial" d)) as [sn|]; [|discriminate].
    assert (He : length (if nonempty e
                         then if 10 <=? length e then Str.slice 0 10 e else e
                         else []) <= 10).
    { destruct (nonempty e); [|simpl; lia].
      destruct (10 <=? length e) eqn:L.
      - pose proof (slice_length 0 10 e). lia.
      - apply Nat.leb_gt in L. lia. }
    match goal with |- (if ?b then _ else _) = _ -> _ => destruct b end; [|discriminate].
    intros [= <-]. unfold upc_gtin, serial, expiry.
    split; [now destruct g|]. split; [now destruct sn|exact He].
  - unfold parseConcatenatedGs1.
    destruct (length _ <? 20); [discriminate|].
    match goal with |- (if ?b then _ else _) = _ -> _ => destruct b end; [discriminate|].
    intros [= <-]. cbn [upc_gtin serial expiry].
    split; [|split].
    + now destruct (match exec_re re_gtin _ with Some c => grp c 1 | None => [] end).
    + now destruct (match exec_re re_serial _ with Some c => grp c 1 | None => [] end).
    + destruct (concat_expiry_shape (Str.strip_ws (preprocess raw))) as [H|H].
      * rewrite H. simpl. lia.
      * destruct (concat_expiry _) as [|a [|b [|c [|d [|e [|f [|g [|h [|i [|j [|k x]]]]]]]]]]];
          try discriminate. simpl. lia.
Qed.

Lemma parseGs1_result_keys_witness :
  exists r,
    parseGs1ToLabelJson rejecting_decoder
      $"01003501115610141727022810MK870121943321361918" = Some r /\
    upc_gtin r <> Some [] /\ serial r <> Some [] /\ length (expiry r) <= 10.
Proof.
  eexists. split; [vm_compute; reflexivity|].
  apply (parseGs1_result_keys rejecting_decoder
           $"01003501115610141727022810MK870121943321361918").
  vm_compute. reflexivity.
Defined.

End Gs1ResultFacts.

(** ** Digits under the tests of the patterns *)

Module DigitFacts.
Import ReAnalysis CharFacts StrFacts ReMap YymmddFacts.

Lemma exec_re_map_none (f : ascii -> ascii) (r : regex) (s : str) :
  stable_re f r = true -> test r (map f s) = false -> exec_re r s = None.
Proof.
  intros Hst H. pose proof (exec_re_map f r s Hst) as Hm. unfold test in H.
  destruct (exec_re r (map f s)); [discriminate|].
  destruct (exec_re r s); [contradiction|reflexivity].
Qed.

Lemma all1_spec (P : ascii -> bool) : all1 P = true -> forall c, P c = true.
Proof.
  unfold all1. intros H c. rewrite forallb_forall in H.
  exact (H c (all_ascii_complete c)).
Qed.

Lemma alnum_not_space c : is_alnum c = true -> is_space c = false.
Proof.
  intros Hc.
  pose proof (all1_spec (fun c => implb (is_alnum c) (negb (is_space c)))
    ltac:(vm_compute; reflexivity) c) as H.
  cbv beta in H. rewrite Hc in H. now apply negb_true_iff in H.
Qed.

Lemma digit_ch x c : is_digit c = true -> is_digit x = false -> ch x c = false.
Proof.
  intros H1 H2. unfold ch. destruct (Ascii.eqb x c) eqn:E; [|reflexivity].
  apply Ascii.eqb_eq in E. subst. congruence.
Qed.

Lemma digit_upper c : is_digit c = true -> upper c = c.
Proof.
  intros Hc.
  pose proof (all1_spec (fun c => implb (is_digit c) (Ascii.eqb (upper c) c))
    ltac:(vm_compute; reflexivity) c) as H.
  cbv beta in H. rewrite Hc in H. now apply Ascii.eqb_eq in H.
Qed.

Lemma digit_chi x c : is_digit c = true -> is_digit (upper x) = false -> chi x c = false.
Proof.
  intros H1 H2. unfold chi. rewrite (digit_upper c H1).
  destruct (Ascii.eqb (upper x) c) eqn:E; [|reflexivity].
  apply Ascii.eqb_eq in E. subst. congruence.
Qed.

(** Running a pattern on a text of known length whose digits are
    variables: the tests on the variables are settled by the hypotheses,
    the tests on literal units by evaluation. *)
Ltac closed_test t := let v := eval vm_compute in t in change t with v.
Ltac sym_tests :=
  repeat match goal with
         | H : is_digit ?y = true |- context [is_digit ?y] => rewrite H
         | H : is_digit ?y = true |- context [ch ?x ?y] => rewrite (digit_ch x y H eq_refl)
         | H : is_digit ?y = true |- context [chi ?x ?y] => rewrite (digit_chi x y H eq_refl)
         | H : is_digit ?y = true |- context [is_space ?y] => rewrite (digit_not_space y H)
         | |- context [is_digit (Ascii ?a ?b ?c ?d ?e ?f ?g ?h)] =>
             closed_test (is_digit (Ascii a b c d e f g h))
         | |- context [is_space (Ascii ?a ?b ?c ?d ?e ?f ?g ?h)] =>
             closed_test (is_space (Ascii a b c d e f g h))
         | |- context [ch ?x (Ascii ?a ?b ?c ?d ?e ?f ?g ?h)] =>
             closed_test (ch x (Ascii a b c d e f g h))
         | |- context [chi ?x (Ascii ?a ?b ?c ?d ?e ?f ?g ?h)] =>
             closed_test (chi x (Ascii a b c d e f g h))
         end.
Ltac run_pattern := unfold exec_re; cbn; repeat (progress (sym_tests; cbn)).

Lemma digit_upper_units c : is_digit c = true -> Str.upper_units c = [c].
Proof.
  intros H1.
  pose proof (all1_spec
    (fun c => implb (is_digit c) (Str.eqb (Str.upper_units c) [c]))
    ltac:(vm_compute; reflexivity) c) as H.
  cbv beta in H. rewrite H1 in H. now apply eqb_eq in H.
Qed.

Lemma digit_val_range c : is_digit c = true -> (0 <= Str.digit_val c <= 9)%Z.
Proof.
  intros H1.
  pose proof (all1_spec
    (fun c => implb (is_digit c) ((0 <=? Str.digit_val c)%Z && (Str.digit_val c <=? 9)%Z))
    ltac:(vm_compute; reflexivity) c) as H.
  cbv beta in H. rewrite H1 in H. simpl in H. apply andb_prop in H as [Ha Hb]. lia.
Qed.

Lemma two_digits_range a b :
  is_digit a = true -> is_digit b = true -> (0 <= two_digits a b <= 99)%Z.
Proof.
  intros Ha Hb. apply digit_val_range in Ha, Hb. unfold two_digits. lia.
Qed.

Lemma digit_cases c : is_digit c = true -> In c digits10.
Proof.
  intros Hc.
  pose proof (all1_spec (fun c => implb (is_digit c) (existsb (Ascii.eqb c) digits10))
    ltac:(vm_compute; reflexivity) c) as H.
  cbv beta in H. rewrite Hc in H. cbn [implb] in H.
  apply existsb_exists in H as (d & Hd & E). apply Ascii.eqb_eq in E. now subst.
Qed.

(** The numerals of the years 1950 to 2049. *)
Lemma of_Z_century a b :
  is_digit a = true -> is_digit b = true ->
  Str.of_Z ((if (50 <=? two_digits a b)%Z then 1900 else 2000) + two_digits a b)
  = century a b ++ [a; b].
Proof.
  intros Ha Hb. apply digit_cases in Ha, Hb.
  assert (H : forallb (fun a => forallb (fun b =>
                Str.eqb
                  (Str.of_Z ((if (50 <=? two_digits a b)%Z then 1900 else 2000)
                             + two_digits a b))
                  (century a b ++ [a; b])) digits10) digits10 = true)
    by (vm_compute; reflexivity).
  rewrite forallb_forall in H. specialize (H a Ha).
  rewrite forallb_forall in H. specialize (H b Hb). now apply eqb_eq in H.
Qed.

Lemma absd_digit c : is_digit c = true -> absd c = "0"%char.
Proof. unfold absd. now intros ->. Qed.

Lemma plain_units c :
  plain c = true -> is_space c = false /\ Str.upper_units c = [c].
Proof.
  intros H1.
  pose proof (all1_spec
    (fun c => implb (plain c) (negb (is_space c) && Str.eqb (Str.upper_units c) [c]))
    ltac:(vm_compute; reflexivity) c) as H.
  cbv beta in H. rewrite H1 in H. simpl in H. apply andb_prop in H as [Ha Hb].
  split; [now apply negb_true_iff in Ha|now apply eqb_eq in Hb].
Qed.

Lemma plain_upper (s : str) :
  Forall (fun c => plain c = true) s -> Str.toUpperCase s = s.
Proof.
  induction 1 as [|c s Hc _ IH]; [reflexivity|].
  unfold Str.toUpperCase in *. simpl. rewrite IH.
  now rewrite (proj2 (plain_units c Hc)).
Qed.

Lemma plain_trim (s : str) :
  Forall (fun c => plain c = true) s -> Str.trim s = s.
Proof.
  intros H. apply trim_tight_id. split.
  - destruct s as [|c s]; [exact I|]. inversion H; subst. now apply plain_units.
  - apply Forall_rev in H. destruct (rev s) as [|c t]; [exact I|].
    inversion H; subst. now apply plain_units.
Qed.

Lemma digit_plain c : is_digit c = true -> plain c = true.
Proof. unfold plain. now intros ->. Qed.

End DigitFacts.

(** ** The normalizers of the mapper *)

Module MapperExpiryFacts.
Import ReAnalysis CharFacts StrFacts ShapeFacts ReMap YymmddFacts DigitFacts.
Import LabelPatterns Mapper.

Ltac no_match :=
  apply (exec_re_map_none absd); [chk|];
  cbn [map];
  repeat match goal with
         | H : is_digit ?x = true |- context [absd ?x] => rewrite (absd_digit x H)
         end;
  vm_compute; reflexivity.

Lemma exec_mmYySlash2 m1 m2 y1 y2 :
  is_digit m1 = true -> is_digit m2 = true -> is_digit y1 = true -> is_digit y2 = true ->
  exists c, exec_re re_mmYySlash [m1; m2; "/"%char; y1; y2] = Some c /\
            grp c 1 = [m1; m2] /\ grp c 2 = [y1; y2].
Proof.
  intros H1 H2 H3 H4. unfold re_mmYySlash. run_pattern.
  eexists. split; [reflexivity|]. split; reflexivity.
Qed.

Lemma exec_mmYySlash1 m1 y1 y2 :
  is_digit m1 = true -> is_digit y1 = true -> is_digit y2 = true ->
  exists c, exec_re re_mmYySlash [m1; "/"%char; y1; y2] = Some c /\
            grp c 1 = [m1] /\ grp c 2 = [y1; y2].
Proof.
  intros H1 H3 H4. unfold re_mmYySlash. run_pattern.
  eexists. split; [reflexivity|]. split; reflexivity.
Qed.

Lemma num_between_spec lo hi z :
  num_between lo hi (Some z) = ((lo <=? z)%Z && (z <=? hi)%Z).
Proof. reflexivity. Qed.

(** The year printed for a two-digit year. *)
Lemma pivot_year y1 y2 :
  is_digit y1 = true -> is_digit y2 = true ->
  show_num
    (let yy := Some (two_digits y1 y2) in
     if num_between 0 99 yy
     then (if num_between 50 99 yy then option_map (Z.add 1900) yy
           else option_map (Z.add 2000) yy)
     else yy)
  = century y1 y2 ++ [y1; y2].
Proof.
  intros H1 H2. pose proof (two_digits_range y1 y2 H1 H2) as Hr.
  cbv zeta. rewrite !num_between_spec.
  replace ((0 <=? two_digits y1 y2)%Z && (two_digits y1 y2 <=? 99)%Z) with true
    by (symmetry; apply andb_true_intro; split; apply Z.leb_le; lia).
  replace (two_digits y1 y2 <=? 99)%Z with true by (symmetry; apply Z.leb_le; lia).
  rewrite andb_true_r. rewrite <- (of_Z_century y1 y2 H1 H2).
  destruct (50 <=? two_digits y1 y2)%Z; reflexivity.
Qed.

Lemma mm_yy_two m1 m2 y1 y2 :
  is_digit m1 = true -> is_digit m2 = true -> is_digit y1 = true -> is_digit y2 = true ->
  normalizeExpiryForMapping [m1; m2; "/"%char; y1; y2] =
  if num_between 1 12 (Some (two_digits m1 m2))
  then century y1 y2 ++ [y1; y2; "-"%char; m1; m2]
  else [m1; m2; "/"%char; y1; y2].
Proof.
  intros H1 H2 H3 H4.
  assert (Hp : Forall (fun c => plain c = true) [m1; m2; "/"%char; y1; y2]).
  { repeat constructor; now apply digit_plain. }
  unfold normalizeExpiryForMapping, month_branch.
  rewrite (plain_trim _ Hp), (plain_upper _ Hp). cbv zeta.
  replace (exec_re re_yyyyMmm _) with (@None caps) by (symmetry; no_match).
  replace (exec_re re_mmmYyyy _) with (@None caps) by (symmetry; no_match).
  replace (exec_re re_mmmYyyyNoSpace _) with (@None caps) by (symmetry; no_match).
  replace (exec_re re_yyyyMmSlash _) with (@None caps) by (symmetry; no_match).
  destruct (exec_mmYySlash2 m1 m2 y1 y2 H1 H2 H3 H4) as (c & -> & -> & ->).
  change (Str.padStart0 2 [m1; m2]) with [m1; m2].
  rewrite !parseInt_two_digits by assumption.
  fold (two_digits y1 y2). fold (two_digits m1 m2).
  pose proof (pivot_year y1 y2 H3 H4) as Hy. cbv zeta in Hy. rewrite Hy.
  destruct (num_between 1 12 _); [|reflexivity].
  now rewrite <- app_assoc.
Qed.

Lemma mm_yy_one m1 y1 y2 :
  is_digit m1 = true -> is_digit y1 = true -> is_digit y2 = true ->
  normalizeExpiryForMapping [m1; "/"%char; y1; y2] =
  if num_between 1 12 (Some (two_digits "0" m1))
  then century y1 y2 ++ [y1; y2; "-"%char; "0"%char; m1]
  else [m1; "/"%char; y1; y2].
Proof.
  intros H1 H3 H4.
  assert (Hp : Forall (fun c => plain c = true) [m1; "/"%char; y1; y2]).
  { repeat constructor; now apply digit_plain. }
  unfold normalizeExpiryForMapping, month_branch.
  rewrite (plain_trim _ Hp), (plain_upper _ Hp). cbv zeta.
  replace (exec_re re_yyyyMmm _) with (@None caps) by (symmetry; no_match).
  replace (exec_re re_mmmYyyy _) with (@None caps) by (symmetry; no_match).
  replace (exec_re re_mmmYyyyNoSpace _) with (@None caps) by (symmetry; no_match).
  replace (exec_re re_yyyyMmSlash _) with (@None caps) by (symmetry; no_match).
  destruct (exec_mmYySlash1 m1 y1 y2 H1 H3 H4) as (c & -> & -> & ->).
  change (Str.padStart0 2 [m1]) with ["0"%char; m1].
  rewrite !parseInt_two_digits by (assumption || reflexivity).
  fold (two_digits y1 y2). fold (two_digits "0" m1).
  pose proof (pivot_year y1 y2 H3 H4) as Hy. cbv zeta in Hy. rewrite Hy.
  destruct (num_between 1 12 _); [|reflexivity].
  now rewrite <- app_assoc.
Qed.

(** X5. [normalizeExpiryForMapping] on MM/YY: for a month of one or two
    digits and a two-digit year, the result is CCYY-MM (the month padded to
    two digits, the century 19 for a year of 50 or more and 20 below) when
    the month is between 1 and 12, and the input unchanged otherwise. *)
Theorem mapping_mm_yy_pivot (m : str) (y1 y2 : ascii) :
  shaped is_digit 1 2 m -> is_digit y1 = true -> is_digit y2 = true ->
  normalizeExpiryForMapping (m ++ $"/" ++ [y1; y2]) =
  if num_between 1 12 (Str.parseInt (Str.padStart0 2 m))
  then century y1 y2 ++ [y1; y2] ++ $"-" ++ Str.padStart0 2 m
  else m ++ $"/" ++ [y1; y2].
Proof.
  intros Hm H1 H2.
  apply shaped12 in Hm as [(a & -> & Ha)|(a & b & -> & Ha & Hb)].
  - change (Str.padStart0 2 [a]) with ["0"%char; a].
    rewrite parseInt_two_digits by (assumption || reflexivity).
    apply mm_yy_one; assumption.
  - change (Str.padStart0 2 [a; b]) with [a; b].
    rewrite parseInt_two_digits by assumption.
    apply mm_yy_two; assumption.
Qed.

Lemma mapping_mm_yy_pivot_witness :
  normalizeExpiryForMapping ($"6" ++ $"/" ++ ["7"%char; "2"%char]) = $"1972-06".
Proof.
  rewrite (mapping_mm_yy_pivot $"6" "7" "2");
    [reflexivity|split; [repeat constructor|simpl; lia]|reflexivity|reflexivity].
Defined.


(** *** What the normalizers return *)

Lemma century_year y1 y2 :
  is_digit y1 = true -> is_digit y2 = true -> shaped is_digit 4 4 (century y1 y2 ++ [y1; y2]).
Proof.
  intros H1 H2. unfold century.
  destruct (50 <=? _)%Z; (split; [repeat constructor; assumption|simpl; lia]).
Qed.

Lemma mapping_month_branch re gy gm v value r :
  (wf re && negb (gy =? 0) && defines gy re && group_chk gy is_digit 4 4 re) = true ->
  month_branch re gy gm v value = Some r -> r = value \/ is_ym r = true.
Proof.
  intros Hchk. unfold month_branch.
  destruct (exec_re re v) as [c|] eqn:E; [|discriminate].
  destruct (lookup _ month_table) as [m|] eqn:L; [|intros [= <-]; now left].
  destruct (Str.eqb m []); intros [= <-]; [now left|right].
  apply is_ym_build.
  - eapply exec_re_grp; eauto.
  - eapply month_table_digits; eauto.
Qed.

(** The registry's normalizer returns its argument or a text YYYY-MM. *)
Lemma normalizeExpiryForMapping_cases (value : str) :
  normalizeExpiryForMapping value = value \/ is_ym (normalizeExpiryForMapping value) = true.
Proof.
  unfold normalizeExpiryForMapping. cbv zeta.
  set (v := Str.toUpperCase (Str.trim value)).
  destruct (month_branch re_yyyyMmm 1 2 v value) eqn:E1.
  { eapply mapping_month_branch; [|exact E1]. chk. }
  destruct (month_branch re_mmmYyyy 2 1 v value) eqn:E2.
  { eapply mapping_month_branch; [|exact E2]. chk. }
  destruct (month_branch re_mmmYyyyNoSpace 2 1 v value) eqn:E3.
  { eapply mapping_month_branch; [|exact E3]. chk. }
  destruct (exec_re re_yyyyMmSlash v) as [c|] eqn:E4.
  { right. apply is_ym_build.
    - eapply exec_re_grp; [exact E4|chk].
    - apply pad2_shaped. eapply exec_re_grp; [exact E4|chk]. }
  destruct (exec_re re_mmYySlash v) as [c|] eqn:E5; [|now left].
  assert (Hm : shaped is_digit 1 2 (grp c 1)) by (eapply exec_re_grp; [exact E5|chk]).
  assert (Hy : shaped is_digit 2 2 (grp c 2)) by (eapply exec_re_grp; [exact E5|chk]).
  apply shaped2 in Hy as (y1 & y2 & -> & Hy1 & Hy2).
  rewrite (parseInt_two_digits y1 y2 Hy1 Hy2). fold (two_digits y1 y2).
  pose proof (pivot_year y1 y2 Hy1 Hy2) as Hp. cbv zeta in Hp. rewrite Hp.
  destruct (num_between 1 12 _); [right|now left].
  apply is_ym_build; [now apply century_year|now apply pad2_shaped].
Qed.

Lemma mapper_normalizeExpiry_cases (value : str) :
  normalizeExpiry value = Str.trim value \/ is_ym (normalizeExpiry value) = true.
Proof.
  unfold normalizeExpiry. cbv zeta. set (v := Str.trim value).
  destruct (Str.eqb (normalizeExpiryForMapping v) v) eqn:E; cbn [negb].
  2:{ destruct (normalizeExpiryForMapping_cases v) as [H|H]; [|now right].
      rewrite H, eqb_refl in E. discriminate. }
  destruct (exec_re re_yyyyMm v) as [c|] eqn:E1.
  { right. apply is_ym_build.
    - eapply exec_re_grp; [exact E1|chk].
    - apply pad2_shaped. eapply exec_re_grp; [exact E1|chk]. }
  destruct (exec_re re_mmDdYyyy v) as [c|] eqn:E2.
  { right. apply is_ym_build.
    - eapply exec_re_grp; [exact E2|chk].
    - apply pad2_shaped. eapply exec_re_grp; [exact E2|chk]. }
  destruct (exec_re re_ddMmYyyy v) as [c|] eqn:E3.
  { right. apply is_ym_build.
    - eapply exec_re_grp; [exact E3|chk].
    - apply pad2_shaped. eapply exec_re_grp; [exact E3|chk]. }
  destruct (exec_re re_mmYyyy v) as [c|] eqn:E4; [|now left].
  right. apply is_ym_build.
  - eapply exec_re_grp; [exact E4|chk].
  - apply pad2_shaped. eapply exec_re_grp; [exact E4|chk].
Qed.

Lemma ym_plain (a b c d e f g : ascii) :
  is_ym [a; b; c; d; e; f; g] = true ->
  e = "-"%char /\ Forall (fun x => plain x = true) [a; b; c; d; e; f; g].
Proof.
  intros H. apply is_ym_inv in H as (Ha & Hb & Hc & Hd & He & Hf & Hg).
  apply Ascii.eqb_eq in He. subst e.
  split; [reflexivity|]. repeat constructor; now apply digit_plain.
Qed.

(** A text YYYY-MM is a fixed point of both normalizers. *)
Lemma normalizers_keep_ym (r : str) :
  is_ym r = true -> normalizeExpiryForMapping r = r /\ normalizeExpiry r = r.
Proof.
  intros H.
  destruct r as [|a [|b [|c [|d [|e [|f [|g [|h r]]]]]]]]; try discriminate.
  pose proof (is_ym_inv _ _ _ _ _ _ _ H) as (Ha & Hb & Hc & Hd & _ & Hf & Hg).
  apply ym_plain in H as [-> Hp].
  assert (Hm : normalizeExpiryForMapping [a; b; c; d; "-"%char; f; g]
               = [a; b; c; d; "-"%char; f; g]).
  { unfold normalizeExpiryForMapping, month_branch.
    rewrite (plain_trim _ Hp), (plain_upper _ Hp). cbv zeta.
    replace (exec_re re_yyyyMmm _) with (@None caps) by (symmetry; no_match).
    replace (exec_re re_mmmYyyy _) with (@None caps) by (symmetry; no_match).
    replace (exec_re re_mmmYyyyNoSpace _) with (@None caps) by (symmetry; no_match).
    replace (exec_re re_yyyyMmSlash _) with (@None caps) by (symmetry; no_match).
    replace (exec_re re_mmYySlash _) with (@None caps) by (symmetry; no_match).
    reflexivity. }
  split; [exact Hm|].
  unfold normalizeExpiry. rewrite (plain_trim _ Hp). cbv zeta. rewrite Hm, eqb_refl.
  cbn [negb].
  assert (Hx : exists k, exec_re re_yyyyMm [a; b; c; d; "-"%char; f; g] = Some k /\
                         grp k 1 = [a; b; c; d] /\ grp k 2 = [f; g]).
  { unfold re_yyyyMm. run_pattern. eexists. split; [reflexivity|]. split; reflexivity. }
  destruct Hx as (k & -> & -> & ->). reflexivity.
Qed.

(** X6. The mapper's [normalizeExpiry] returns the trimmed input or a text
    of the form YYYY-MM, and it is idempotent. *)
Theorem mapper_normalizeExpiry_idempotent (value : str) :
  (normalizeExpiry value = Str.trim value \/ is_ym (normalizeExpiry value) = true) /\
  normalizeExpiry (normalizeExpiry value) = normalizeExpiry value.
Proof.
  split; [apply mapper_normalizeExpiry_cases|].
  destruct (mapper_normalizeExpiry_cases value) as [H|H].
  - rewrite H. unfold normalizeExpiry. now rewrite trim_idem.
  - now apply normalizers_keep_ym.
Qed.

(** X7. The mapper's [normalizeExpiry] cuts a full date YYYY-MM-DD to
    YYYY-MM. *)
Theorem mapper_normalizeExpiry_cuts_day (e : str) :
  is_ymd e = true -> normalizeExpiry e = Str.slice 0 7 e.
Proof.
  intros H.
  destruct e as [|a [|b [|c [|d [|e [|f [|g [|h [|i [|j [|k r]]]]]]]]]]]; try discriminate.
  unfold is_ymd in H. apply andb_prop in H as [H Hj]. apply andb_prop in H as [H Hi].
  apply andb_prop in H as [H Hh].
  pose proof (is_ym_inv _ _ _ _ _ _ _ H) as (Ha & Hb & Hc & Hd & He & Hf & Hg).
  apply Ascii.eqb_eq in He, Hh. subst e h.
  assert (Hp : Forall (fun x => plain x = true)
                 [a; b; c; d; "-"%char; f; g; "-"%char; i; j]).
  { repeat constructor; now apply digit_plain. }
  assert (Hm : normalizeExpiryForMapping [a; b; c; d; "-"%char; f; g; "-"%char; i; j]
               = [a; b; c; d; "-"%char; f; g; "-"%char; i; j]).
  { unfold normalizeExpiryForMapping, month_branch.
    rewrite (plain_trim _ Hp), (plain_upper _ Hp). cbv zeta.
    replace (exec_re re_yyyyMmm _) with (@None caps) by (symmetry; no_match).
    replace (exec_re re_mmmYyyy _) with (@None caps) by (symmetry; no_match).
    replace (exec_re re_mmmYyyyNoSpace _) with (@None caps) by (symmetry; no_match).
    replace (exec_re re_yyyyMmSlash _) with (@None caps) by (symmetry; no_match).
    replace (exec_re re_mmYySlash _) with (@None caps) by (symmetry; no_match).
    reflexivity. }
  unfold normalizeExpiry. rewrite (plain_trim _ Hp). cbv zeta. rewrite Hm, eqb_refl.
  cbn [negb].
  assert (Hx : exists k, exec_re re_yyyyMm [a; b; c; d; "-"%char; f; g; "-"%char; i; j]
                           = Some k /\
                         grp k 1 = [a; b; c; d] /\ grp k 2 = [f; g]).
  { unfold re_yyyyMm. run_pattern. eexists. split; [reflexivity|]. split; reflexivity. }
  destruct Hx as (k & -> & -> & ->). reflexivity.
Qed.

Lemma mapper_normalizeExpiry_cuts_day_witness :
  is_ymd $"2027-03-15" = true /\ normalizeExpiry $"2027-03-15" = $"2027-03".
Proof.
  split; [reflexivity|].
  rewrite (mapper_normalizeExpiry_cuts_day $"2027-03-15"); reflexivity.
Defined.

End MapperExpiryFacts.

(** ** Anchored patterns *)

Module AnchorFacts.
Import ReAnalysis MtFacts.

Lemma mt_ends_eol (r : regex) : ends_eol r = true -> forall l w s, mt r l w s -> s = [].
Proof.
  induction r as [|p|a IHa b IHb|a IHa b IHb|lo hi g a IHa|j a IHa| | |];
    intros H l w s Hm; simpl in H; try discriminate.
  - destruct Hm as (w1 & w2 & _ & _ & Hb). eapply IHb; eauto.
  - now destruct Hm.
Qed.

(** A pattern between [^] and [$] matches the whole subject. *)
Lemma exec_re_anchored (r : regex) (s : str) (c : caps) :
  (wf r && ends_eol r) = true -> exec_re (Seq Bol r) s = Some c -> mt r [] s [].
Proof.
  intros Hchk H. apply andb_prop in Hchk as [Hwf He].
  apply exec_re_whole in H as (p & q & Hs & Hm); [|exact Hwf].
  destruct Hm as (w1 & w2 & Hw & [-> Hp] & Hm). simpl in Hw, Hm.
  assert (p = []) as -> by (destruct p; [reflexivity|]; simpl in Hp;
                           destruct (rev p); discriminate).
  pose proof (mt_ends_eol r He _ _ _ Hm) as ->.
  simpl in Hs, Hm. rewrite app_nil_r in Hs. subst. exact Hm.
Qed.

Lemma mt_units (cs : str) l w s : mt (seqs (map (fun x => Chr (ch x)) cs)) l w s -> w = cs.
Proof.
  revert l w. induction cs as [|x cs IH]; intros l w H; [exact H|].
  destruct cs as [|y cs].
  - destruct H as (a & -> & Ha). apply Ascii.eqb_eq in Ha. now subst.
  - change (seqs (map (fun x => Chr (ch x)) (x :: y :: cs)))
      with (Seq (Chr (ch x)) (seqs (map (fun x => Chr (ch x)) (y :: cs)))) in H.
    destruct H as (w1 & w2 & -> & (a & -> & Ha) & H2).
    apply Ascii.eqb_eq in Ha. subst a. apply IH in H2. now subst.
Qed.

Lemma mt_lit (x : string) l w s : mt (lit x) l w s -> w = $x.
Proof. apply mt_units. Qed.

Lemma mt_opt (a : regex) l w s : mt (opt a) l w s -> w = [] \/ mt a l w s.
Proof.
  intros (j & _ & Hj & Hit). specialize (Hj 1 eq_refl).
  destruct j as [|[|j]]; [now left| |lia].
  destruct Hit as (w1 & w2 & -> & H1 & ->). rewrite app_nil_r. now right.
Qed.

End AnchorFacts.

(** ** The tests of the mapper on a field *)

Module MapperFieldFacts.
Import ReAnalysis CharFacts StrFacts ShapeFacts MtFacts YymmddFacts DigitFacts AnchorFacts.
Import LabelPatterns Mapper MapperFacts.

Lemma six_digits (s : str) :
  shaped is_digit 6 6 s ->
  exists y1 y2 m1 m2 d1 d2,
    s = [y1; y2; m1; m2; d1; d2] /\
    Forall (fun c => is_digit c = true) [y1; y2; m1; m2; d1; d2].
Proof.
  intros [H1 H2].
  destruct s as [|a [|b [|m1 [|m2 [|d1 [|d2 [|x g]]]]]]]; simpl in H2; try lia.
  now exists a, b, m1, m2, d1, d2.
Qed.

(** X8. [isLikelyYYMMDD] accepts exactly the texts of six digits whose
    third and fourth digits are a month 01 to 12 and whose last two digits
    are a day 01 to 31; the year digits are free and the day is not checked
    against the month. *)
Theorem isLikelyYYMMDD_iff (s : str) :
  isLikelyYYMMDD s = true <->
  exists y1 y2 m1 m2 d1 d2,
    s = [y1; y2; m1; m2; d1; d2] /\
    Forall (fun c => is_digit c = true) [y1; y2; m1; m2; d1; d2] /\
    (1 <= two_digits m1 m2 <= 12)%Z /\ (1 <= two_digits d1 d2 <= 31)%Z.
Proof.
  split.
  - intros H. assert (Ht : test re_sixDigits s = true).
    { unfold isLikelyYYMMDD in H. destruct (test re_sixDigits s); [reflexivity|discriminate]. }
    unfold test in Ht. destruct (exec_re re_sixDigits s) as [c|] eqn:E; [|discriminate].
    apply (exec_re_anchored (Seq (exactly 6 digit) Eol)) in E; [|chk].
    destruct E as (w1 & w2 & Hs & Hm & [-> _]). rewrite app_nil_r in Hs. subst w1.
    apply (mt_shaped _ is_digit 6 6) in Hm; [|chk].
    apply six_digits in Hm as (y1 & y2 & m1 & m2 & d1 & d2 & -> & Hd).
    exists y1, y2, m1, m2, d1, d2. split; [reflexivity|]. split; [exact Hd|].
    rewrite (isLikelyYYMMDD_six_digits _ _ _ _ _ _ Hd) in H.
    apply andb_prop in H as [Hm Hday]. unfold num_between in Hm, Hday.
    apply andb_prop in Hm as [Hm1 Hm2]. apply andb_prop in Hday as [Hd1 Hd2].
    unfold two_digits. lia.
  - intros (y1 & y2 & m1 & m2 & d1 & d2 & -> & Hd & Hm & Hday).
    rewrite (isLikelyYYMMDD_six_digits _ _ _ _ _ _ Hd). unfold num_between.
    unfold two_digits in Hm, Hday.
    apply andb_true_intro; split; apply andb_true_intro; split; apply Z.leb_le; lia.
Qed.

Lemma upper_units_length c : 1 <= length (Str.upper_units c).
Proof.
  unfold Str.upper_units.
  destruct (is_lower c); [simpl; lia|].
  destruct (_ && _); [simpl; lia|].
  destruct (_ =? 223); simpl; lia.
Qed.

Lemma toUpperCase_length (s : str) : length s <= length (Str.toUpperCase s).
Proof.
  unfold Str.toUpperCase. induction s as [|c s IH]; simpl; [lia|].
  rewrite length_app. pose proof (upper_units_length c). lia.
Qed.

Lemma test_short (r : regex) (u : str) :
  (wf r && ends_eol r && match max_len r with Some m => m <=? 3 | None => false end) = true ->
  test (Seq Bol r) u = true -> length u <= 3.
Proof.
  intros Hchk H. apply andb_prop in Hchk as [Hchk Hmax].
  apply Gs1Facts.test_true in H as [c E].
  apply (exec_re_anchored r) in E; [|exact Hchk].
  apply mt_len in E as [_ E]. destruct (max_len r) as [m|]; [|discriminate].
  apply Nat.leb_le in Hmax. specialize (E m eq_refl). lia.
Qed.

Lemma test_LAY0UT (u : str) : test re_LAY0UT u = true -> u = $"LAYUT" \/ u = $"LAY0UT".
Proof.
  intros H. apply Gs1Facts.test_true in H as [c E].
  apply (exec_re_anchored
           (Seq (lit "LAY") (Seq (opt (lit "0")) (Seq (lit "UT") Eol)))) in E; [|chk].
  destruct E as (w1 & w2 & -> & H1 & w3 & w4 & -> & H3 & w5 & w6 & -> & H5 & [-> _]).
  apply mt_lit in H1, H5. subst w1 w5.
  apply mt_opt in H3 as [->|H3]; [now left|].
  apply mt_lit in H3. subst w3. now right.
Qed.

(** X9. [isProductCodeMisread] is true exactly for a value of at most
    three units after trimming, or one that reads LAYUT, LAY0UT or LAYOUT
    when upper-cased; the tests for L0T, LT, EX, EXP, E1P and LOT never
    decide, since those values have at most three units. *)
Theorem isProductCodeMisread_iff (value : str) :
  isProductCodeMisread value = true <->
  length (Str.trim value) <= 3 \/
  In (Str.toUpperCase (Str.trim value)) [$"LAYUT"; $"LAY0UT"; $"LAYOUT"].
Proof.
  split.
  - unfold isProductCodeMisread. cbv zeta.
    destruct (length (Str.trim value) <=? 3) eqn:L.
    { intros _. left. now apply Nat.leb_le. }
    apply Nat.leb_gt in L. pose proof (toUpperCase_length (Str.trim value)) as Hu.
    set (u := Str.toUpperCase (Str.trim value)) in *.
    destruct (test re_L0T u) eqn:T1.
    { apply (test_short (Seq (lit "L") (Seq (opt (lit "0")) (Seq (lit "T") Eol)))) in T1;
        [lia|chk]. }
    destruct (test re_EXP u) eqn:T2.
    { apply (test_short (Seq (lit "EX") (Seq (opt (lit "P")) Eol))) in T2; [lia|chk]. }
    destruct (test re_E1P u) eqn:T3.
    { apply (test_short (Seq (lit "E1P") Eol)) in T3; [lia|chk]. }
    destruct (Str.eqb u $"LOT") eqn:T4.
    { apply eqb_eq in T4. rewrite T4 in Hu. simpl in Hu. lia. }
    cbn [orb].
    destruct (test re_LAY0UT u) eqn:T5.
    { intros _. right. apply test_LAY0UT in T5 as [-> | ->]; simpl; tauto. }
    destruct (Str.eqb u $"LAYOUT") eqn:T6; [|discriminate].
    intros _. right. apply eqb_eq in T6. rewrite T6. simpl. tauto.
  - intros [H|H].
    + unfold isProductCodeMisread. cbv zeta.
      apply Nat.leb_le in H. now rewrite H.
    + rewrite <- (misread_confusion value).
      * unfold isProductCodeMisread. now rewrite trim_idem.
      * unfold known_confusions. simpl in *. tauto.
Qed.


Lemma isLikelyYYMMDD_iff_witness : isLikelyYYMMDD $"261201" = true.
Proof.
  apply (proj2 (isLikelyYYMMDD_iff $"261201")).
  exists "2"%char, "6"%char, "1"%char, "2"%char, "0"%char, "1"%char.
  split; [reflexivity|]. split; [repeat constructor|]. vm_compute. intuition discriminate.
Defined.

Lemma isProductCodeMisread_iff_witness : isProductCodeMisread $" lay0ut " = true.
Proof.
  apply (proj2 (isProductCodeMisread_iff $" lay0ut ")).
  right. vm_compute. tauto.
Defined.

(** *** When the mapper raises *)

Lemma inherited_names (n : str) :
  In n object_prototype_names -> n <> $"Barcode" /\ output_keys_of n = Inherited.
Proof.
  unfold object_prototype_names. simpl.
  intros H. repeat destruct H as [H|H]; try contradiction; subst n;
    (split; [discriminate|reflexivity]).
Qed.

Lemma In_existsb_eqb (n : str) (l : list str) : existsb (Str.eqb n) l = true <-> In n l.
Proof.
  rewrite existsb_exists. split.
  - intros (x & Hx & E). apply eqb_eq in E. now subst.
  - intros H. exists n. split; [exact H|apply eqb_refl].
Qed.

Lemma step_raises st f : step st f = None <-> In (name f) object_prototype_names.
Proof.
  split.
  - unfold step. cbv zeta.
    destruct (Str.eqb (name f) $"Barcode"); [discriminate|].
    unfold output_keys_of.
    destruct (lookup (name f) (rev FIELD_TO_OUTPUT_KEYS)) as [ks|].
    + destruct (_ && _); [discriminate|]. destruct (_ && _); discriminate.
    + destruct (existsb (Str.eqb (name f)) object_prototype_names) eqn:E.
      * intros _. now apply In_existsb_eqb.
      * destruct (Str.eqb (name f) $"Expiry Date"); discriminate.
  - intros H. apply inherited_names in H as [Hb Hi].
    unfold step. cbv zeta. apply eqb_neq in Hb. now rewrite Hb, Hi.
Qed.

Lemma loop_raises st fields :
  loop st fields = None <-> Exists (fun f => In (name f) object_prototype_names) fields.
Proof.
  revert st. induction fields as [|f fields IH]; intros st; simpl.
  - split; [discriminate|]. intros H. inversion H.
  - destruct (step st f) as [st'|] eqn:E.
    + rewrite IH. split; [now right|].
      intros H. inversion H as [? ? Hf|]; subst; [|assumption].
      apply (step_raises st) in Hf. congruence.
    + split; [|reflexivity]. intros _. left. now apply (step_raises st).
Qed.

(** X10. [scanditFieldsToLabelJson] raises (a TypeError, on
    [outputKeys.includes]) exactly when some field is named like a member
    that every object inherits ([constructor], [toString], [__proto__] and
    the like): the lookup in [FIELD_TO_OUTPUT_KEYS] then finds the inherited
    member.  For every other list of fields it returns a record.  The same
    holds for [scanditLabelFieldsToLabelJson], which passes the names on. *)
Theorem mapper_raises_iff (decode : str -> Gs1.decoded) :
  (forall fields : list ScanditField,
     scanditFieldsToLabelJson decode fields = None <->
     Exists (fun f => In (name f) object_prototype_names) fields) /\
  (forall fields : list LabelFields.LabelField,
     LabelFields.scanditLabelFieldsToLabelJson decode fields = None <->
     Exists (fun f => In (LabelFields.name f) object_prototype_names) fields).
Proof.
  assert (H : forall fields : list ScanditField,
            scanditFieldsToLabelJson decode fields = None <->
            Exists (fun f => In (name f) object_prototype_names) fields).
  { intros fields. unfold scanditFieldsToLabelJson. rewrite <- (loop_raises init).
    destruct (loop init fields); [split; discriminate|tauto]. }
  split; [exact H|].
  intros fields. unfold LabelFields.scanditLabelFieldsToLabelJson. cbv zeta.
  rewrite H, Exists_map. reflexivity.
Qed.

Lemma mapper_raises_iff_witness :
  scanditFieldsToLabelJson rejecting_decoder
    [field "Lot no" "20054138"; field "constructor" "x"] = None.
Proof.
  apply (proj2 (proj1 (mapper_raises_iff rejecting_decoder) _)).
  right. left. simpl. tauto.
Defined.

(** *** The raw text *)

Lemma step_lines st f st' :
  step st f = Some st' ->
  lines st' = lines st ++ (if kept f then [line_of f] else []).
Proof.
  unfold step, kept, line_of. cbv zeta.
  set (mis := Str.eqb (name f) $"Product code" && isProductCodeMisread (Str.trim (value f))).
  assert (Hl : (if mis then lines st else lines st ++ [name f ++ $": " ++ value f])
               = lines st ++ (if negb mis then [name f ++ $": " ++ value f] else [])).
  { destruct mis; simpl; [now rewrite app_nil_r|reflexivity]. }
  rewrite Hl.
  destruct (Str.eqb (name f) $"Barcode"); [now intros [= <-]|].
  destruct (output_keys_of (name f)); [|discriminate|].
  - destruct mis; [now intros [= <-]|].
    destruct (_ && _); now intros [= <-].
  - destruct (Str.eqb (name f) $"Expiry Date"); now intros [= <-].
Qed.

Lemma loop_lines fields st st' :
  loop st fields = Some st' ->
  lines st' = lines st ++ map line_of (filter kept fields).
Proof.
  revert st. induction fields as [|f fields IH]; intros st; simpl.
  - intros [= <-]. now rewrite app_nil_r.
  - destruct (step st f) as [st1|] eqn:E; [|discriminate].
    intros H. apply IH in H. rewrite H, (step_lines _ _ _ E), <- app_assoc.
    f_equal. now destruct (kept f).
Qed.

Lemma clear_against_serial o j : serial (clear_against o j) = serial j.
Proof.
  unfold clear_against. destruct (truthy o); [|reflexivity].
  destruct (same (batch_no j) o); simpl;
    match goal with |- context [if ?b then _ else _] => destruct b end; reflexivity.
Qed.

Lemma reconcile_serial j : serial (reconcile j) = serial j.
Proof. unfold reconcile. now rewrite !clear_against_serial. Qed.

(** The raw text is the lines of the fields, with or without a serial
    line after them. *)
Lemma raw_text_cases (decode : str -> Gs1.decoded) (fields : list ScanditField)
    (j : LabelJson) (raw : str) :
  scanditFieldsToLabelJson decode fields = Some (j, raw) ->
  let base := Str.join_nl (map line_of (filter kept fields)) in
  raw = base \/
  exists s, serial j = Some s /\ s <> [] /\ raw = with_serial_line base s.
Proof.
  unfold scanditFieldsToLabelJson.
  destruct (loop init fields) as [st|] eqn:E; [|discriminate].
  apply loop_lines in E. simpl in E.
  unfold after_loop, gather. cbv zeta. rewrite E.
  set (base := Str.join_nl (map line_of (filter kept fields))).
  match goal with
  | |- context [match serial ?x with _ => _ end] => set (j1 := x)
  end.
  clearbody j1. clear E.
  destruct (serial j1) as [[|a s]|] eqn:Es; cbn [nonempty Gs1.nonempty].
  - intros [= <- <-]. now left.
  - intros [= <- <-]. right. exists (a :: s).
    split; [|split; [discriminate|reflexivity]].
    rewrite reconcile_serial.
    repeat match goal with
           | |- context [if ?b then _ else _] =>
               lazymatch b with
               | context [serial _] => fail
               | _ => destruct b
               end
           end;
      repeat (progress (unfold with_expiry, with_lot_no, with_serial;
                        cbn [serial truthy LabelFormats.truthy negb]; rewrite ?Es));
      reflexivity.
  - intros [= <- <-]. now left.
Qed.

Lemma lookup_In {A : Type} (k : str) (t : list (str * A)) v :
  lookup k t = Some v -> In (k, v) t.
Proof.
  induction t as [|[k' v'] t IH]; simpl; [discriminate|].
  destruct (Str.eqb k k') eqn:E.
  - intros [= ->]. apply eqb_eq in E. subst. now left.
  - intros H. right. now apply IH.
Qed.

(** Only the field [Serial no] is registered with the key [serial]. *)
Lemma keys_serial n ks :
  output_keys_of n = Keys ks ->
  existsb (OutputKey_eqb K_serial) ks = Str.eqb n $"Serial no".
Proof.
  unfold output_keys_of.
  destruct (lookup n (rev FIELD_TO_OUTPUT_KEYS)) as [ks'|] eqn:E.
  - intros [= <-]. apply lookup_In in E. simpl in E.
    repeat destruct E as [E|E]; try contradiction; injection E as <- <-; reflexivity.
  - destruct (existsb _ _); discriminate.
Qed.

Lemma not_keys_serial n :
  (forall ks, output_keys_of n <> Keys ks) -> Str.eqb n $"Serial no" = false.
Proof.
  intros H. destruct (Str.eqb n $"Serial no") eqn:E; [|reflexivity].
  apply eqb_eq in E. subst. exfalso. now apply (H [K_serial]).
Qed.

Lemma assign_serial x ks j :
  serial (fold_left (assign x) ks j) =
  if existsb (OutputKey_eqb K_serial) ks then Some x else serial j.
Proof.
  revert j. induction ks as [|k ks IH]; intros j; [reflexivity|].
  cbn [fold_left existsb]. rewrite IH.
  destruct k; cbn [OutputKey_eqb orb assign with_batch_no with_lot_no with_expiry with_serial
                   with_ref serial]; try reflexivity.
  now destruct (existsb _ ks).
Qed.

(** What one field does to the serial and to the barcode values. *)
Lemma step_serial st f st' :
  step st f = Some st' ->
  serial (labelJson st') =
    (if Str.eqb (name f) $"Serial no" then Some (Str.trim (value f))
     else serial (labelJson st)) /\
  barcodeValues st' =
    barcodeValues st ++ (if Str.eqb (name f) $"Barcode" then [Str.trim (value f)] else []).
Proof.
  unfold step. cbv zeta.
  destruct (Str.eqb (name f) $"Barcode") eqn:Eb.
  { intros [= <-]. cbn [labelJson barcodeValues]. apply eqb_eq in Eb. rewrite Eb.
    split; reflexivity. }
  destruct (output_keys_of (name f)) as [ks| |] eqn:Ek; [|discriminate|].
  - pose proof (keys_serial _ _ Ek) as Hs.
    destruct (Str.eqb (name f) $"Product code" && _) eqn:E1.
    { intros [= <-]. cbn [labelJson barcodeValues]. rewrite app_nil_r.
      apply andb_prop in E1 as [E1 _]. apply eqb_eq in E1. rewrite E1 in *.
      split; reflexivity. }
    destruct (Str.eqb (name f) $"Batch/Lot (numeric)" && _) eqn:E2.
    { intros [= <-]. cbn [labelJson barcodeValues with_expiry serial]. rewrite app_nil_r.
      apply andb_prop in E2 as [E2 _]. apply eqb_eq in E2. rewrite E2 in *.
      split; reflexivity. }
    intros [= <-]. cbn [labelJson barcodeValues]. rewrite app_nil_r, assign_serial, Hs.
    split; [|reflexivity].
    destruct (Str.eqb (name f) $"Serial no") eqn:En; [|reflexivity].
    apply eqb_eq in En. rewrite En in Ek. vm_compute in Ek. injection Ek as <-. reflexivity.
  - rewrite (not_keys_serial (name f)) by (intros ks; rewrite Ek; discriminate).
    destruct (Str.eqb (name f) $"Expiry Date"); intros [= <-];
      cbn [labelJson barcodeValues with_expiry serial]; rewrite app_nil_r; split; reflexivity.
Qed.

Lemma loop_serial fields : forall st st',
  loop st fields = Some st' ->
  serial (labelJson st') =
    fold_left (fun acc f => if Str.eqb (name f) $"Serial no"
                            then Some (Str.trim (value f)) else acc)
              fields (serial (labelJson st)) /\
  barcodeValues st' = barcodeValues st ++ barcode_values fields.
Proof.
  induction fields as [|f fields IH]; intros st st'; simpl.
  - intros [= <-]. now rewrite app_nil_r.
  - destruct (step st f) as [st1|] eqn:E; [|discriminate].
    intros H. apply IH in H as [H1 H2]. apply step_serial in E as [E1 E2].
    rewrite H1, H2, E1, E2, <- app_assoc. split; [reflexivity|].
    f_equal. unfold barcode_values. cbn [filter].
    destruct (Str.eqb (name f) $"Barcode"); reflexivity.
Qed.

(** The raw text that [gather] builds from the state of the loop. *)
Lemma gather_raw decode st :
  snd (gather decode st) =
    let base := Str.join_nl (lines st) in
    let barcodeValue := chosen_barcode (barcodeValues st) in
    let fromBarcode :=
      if 14 <=? length barcodeValue then
        match Gs1.parseGs1ToLabelJson decode barcodeValue with
        | Some gs1 => Gs1.serial gs1
        | None => None
        end
      else None in
    match (if truthy fromBarcode then fromBarcode else serial (labelJson st)) with
    | Some s => if nonempty s then with_serial_line base s else base
    | None => base
    end.
Proof.
  unfold gather, chosen_barcode. cbv zeta. cbn [snd].
  match goal with
  | |- context [match serial ?x with _ => _ end] => set (j1 := x)
  end.
  match goal with
  | |- _ = match ?x with _ => _ end => set (sb := x)
  end.
  assert (Hs : serial j1 = sb).
  { subst j1 sb.
    set (bv := match find is_longGs1 (barcodeValues st) with Some v => v | None => _ end).
    destruct (14 <=? length bv); cycle 1.
    { cbn [truthy LabelFormats.truthy].
      repeat match goal with
             | |- context [if ?b then _ else _] => destruct b
             | |- context [match ?x with Some _ => _ | None => _ end] => destruct x
             end; reflexivity. }
    destruct (Gs1.parseGs1ToLabelJson decode bv) as [gs1|]; cycle 1.
    { cbn [truthy LabelFormats.truthy].
      repeat match goal with
             | |- context [if ?b then _ else _] => destruct b
             | |- context [match ?x with Some _ => _ | None => _ end] => destruct x
             end; reflexivity. }
    destruct (Gs1.serial gs1) as [[|a s]|];
      cbn [truthy LabelFormats.truthy nonempty Gs1.nonempty];
      repeat match goal with
             | |- context [if ?b then _ else _] => destruct b
             | |- context [match ?x with Some _ => _ | None => _ end] => destruct x
             end; reflexivity. }
  rewrite Hs. unfold with_serial_line. reflexivity.
Qed.

Lemma with_serial_line_inj base s s' :
  with_serial_line base s = with_serial_line base s' -> s = s'.
Proof.
  unfold with_serial_line. destruct (Gs1.nonempty base); intros H.
  - apply app_inv_head in H. now injection H.
  - now apply app_inv_head in H.
Qed.

Lemma with_serial_line_longer base s : with_serial_line base s <> base.
Proof.
  unfold with_serial_line. intros H. apply (f_equal (@length ascii)) in H.
  destruct (Gs1.nonempty base) eqn:E.
  - rewrite length_app in H. simpl in H. lia.
  - destruct base; [discriminate|discriminate].
Qed.

(** X11. The raw text that [scanditFieldsToLabelJson] returns is the lines
    [name: value] of the fields in their order, without the product codes
    discarded as misreads, joined by line feeds.  One more line
    [Serial: ...] follows exactly when a non-empty serial is known when the
    raw text is built: the serial of the parsed barcode when it gives one,
    otherwise the trimmed value of the last [Serial no] field; that serial
    is then the serial of the record.  A serial that is only found later,
    in the raw text, adds no line. *)
Theorem mapper_raw_text (decode : str -> Gs1.decoded) (fields : list ScanditField)
    (j : LabelJson) (raw : str) :
  scanditFieldsToLabelJson decode fields = Some (j, raw) ->
  let base := Str.join_nl (map line_of (filter kept fields)) in
  match serial_before_raw decode fields with
  | Some (a :: s) => raw = with_serial_line base (a :: s) /\ serial j = Some (a :: s)
  | _ => raw = base
  end.
Proof.
  intros H. pose proof (raw_text_cases decode fields j raw H) as Hc.
  revert H Hc. unfold scanditFieldsToLabelJson.
  destruct (loop init fields) as [st|] eqn:E; [|discriminate].
  pose proof (loop_lines _ _ _ E) as El. apply loop_serial in E as [Es Eb].
  change (lines init) with (@nil str) in El.
  change (barcodeValues init) with (@nil str) in Eb.
  change (serial (labelJson init)) with (@None str) in Es.
  cbn [app] in El, Eb.
  unfold after_loop. pose proof (gather_raw decode st) as Hr.
  destruct (gather decode st) as [j0 raw0]. cbn [snd] in Hr.
  intros [= <- <-]. cbv zeta in Hr |- *. rewrite El, Eb, Es in Hr.
  set (base := Str.join_nl (map line_of (filter kept fields))) in *.
  change (raw0 = match serial_before_raw decode fields with
                 | Some s => if nonempty s then with_serial_line base s else base
                 | None => base
                 end) in Hr.
  destruct (serial_before_raw decode fields) as [[|a s]|]; cbn [nonempty Gs1.nonempty] in Hr;
    try (intros _; exact Hr).
  intros Hc. split; [exact Hr|].
  destruct Hc as [Hc|(s' & Hs' & _ & Hc)].
  - rewrite Hr in Hc. now apply with_serial_line_longer in Hc.
  - rewrite Hr in Hc. apply with_serial_line_inj in Hc. now rewrite Hs', <- Hc.
Qed.

(** The serial of a [Serial no] field adds the line [Serial: 1234567890]. *)
Lemma mapper_raw_text_witness :
  exists j raw,
    scanditFieldsToLabelJson rejecting_decoder
      [field "Lot no" "20054138"; field "Product code" "L0T";
       field "Serial no" "1234567890"] = Some (j, raw) /\
    raw = $"Lot no: 20054138" ++ "010"%char :: $"Serial no: 1234567890"
          ++ "010"%char :: $"Serial: 1234567890" /\
    serial j = Some $"1234567890".
Proof.
  eexists. eexists. split; [vm_compute; reflexivity|].
  exact (mapper_raw_text rejecting_decoder
           [field "Lot no" "20054138"; field "Product code" "L0T";
            field "Serial no" "1234567890"] _ _ ltac:(vm_compute; reflexivity)).
Defined.

(** *** What the raw-text fallbacks find *)

Lemma alnum_tight (x : str) : Forall (fun c => is_alnum c = true) x -> Str.trim x = x.
Proof.
  intros H. apply trim_tight_id. split.
  - destruct x as [|c x]; [exact I|]. inversion H; subst. now apply alnum_not_space.
  - apply Forall_rev in H. destruct (rev x) as [|c t]; [exact I|].
    inversion H; subst. now apply alnum_not_space.
Qed.

(** X12. What the raw-text fallbacks return: [parseSerialFromRaw] gives
    the empty text or 8 to 20 letters and digits, and the lot of
    [parseLotAndExpiryFromRaw] is empty or 4 to 15 letters and digits. *)
Theorem raw_fallback_shapes (raw : str) :
  (parseSerialFromRaw raw = [] \/ shaped is_alnum 8 20 (parseSerialFromRaw raw)) /\
  (fst (parseLotAndExpiryFromRaw raw) = [] \/
   shaped is_alnum 4 15 (fst (parseLotAndExpiryFromRaw raw))).
Proof.
  split.
  - unfold parseSerialFromRaw.
    destruct (exec_re SERIAL_FROM_RAW_REGEX raw) as [c|] eqn:E; [right|now left].
    assert (H : shaped is_alnum 8 20 (grp c 1)) by (eapply exec_re_grp; [exact E|chk]).
    now rewrite (alnum_tight _ (proj1 H)).
  - unfold parseLotAndExpiryFromRaw. cbv zeta. cbn [fst].
    destruct (exec_re re_lotFromRaw raw) as [c|] eqn:E.
    + assert (H : shaped is_alnum 4 15 (grp c 1)) by (eapply exec_re_grp; [exact E|chk]).
      rewrite (alnum_tight _ (proj1 H)).
      destruct (nonempty (grp c 1)) eqn:N; [now right|].
      destruct (grp c 1); [|discriminate]. destruct H as [_ H]. simpl in H. lia.
    + cbn [nonempty Gs1.nonempty].
      destruct (exec_re re_standAlone6 raw) as [c|] eqn:E6; [right|now left].
      assert (H : shaped is_digit 6 6 (grp c 1)) by (eapply exec_re_grp; [exact E6|chk]).
      destruct H as [H1 H2]. split; [|lia].
      eapply Forall_impl; [|exact H1]. intros a Ha. unfold is_alnum.
      now rewrite Ha, orb_true_r.
Qed.

End MapperFieldFacts.

(** ** Where a returned expiry comes from *)

Module ExpiryFacts.
Import ReAnalysis CharFacts StrFacts ShapeFacts MtFacts YymmddFacts DigitFacts AnchorFacts.
Import LabelPatterns Mapper MapperFacts MapperFieldFacts MapperExpiryFacts.
Lemma assign_expiry x ks j :
  expiry (fold_left (assign x) ks j) =
  if existsb (OutputKey_eqb K_expiry) ks then x else expiry j.
Proof.
  revert j. induction ks as [|k ks IH]; intros j; [reflexivity|].
  cbn [fold_left existsb]. rewrite IH.
  destruct k; cbn [OutputKey_eqb orb assign with_batch_no with_lot_no with_expiry with_serial
                   with_ref expiry]; try reflexivity.
  now destruct (existsb _ ks).
Qed.

Lemma normalized_from_fields fields x : from_fields fields (normalizeExpiry x).
Proof.
  destruct (mapper_normalizeExpiry_cases x) as [H|H].
  - right. right. right. exists x. auto.
  - right. right. now left.
Qed.

Lemma retry_expiry e re f raw :
  (forall c, exists x, f c = normalizeExpiry x) ->
  (e = [] \/ exists x, e = normalizeExpiry x) ->
  retry e re f raw = [] \/ exists x, retry e re f raw = normalizeExpiry x.
Proof.
  intros Hf He. unfold retry.
  destruct (nonempty e); [exact He|].
  destruct (exec_re re raw) as [c|]; [right; apply Hf|exact He].
Qed.

Lemma raw_expiry (raw : str) :
  snd (parseLotAndExpiryFromRaw raw) = [] \/
  exists x, snd (parseLotAndExpiryFromRaw raw) = normalizeExpiry x.
Proof.
  unfold parseLotAndExpiryFromRaw. cbv zeta. cbn [snd].
  repeat (apply retry_expiry; [intros c; eexists; reflexivity|]).
  destruct (exec_re re_expiryFromRaw raw) as [c|]; [right; eexists; reflexivity|now left].
Qed.

Lemma reconcile_expiry j : expiry (reconcile j) = expiry j.
Proof. now rewrite reconcile_spec. Qed.

Lemma keys_expiry n ks :
  output_keys_of n = Keys ks ->
  existsb (OutputKey_eqb K_expiry) ks = existsb (Str.eqb n) expiry_names /\
  (existsb (Str.eqb n) expiry_names = true ->
   Str.eqb n $"Product code" = false /\ Str.eqb n $"Batch/Lot (numeric)" = false).
Proof.
  unfold output_keys_of.
  destruct (lookup n (rev FIELD_TO_OUTPUT_KEYS)) as [ks'|] eqn:E.
  - intros [= <-]. apply lookup_In in E. simpl in E.
    repeat destruct E as [E|E]; try contradiction; injection E as <- <-;
      (split; [reflexivity|intros H; try discriminate H; split; reflexivity]).
  - destruct (existsb _ _); discriminate.
Qed.

Lemma undefined_expiry n :
  output_keys_of n = Undefined ->
  existsb (Str.eqb n) expiry_names = Str.eqb n $"Expiry Date" /\
  Str.eqb n $"Batch/Lot (numeric)" = false.
Proof.
  intros H.
  assert (Hk : forall r ks, output_keys_of r = Keys ks -> Str.eqb n r = false).
  { intros r ks Hr. destruct (Str.eqb n r) eqn:E; [|reflexivity].
    apply eqb_eq in E. subst. congruence. }
  split.
  - unfold expiry_names. cbn [existsb].
    rewrite (Hk $"Expiry" [K_expiry] eq_refl), (Hk $"Expiry (YYYY-MMM)" [K_expiry] eq_refl),
      (Hk $"Expiry (EXP MMM YYYY)" [K_expiry] eq_refl),
      (Hk $"Expiry (EXP MM/YY)" [K_expiry] eq_refl),
      (Hk $"Expiry (EXPIRATION DATE)" [K_expiry] eq_refl).
    cbn [orb]. now rewrite orb_false_r.
  - exact (Hk $"Batch/Lot (numeric)" [K_batch_no; K_lot_no] eq_refl).
Qed.

Lemma step_expiry_exact st f st' :
  step st f = Some st' ->
  expiry (labelJson st') =
    (let v := Str.trim (value f) in
     if existsb (Str.eqb (name f)) expiry_names then normalizeExpiry v
     else if Str.eqb (name f) $"Batch/Lot (numeric)" && isLikelyYYMMDD v then v
     else expiry (labelJson st)).
Proof.
  unfold step. cbv zeta.
  destruct (Str.eqb (name f) $"Barcode") eqn:Eb.
  { intros [= <-]. cbn [labelJson]. apply eqb_eq in Eb. rewrite Eb. reflexivity. }
  destruct (output_keys_of (name f)) as [ks| |] eqn:Ek; [|discriminate|].
  - destruct (keys_expiry _ _ Ek) as [Hx Hn]. rewrite Hx.
    destruct (existsb (Str.eqb (name f)) expiry_names) eqn:Ee.
    + destruct (Hn eq_refl) as [-> ->]. cbn [andb].
      intros [= <-]. cbn [labelJson]. rewrite assign_expiry, Hx; try rewrite Ee; reflexivity.
    + destruct (Str.eqb (name f) $"Product code" && _) eqn:E1.
      { intros [= <-]. cbn [labelJson]. apply andb_prop in E1 as [E1 _].
        apply eqb_eq in E1. rewrite E1. reflexivity. }
      destruct (Str.eqb (name f) $"Batch/Lot (numeric)" && _).
      * now intros [= <-].
      * intros [= <-]. cbn [labelJson]. rewrite assign_expiry, Hx; try rewrite Ee; reflexivity.
  - destruct (undefined_expiry _ Ek) as [-> ->]. cbn [andb].
    destruct (Str.eqb (name f) $"Expiry Date"); now intros [= <-].
Qed.

Lemma loop_expiry_exact fields : forall st st',
  loop st fields = Some st' ->
  expiry (labelJson st') =
    fold_left (fun acc f =>
                 let v := Str.trim (value f) in
                 if existsb (Str.eqb (name f)) expiry_names then normalizeExpiry v
                 else if Str.eqb (name f) $"Batch/Lot (numeric)" && isLikelyYYMMDD v then v
                 else acc)
              fields (expiry (labelJson st)).
Proof.
  induction fields as [|f fields IH]; intros st st'; simpl.
  - now intros [= <-].
  - destruct (step st f) as [st1|] eqn:E; [|discriminate].
    intros H. apply IH in H. apply step_expiry_exact in E. cbv zeta in E.
    now rewrite H, E.
Qed.

Lemma gather_expiry_exact decode st :
  expiry (fst (gather decode st)) =
    let barcodeValue := chosen_barcode (barcodeValues st) in
    let fromBarcode :=
      if 14 <=? length barcodeValue then
        match Gs1.parseGs1ToLabelJson decode barcodeValue with
        | Some gs1 => Gs1.expiry gs1
        | None => []
        end
      else [] in
    let e1 := if nonempty fromBarcode then fromBarcode else expiry (labelJson st) in
    if nonempty e1 then e1 else snd (parseLotAndExpiryFromRaw (snd (gather decode st))).
Proof.
  unfold gather, chosen_barcode. cbv zeta. cbn [fst snd].
  match goal with
  | |- context [match serial ?x with _ => _ end] => set (j1 := x)
  end.
  set (raw := match serial j1 with Some s => _ | None => _ end).
  match goal with
  | |- _ = (if nonempty ?x then _ else _) => set (e1 := x)
  end.
  assert (H1 : expiry j1 = e1).
  { subst j1 e1. clear raw.
    set (bv := match find is_longGs1 (barcodeValues st) with Some v => v | None => _ end).
    destruct (14 <=? length bv); cycle 1.
    { cbn [nonempty Gs1.nonempty].
      repeat match goal with
             | |- context [if ?b then _ else _] => destruct b
             | |- context [match ?x with Some _ => _ | None => _ end] => destruct x
             end; reflexivity. }
    destruct (Gs1.parseGs1ToLabelJson decode bv) as [gs1|]; cycle 1.
    { cbn [nonempty Gs1.nonempty].
      repeat match goal with
             | |- context [if ?b then _ else _] => destruct b
             | |- context [match ?x with Some _ => _ | None => _ end] => destruct x
             end; reflexivity. }
    destruct (nonempty (Gs1.expiry gs1));
      repeat match goal with
             | |- context [if ?b then _ else _] => destruct b
             | |- context [match ?x with Some _ => _ | None => _ end] => destruct x
             end; reflexivity. }
  clearbody raw. clearbody j1. clearbody e1. subst e1.
  match goal with
  | |- expiry (if negb (truthy (serial ?x)) then _ else _) = _ => set (j2 := x)
  end.
  assert (H2 : expiry j2 = if nonempty (expiry j1) then expiry j1
                           else snd (parseLotAndExpiryFromRaw raw)).
  { subst j2.
    destruct (expiry j1) as [|a e] eqn:Ee;
      destruct (nonempty (lot_no j1));
      destruct (nonempty (fst (parseLotAndExpiryFromRaw raw)));
      unfold with_lot_no; cbn [negb andb orb nonempty Gs1.nonempty expiry]; rewrite ?Ee;
      cbn [negb andb orb nonempty Gs1.nonempty]; try reflexivity;
      destruct (snd (parseLotAndExpiryFromRaw raw)) as [|b p];
      unfold with_expiry; cbn [negb andb orb nonempty Gs1.nonempty expiry]; rewrite ?Ee;
      reflexivity. }
  rewrite <- H2.
  destruct (negb (truthy (serial j2))); [|reflexivity].
  destruct (nonempty (parseSerialFromRaw raw)); reflexivity.
Qed.

(** The expiry that the mapper returns, from its sources. *)
Lemma mapper_expiry_exact (decode : str -> Gs1.decoded) (fields : list ScanditField)
    (j : LabelJson) (raw : str) :
  scanditFieldsToLabelJson decode fields = Some (j, raw) ->
  expiry j =
    if nonempty (expiry_before_raw decode fields) then expiry_before_raw decode fields
    else snd (parseLotAndExpiryFromRaw raw).
Proof.
  unfold scanditFieldsToLabelJson.
  destruct (loop init fields) as [st|] eqn:E; [|discriminate].
  pose proof (loop_expiry_exact _ _ _ E) as He.
  apply loop_serial in E as [_ Eb].
  change (barcodeValues init) with (@nil str) in Eb. cbn [app] in Eb.
  change (expiry (labelJson init)) with (@nil ascii) in He.
  unfold after_loop. pose proof (gather_expiry_exact decode st) as Hg.
  destruct (gather decode st) as [j0 raw0]. cbn [fst snd] in Hg.
  intros [= <- <-]. rewrite reconcile_expiry, Hg. cbv zeta. rewrite Eb, He.
  reflexivity.
Qed.

Lemma field_expiry_from (all fields : list ScanditField) : forall acc,
  incl fields all -> from_fields all acc ->
  from_fields all
    (fold_left (fun acc f =>
                  let v := Str.trim (value f) in
                  if existsb (Str.eqb (name f)) expiry_names then normalizeExpiry v
                  else if Str.eqb (name f) $"Batch/Lot (numeric)" && isLikelyYYMMDD v then v
                  else acc)
               fields acc).
Proof.
  induction fields as [|f fields IH]; intros acc Hi Ha; [exact Ha|].
  cbn [fold_left]. apply IH; [intros x Hx; apply Hi; now right|]. cbv zeta.
  destruct (existsb (Str.eqb (name f)) expiry_names); [apply normalized_from_fields|].
  destruct (Str.eqb (name f) $"Batch/Lot (numeric)") eqn:En; cbn [andb]; [|exact Ha].
  destruct (isLikelyYYMMDD (Str.trim (value f))) eqn:Ey; [|exact Ha].
  right. left. exists f. apply eqb_eq in En. split; [apply Hi; now left|auto].
Qed.

(** The forms that an expiry of the mapper can have. *)
Lemma mapper_expiry_sources (decode : str -> Gs1.decoded) (fields : list ScanditField)
    (j : LabelJson) (raw : str) :
  scanditFieldsToLabelJson decode fields = Some (j, raw) ->
  (exists gs1,
     Gs1.parseGs1ToLabelJson decode (chosen_barcode (barcode_values fields)) = Some gs1 /\
     expiry j = Gs1.expiry gs1) \/
  from_fields fields (expiry j).
Proof.
  intros H. rewrite (mapper_expiry_exact decode fields j raw H).
  unfold expiry_before_raw.
  destruct (nonempty (barcode_expiry decode fields)) eqn:Eb.
  - rewrite Eb. left. revert Eb. unfold barcode_expiry. cbv zeta.
    destruct (14 <=? length _); [|discriminate].
    destruct (Gs1.parseGs1ToLabelJson decode _) as [gs1|]; [|discriminate].
    intros _. now exists gs1.
  - right.
    pose proof (field_expiry_from fields fields [] (incl_refl _) (or_introl eq_refl)) as Hf.
    fold (field_expiry fields) in Hf.
    destruct (nonempty (field_expiry fields)); [exact Hf|].
    destruct (raw_expiry raw) as [->|[x ->]]; [now left|].
    apply normalized_from_fields.
Qed.

Lemma slice_0 n (s : str) : Str.slice 0 n s = firstn n s.
Proof. unfold Str.slice. now rewrite Nat.sub_0_r. Qed.

Lemma cut10 (e : str) :
  (if Gs1.nonempty e then (if 10 <=? length e then Str.slice 0 10 e else e) else [])
  = firstn 10 e.
Proof.
  destruct e as [|a e]; [reflexivity|]. change (Gs1.nonempty (a :: e)) with true. cbv iota.
  destruct (10 <=? length (a :: e)) eqn:L; [apply slice_0|].
  apply Nat.leb_gt in L. rewrite firstn_all2; [reflexivity|lia].
Qed.

Lemma primary_expiry decode n r :
  Gs1.primary decode n = Some r ->
  exists d e,
    decode n = Gs1.Decoded (Some d) /\ Gs1.elToStr (lookup $"expDate" d) = Some e /\
    Gs1.expiry r = firstn 10 e.
Proof.
  unfold Gs1.primary.
  destruct (decode n) as [|[d|]]; try discriminate.
  destruct (0 <? length d); [|discriminate].
  destruct (Gs1.elToStr (lookup $"batch" d)) as [b|]; [|discriminate].
  destruct (Gs1.elToStr (lookup $"expDate" d)) as [e|] eqn:Ee; [|discriminate].
  destruct (Gs1.elToStr (lookup $"gtin" d)) as [g|]; [|discriminate].
  destruct (Gs1.elToStr (lookup $"serial" d)) as [sn|]; [|discriminate].
  rewrite cut10.
  match goal with |- (if ?b then _ else _) = _ -> _ => destruct b end; [|discriminate].
  intros [= <-]. exists d, e. split; [reflexivity|]. split; [exact Ee|reflexivity].
Qed.

(** The mapper hands on the expiry of a barcode as the decoder gives it,
    with its day. *)
Lemma mapper_hands_on_barcode_expiry :
  exists j raw,
    scanditFieldsToLabelJson rejecting_decoder
      [field "Barcode" "01003501115610141727022810MK8701"] = Some (j, raw) /\
    expiry j = $"2027-02-28" /\ normalizeExpiry (expiry j) = $"2027-02".
Proof. eexists _, _. split; [vm_compute; reflexivity|]. split; vm_compute; reflexivity. Qed.

(** The primary decode does not look at what the library gives as
    [expDate]: a text that is no date is handed on. *)
Lemma primary_hands_on_text :
  exists r,
    Gs1.parseGs1ToLabelJson decoder_giving_text $"17270228" = Some r /\
    Gs1.expiry r = $"270228" /\ canonical (Gs1.expiry r) = false.
Proof. eexists. split; [vm_compute; reflexivity|]. split; reflexivity. Qed.

(** C2, amended. Where each operation takes its expiry from.
    [extractLabelFromOcr]: the expiry is empty or YYYY-MM, for every text.
    [parseGs1ToLabelJson]: when the primary decode yields nothing, the
    expiry is that of the positional fallback, empty or YYYY-MM-DD: the six
    digits after the leftmost 17 followed by six digits, with the century
    19 for a year of 50 or more and 20 otherwise; when the primary decode
    yields a record, the expiry is the first ten units
    of what [elToStr] makes of the library's [expDate] element, whatever
    that is.  [scanditFieldsToLabelJson]: the expiry is the one known
    before the raw text is read, when that is not empty: the expiry that
    [parseGs1ToLabelJson] gives for the chosen barcode value when not
    empty, otherwise the one written by the last field that writes an
    expiry; and otherwise it is the expiry that [parseLotAndExpiryFromRaw]
    reads in the returned raw text.  So it is the expiry of the barcode,
    handed on as it is; or empty; or the six digits of a
    [Batch/Lot (numeric)] field that look like YYMMDD, handed on as they
    are; or YYYY-MM; or a trimmed text in which the mapper's normalizer
    finds no notation it knows, handed on as it is. *)
Theorem expiry_canonical_when_normalized :
  (forall ocrText,
     empty_or is_ym (snd (LabelFormats.extractLabelFromOcr ocrText)) = true) /\
  (forall decode raw r,
     Gs1.parseGs1ToLabelJson decode raw = Some r ->
     match Gs1.primary decode (Gs1.preprocess raw) with
     | None =>
         empty_or is_ymd (Gs1.expiry r) = true /\
         match yymmdd_after_17 (Str.strip_ws (Gs1.preprocess raw)) with
         | Some d =>
             exists y1 y2 m1 m2 d1 d2,
               d = [y1; y2; m1; m2; d1; d2] /\
               Gs1.expiry r
               = century y1 y2 ++ [y1; y2; "-"%char; m1; m2; "-"%char; d1; d2]
         | None => Gs1.expiry r = []
         end
     | Some _ =>
         exists d e,
           decode (Gs1.preprocess raw) = Gs1.Decoded (Some d) /\
           Gs1.elToStr (lookup $"expDate" d) = Some e /\
           Gs1.expiry r = firstn 10 e
     end) /\
  (forall decode fields j raw,
     scanditFieldsToLabelJson decode fields = Some (j, raw) ->
     expiry j =
       (if nonempty (expiry_before_raw decode fields) then expiry_before_raw decode fields
        else snd (parseLotAndExpiryFromRaw raw))) /\
  (forall decode fields j raw,
     scanditFieldsToLabelJson decode fields = Some (j, raw) ->
     (exists gs1,
        Gs1.parseGs1ToLabelJson decode (chosen_barcode (barcode_values fields)) = Some gs1 /\
        expiry j = Gs1.expiry gs1) \/
     expiry j = [] \/
     (exists f, In f fields /\ name f = $"Batch/Lot (numeric)" /\
                isLikelyYYMMDD (Str.trim (value f)) = true /\
                expiry j = Str.trim (value f)) \/
     is_ym (expiry j) = true \/
     (exists x, normalizeExpiry x = Str.trim x /\ expiry j = Str.trim x)).
Proof.
  split; [exact OcrExpiryFacts.extractLabelFromOcr_expiry|]. split.
  - intros decode raw r. unfold Gs1.parseGs1ToLabelJson.
    destruct (Gs1.nonempty (Gs1.preprocess raw)); [|discriminate].
    destruct (Gs1.primary decode (Gs1.preprocess raw)) as [r'|] eqn:Hp.
    + intros [= <-]. now apply primary_expiry.
    + unfold Gs1.parseConcatenatedGs1.
      destruct (length _ <? 20); [discriminate|].
      match goal with |- (if ?b then _ else _) = _ -> _ => destruct b end; [discriminate|].
      intros [= <-]. cbn [Gs1.expiry].
      split; [|apply Gs1ResultFacts.concat_expiry_by_position].
      destruct (Gs1Facts.concat_expiry_shape (Str.strip_ws (Gs1.preprocess raw))) as [-> |H];
        [reflexivity|].
      destruct (Gs1.concat_expiry _); [reflexivity|exact H].
  - split.
    + intros decode fields j raw H. exact (mapper_expiry_exact decode fields j raw H).
    + intros decode fields j raw H. exact (mapper_expiry_sources decode fields j raw H).
Qed.

(** The fallback on a concatenated text, and the mapper on a field
    [Expiry: 02/2027]. *)
Lemma expiry_canonical_when_normalized_witness :
  (exists r,
     Gs1.parseGs1ToLabelJson rejecting_decoder
       $"0100350111561014211010454151481217270531107981055" = Some r /\
     Gs1.expiry r = $"2027-05-31" /\ empty_or is_ymd (Gs1.expiry r) = true) /\
  (exists j raw,
     scanditFieldsToLabelJson rejecting_decoder [field "Expiry" "02/2027"] = Some (j, raw) /\
     expiry j = $"2027-02" /\
     ((exists gs1,
        Gs1.parseGs1ToLabelJson rejecting_decoder
          (chosen_barcode (barcode_values [field "Expiry" "02/2027"])) = Some gs1 /\
        expiry j = Gs1.expiry gs1) \/
      expiry j = [] \/
      (exists f, In f [field "Expiry" "02/2027"] /\ name f = $"Batch/Lot (numeric)" /\
                 isLikelyYYMMDD (Str.trim (value f)) = true /\
                 expiry j = Str.trim (value f)) \/
      is_ym (expiry j) = true \/
      (exists x, normalizeExpiry x = Str.trim x /\ expiry j = Str.trim x))).
Proof.
  split.
  - eexists. split; [vm_compute; reflexivity|]. split; [reflexivity|].
    pose proof (proj1 (proj2 expiry_canonical_when_normalized) rejecting_decoder
                  $"0100350111561014211010454151481217270531107981055" _
                  ltac:(vm_compute; reflexivity)) as H.
    exact (proj1 H).
  - eexists _, _. split; [vm_compute; reflexivity|]. split; [reflexivity|].
    eapply (proj2 (proj2 (proj2 expiry_canonical_when_normalized)) rejecting_decoder
              [field "Expiry" "02/2027"]).
    vm_compute. reflexivity.
Defined.

End ExpiryFacts.

(** ** The barcode parser of the dashboard *)

Module DashboardFacts.
Import StrFacts Gs1ResultFacts.
Import Dashboard.

Lemma inferRawType_not_gs1 raw : is_gs1 (inferRawType raw) = false.
Proof.
  unfold inferRawType. cbv zeta.
  destruct (_ =? 8); [reflexivity|]. destruct (_ || _); [reflexivity|].
  destruct (_ && _); reflexivity.
Qed.

Lemma inferGS1Variant_gs1 g b e s n : is_gs1 (inferGS1Variant g b e s n) = true.
Proof.
  unfold inferGS1Variant. cbv zeta.
  destruct (3 <=? _); [reflexivity|]. destruct (_ <? n); reflexivity.
Qed.

(** X13. [inferRawType] depends only on the number of digits of the text:
    EAN for exactly 8, UPC for 1 to 18 other than 8, UNKNOWN for none or
    more than 18; it never answers with a GS1 type. *)
Theorem inferRawType_by_digits (raw : str) :
  let n := length (filter is_digit raw) in
  (inferRawType raw = EAN <-> n = 8) /\
  (inferRawType raw = UPC <-> 1 <= n <= 18 /\ n <> 8) /\
  (inferRawType raw = UNKNOWN <-> n = 0 \/ 18 < n) /\
  is_gs1 (inferRawType raw) = false.
Proof.
  cbv zeta. unfold inferRawType. cbv zeta.
  set (n := length (filter is_digit raw)).
  destruct (n =? 8) eqn:E8.
  { apply Nat.eqb_eq in E8.
    repeat split; try discriminate; try lia; intros; (exfalso; lia) || reflexivity. }
  apply Nat.eqb_neq in E8.
  destruct ((n =? 12) || (n =? 13) || (n =? 14)) eqn:E12.
  { assert (n = 12 \/ n = 13 \/ n = 14).
    { apply orb_prop in E12 as [E|E]; [apply orb_prop in E as [E|E]|];
        apply Nat.eqb_eq in E; lia. }
    repeat split; try discriminate; try lia; intros; (exfalso; lia) || reflexivity. }
  destruct ((0 <? n) && (n <=? 18)) eqn:E18.
  { apply andb_prop in E18 as [Ea Eb]. apply Nat.ltb_lt in Ea. apply Nat.leb_le in Eb.
    repeat split; try discriminate; try lia; intros; (exfalso; lia) || reflexivity. }
  assert (n = 0 \/ 18 < n).
  { apply andb_false_iff in E18 as [E|E];
      [apply Nat.ltb_ge in E|apply Nat.leb_gt in E]; lia. }
  repeat split; try discriminate; try lia; intros; (exfalso; lia) || reflexivity || assumption.
Qed.

(** The three ways [parseBarcodeToData] ends. *)
Lemma parseBarcodeToData_cases (decode : str -> Gs1.decoded) (raw : str) :
  let n := preprocessScan raw in
  let r := parseBarcodeToData decode raw in
  (n = [] /\ r = {| upc_gtin := []; batch := None; expiry := None; serial := None;
                    type := UNKNOWN; raw := None |}) \/
  (n <> [] /\ r = undecoded n raw) \/
  (n <> [] /\ exists g b e s,
      Gs1.nonempty g || Gs1.nonempty b || Gs1.nonempty e || Gs1.nonempty s = true /\
      r = {| upc_gtin := if Gs1.nonempty g then g else n;
             batch := Gs1.present b; expiry := Gs1.present e; serial := Gs1.present s;
             type := inferGS1Variant g b e s (length n); raw := Some raw |}).
Proof.
  cbv zeta. unfold parseBarcodeToData. cbv zeta.
  destruct (preprocessScan raw) as [|a n] eqn:En; [left; now split|].
  right. cbn [Gs1.nonempty negb].
  unfold decoded_data.
  destruct (decode (a :: n)) as [|[d|]]; [left; now split| |left; now split].
  destruct (length d =? 0); [left; now split|].
  destruct (elToStr (lookup $"gtin" d)) as [g|]; [|left; now split].
  destruct (elToStr (lookup $"batch" d)) as [b|]; [|left; now split].
  destruct (elToStr (lookup $"expDate" d)) as [e|]; [|left; now split].
  destruct (elToStr (lookup $"serial" d)) as [s|]; [|left; now split].
  cbv zeta.
  destruct (Gs1.nonempty g || Gs1.nonempty b || Gs1.nonempty e || Gs1.nonempty s) eqn:H.
  - right. split; [discriminate|]. exists g, b, e, s. now split.
  - left. split; [discriminate|].
    apply orb_false_iff in H as [H Hs]. apply orb_false_iff in H as [H He].
    apply orb_false_iff in H as [Hg Hb]. rewrite Hg.
    apply Gs1Facts.nonempty_false in Hb, He, Hs. subst. reflexivity.
Qed.

Lemma present_not_empty (x : str) : Gs1.present x <> Some [].
Proof. now destruct x. Qed.

(** X14. Whatever the library decodes, the product identifier that
    [parseBarcodeToData] returns is empty only for a scan that is empty
    after normalization; every other result carries the scan as it came in
    under [raw], and no optional key ever holds an empty text. *)
Theorem parseBarcodeToData_identifier (decode : str -> Gs1.decoded) (raw : str) :
  let r := parseBarcodeToData decode raw in
  (upc_gtin r = [] <-> preprocessScan raw = []) /\
  (preprocessScan raw <> [] -> Dashboard.raw r = Some raw) /\
  batch r <> Some [] /\ expiry r <> Some [] /\ serial r <> Some [].
Proof.
  cbv zeta.
  destruct (parseBarcodeToData_cases decode raw)
    as [[Hn ->]|[[Hn ->]|(Hn & g & b & e & s & Hs & ->)]]; cbn.
  - repeat split; try discriminate; auto. contradiction.
  - repeat split; try discriminate; auto.
  - repeat split; auto using present_not_empty.
    + destruct (Gs1.nonempty g) eqn:Hg; [|auto]. intros ->. discriminate.
    + intros H. contradiction.
Qed.

(** X15. A result of [parseBarcodeToData] whose type is not a GS1 type
    carries no batch, expiry or serial, and its identifier is the
    normalized scan; a result of type GS1_LINEAR comes from a normalized
    scan of at most 40 units and does not carry batch, expiry and serial
    all three. *)
Theorem parseBarcodeToData_type (decode : str -> Gs1.decoded) (raw : str) :
  let r := parseBarcodeToData decode raw in
  (is_gs1 (type r) = false ->
   batch r = None /\ expiry r = None /\ serial r = None /\
   upc_gtin r = preprocessScan raw) /\
  (type r = GS1_LINEAR ->
   length (preprocessScan raw) <= 40 /\
   LabelFormats.truthy (batch r) && LabelFormats.truthy (expiry r)
   && LabelFormats.truthy (serial r) = false).
Proof.
  cbv zeta.
  destruct (parseBarcodeToData_cases decode raw)
    as [[Hn ->]|[[Hn ->]|(Hn & g & b & e & s & Hs & ->)]]; cbn [type batch expiry serial upc_gtin].
  - split; [now rewrite Hn|discriminate].
  - split; [now unfold undecoded|].
    unfold undecoded. cbn [type]. intros H.
    pose proof (inferRawType_not_gs1 (preprocessScan raw)) as Hg. now rewrite H in Hg.
  - split; [now rewrite inferGS1Variant_gs1|].
    unfold inferGS1Variant. cbv zeta. cbn [filter].
    rewrite !Gs1Facts.truthy_present.
    destruct (Gs1.nonempty g), (Gs1.nonempty b), (Gs1.nonempty e), (Gs1.nonempty s);
      cbn [length Nat.leb andb]; try discriminate;
      (destruct (GS1_DATAMATRIX_LENGTH_THRESHOLD <? length (preprocessScan raw)) eqn:L;
       [discriminate|]; intros _; apply Nat.ltb_ge in L;
       unfold GS1_DATAMATRIX_LENGTH_THRESHOLD in L; split; [lia|reflexivity]).
Qed.

Lemma parseBarcodeToData_type_witness :
  let r := parseBarcodeToData rejecting_decoder $"12345678" in
  is_gs1 (type r) = false /\
  batch r = None /\ expiry r = None /\ serial r = None /\
  upc_gtin r = preprocessScan $"12345678".
Proof.
  split; [reflexivity|].
  apply (proj1 (parseBarcodeToData_type rejecting_decoder $"12345678")). reflexivity.
Defined.

(** X16. The display lines of a parsed scan are empty exactly when its
    type is not a GS1 type: a GS1 result always shows at least the line of
    the identifier, and a scan that the library does not take apart shows
    nothing. *)
Theorem display_empty_iff (decode : str -> Gs1.decoded) (raw : str) :
  formatGs1AsKeyValueLines (parseBarcodeToData decode raw) = [] <->
  is_gs1 (type (parseBarcodeToData decode raw)) = false.
Proof.
  destruct (parseBarcodeToData_cases decode raw)
    as [[Hn ->]|[[Hn ->]|(Hn & g & b & e & s & Hs & ->)]].
  - split; reflexivity.
  - unfold undecoded, formatGs1AsKeyValueLines. cbn [type upc_gtin batch expiry serial].
    rewrite inferRawType_not_gs1, andb_false_r. split; reflexivity.
  - cbn [type]. rewrite inferGS1Variant_gs1. split; [|discriminate].
    unfold formatGs1AsKeyValueLines. cbn [type upc_gtin batch expiry serial].
    rewrite inferGS1Variant_gs1, andb_true_r.
    assert (Hu : Gs1.nonempty (if Gs1.nonempty g then g else preprocessScan raw) = true).
    { destruct (Gs1.nonempty g) eqn:Hg; [exact Hg|].
      destruct (preprocessScan raw); [contradiction|reflexivity]. }
    rewrite Hu. unfold push_if.
    repeat match goal with
           | |- context [if LabelFormats.truthy ?c then _ else _] =>
               destruct (LabelFormats.truthy c)
           end; cbn; discriminate.
Qed.


Lemma parseBarcodeToData_identifier_witness :
  preprocessScan $" 12345678 " <> [] /\
  Dashboard.raw (parseBarcodeToData rejecting_decoder $" 12345678 ") = Some $" 12345678 ".
Proof.
  split; [discriminate|].
  apply (proj1 (proj2 (parseBarcodeToData_identifier rejecting_decoder $" 12345678 "))).
  discriminate.
Defined.

Lemma display_empty_iff_witness :
  formatGs1AsKeyValueLines (parseBarcodeToData rejecting_decoder $"12345678") = [].
Proof.
  apply (proj2 (display_empty_iff rejecting_decoder $"12345678")). reflexivity.
Defined.

End DashboardFacts.

(** ** Showing an expiry and reading it back *)

Module DisplayFacts.
Import ReAnalysis CharFacts StrFacts ShapeFacts ReMap YymmddFacts DigitFacts.
Import Dashboard.

Lemma month_table_cases (k m : str) :
  lookup k month_table = Some m -> In (k, m) month_table.
Proof.
  unfold month_table. simpl.
  repeat match goal with
         | |- (if Str.eqb k ?x then _ else _) = _ -> _ =>
             let E := fresh "E" in
             destruct (Str.eqb k x) eqn:E;
             [apply eqb_eq in E; subst k; intros [= <-]; tauto|]
         end.
  discriminate.
Qed.

Ltac each_entry H :=
  unfold month_table in H; simpl in H;
  repeat destruct H as [H|H]; try contradiction; injection H as <- <-.

Lemma display_ym (a b c d : ascii) (name mm : str) :
  is_digit a = true -> is_digit b = true -> is_digit c = true -> is_digit d = true ->
  In (name, mm) month_table ->
  formatExpiryDisplay ([a; b; c; d] ++ $"-" ++ mm) = name ++ $" " ++ [a; b; c; d].
Proof.
  intros Ha Hb Hc Hd Hm.
  each_entry Hm; unfold formatExpiryDisplay;
    cbn [app list_ascii_of_string Gs1.nonempty negb orb];
    (rewrite plain_trim by (repeat constructor; (now apply digit_plain) || reflexivity));
    cbn [Gs1.nonempty negb]; unfold re_display; run_pattern; reflexivity.
Qed.

Lemma display_ymd (a b c d d1 d2 : ascii) (name mm : str) :
  is_digit a = true -> is_digit b = true -> is_digit c = true -> is_digit d = true ->
  is_digit d1 = true -> is_digit d2 = true ->
  In (name, mm) month_table ->
  formatExpiryDisplay ([a; b; c; d] ++ $"-" ++ mm ++ $"-" ++ [d1; d2])
  = [d1; d2] ++ $" " ++ name ++ $" " ++ [a; b; c; d].
Proof.
  intros Ha Hb Hc Hd Hd1 Hd2 Hm.
  each_entry Hm; unfold formatExpiryDisplay;
    cbn [app list_ascii_of_string Gs1.nonempty negb orb];
    (rewrite plain_trim by (repeat constructor; (now apply digit_plain) || reflexivity));
    cbn [Gs1.nonempty negb]; unfold re_display; run_pattern; reflexivity.
Qed.

(** X17. [formatExpiryDisplay] shows a text YYYY-MM whose month is 01 to
    12 as the month name and the year, and a text YYYY-MM-DD as day, month
    name and year. *)
Theorem formatExpiryDisplay_date (y : str) (name mm : str) (d1 d2 : ascii) :
  shaped is_digit 4 4 y -> lookup name month_table = Some mm ->
  is_digit d1 = true -> is_digit d2 = true ->
  formatExpiryDisplay (y ++ $"-" ++ mm) = name ++ $" " ++ y /\
  formatExpiryDisplay (y ++ $"-" ++ mm ++ $"-" ++ [d1; d2])
  = [d1; d2] ++ $" " ++ name ++ $" " ++ y.
Proof.
  intros Hy Hm Hd1 Hd2.
  apply shaped4 in Hy as (a & b & c & d & -> & Ha & Hb & Hc & Hd).
  apply month_table_cases in Hm.
  split; [now apply display_ym|now apply display_ymd].
Qed.

Lemma formatExpiryDisplay_date_witness :
  formatExpiryDisplay ($"2027" ++ $"-" ++ $"03") = $"MAR" ++ $" " ++ $"2027" /\
  formatExpiryDisplay ($"2027" ++ $"-" ++ $"03" ++ $"-" ++ ["1"%char; "5"%char])
  = ["1"%char; "5"%char] ++ $" " ++ $"MAR" ++ $" " ++ $"2027".
Proof.
  apply (formatExpiryDisplay_date $"2027" $"MAR" $"03" "1" "5");
    [split; [repeat constructor|simpl; lia]|reflexivity|reflexivity|reflexivity].
Defined.

Lemma toUpperCase_app (x y : str) :
  Str.toUpperCase (x ++ y) = Str.toUpperCase x ++ Str.toUpperCase y.
Proof. unfold Str.toUpperCase. apply flat_map_app. Qed.

Lemma name_year_plain (a b c d : ascii) (name mm : str) :
  is_digit a = true -> is_digit b = true -> is_digit c = true -> is_digit d = true ->
  In (name, mm) month_table ->
  Str.trim (name ++ $" " ++ [a; b; c; d]) = name ++ $" " ++ [a; b; c; d] /\
  Str.toUpperCase (name ++ $" " ++ [a; b; c; d]) = name ++ $" " ++ [a; b; c; d].
Proof.
  intros Ha Hb Hc Hd Hm. split.
  - apply trim_tight_id.
    each_entry Hm; (split; [reflexivity|simpl; now apply digit_not_space]).
  - rewrite !toUpperCase_app.
    rewrite (plain_upper [a; b; c; d]) by (repeat constructor; now apply digit_plain).
    each_entry Hm; reflexivity.
Qed.

Lemma read_back_registry (a b c d : ascii) (name mm : str) :
  is_digit a = true -> is_digit b = true -> is_digit c = true -> is_digit d = true ->
  In (name, mm) month_table ->
  LabelFormats.normalizeExpiry (name ++ $" " ++ [a; b; c; d]) = [a; b; c; d] ++ $"-" ++ mm.
Proof.
  intros Ha Hb Hc Hd Hm.
  each_entry Hm; unfold LabelFormats.normalizeExpiry, LabelFormats.month_branch,
    LabelFormats.re_yyyyMmm, LabelFormats.re_mmmYyyy; run_pattern; reflexivity.
Qed.

Lemma read_back_mapping (a b c d : ascii) (name mm : str) :
  is_digit a = true -> is_digit b = true -> is_digit c = true -> is_digit d = true ->
  In (name, mm) month_table ->
  LabelPatterns.normalizeExpiryForMapping (name ++ $" " ++ [a; b; c; d])
  = [a; b; c; d] ++ $"-" ++ mm.
Proof.
  intros Ha Hb Hc Hd Hm.
  destruct (name_year_plain a b c d name mm Ha Hb Hc Hd Hm) as [Ht Hu].
  unfold LabelPatterns.normalizeExpiryForMapping. rewrite Ht, Hu. cbv zeta.
  each_entry Hm; unfold LabelPatterns.month_branch, LabelPatterns.re_yyyyMmm,
    LabelPatterns.re_mmmYyyy; run_pattern; reflexivity.
Qed.

(** X18. An expiry YYYY-MM with a month 01 to 12 that the dashboard shows
    with [formatExpiryDisplay] is read back to the same YYYY-MM by each of
    the three normalizers: the one of the OCR format registry, the one of
    the field registry and the one of the mapper. *)
Theorem display_read_back (y : str) (name mm : str) :
  shaped is_digit 4 4 y -> lookup name month_table = Some mm ->
  let shown := formatExpiryDisplay (y ++ $"-" ++ mm) in
  LabelFormats.normalizeExpiry shown = y ++ $"-" ++ mm /\
  LabelPatterns.normalizeExpiryForMapping shown = y ++ $"-" ++ mm /\
  Mapper.normalizeExpiry shown = y ++ $"-" ++ mm.
Proof.
  intros Hy Hm. cbv zeta.
  apply shaped4 in Hy as (a & b & c & d & -> & Ha & Hb & Hc & Hd).
  apply month_table_cases in Hm.
  rewrite (display_ym a b c d name mm Ha Hb Hc Hd Hm).
  split; [now apply read_back_registry|].
  pose proof (read_back_mapping a b c d name mm Ha Hb Hc Hd Hm) as Hr.
  split; [exact Hr|].
  destruct (name_year_plain a b c d name mm Ha Hb Hc Hd Hm) as [Ht _].
  unfold Mapper.normalizeExpiry. rewrite Ht. cbv zeta. rewrite Hr.
  replace (Str.eqb _ _) with false; [reflexivity|].
  symmetry. apply eqb_neq. intros E. apply (f_equal (@length ascii)) in E.
  rewrite !length_app in E. each_entry Hm; simpl in E; discriminate.
Qed.

Lemma display_read_back_witness :
  let shown := formatExpiryDisplay ($"2027" ++ $"-" ++ $"03") in
  LabelFormats.normalizeExpiry shown = $"2027" ++ $"-" ++ $"03" /\
  LabelPatterns.normalizeExpiryForMapping shown = $"2027" ++ $"-" ++ $"03" /\
  Mapper.normalizeExpiry shown = $"2027" ++ $"-" ++ $"03".
Proof.
  apply (display_read_back $"2027" $"MAR" $"03");
    [split; [repeat constructor|simpl; lia]|reflexivity].
Defined.

End DisplayFacts.

(** ** The dates of the capture SDK *)

Module LabelFieldsFacts.
Import StrFacts ShapeFacts DigitFacts MapperExpiryFacts.
Import LabelFields.

Lemma month_numeral (m : Z) : (0 <= m <= 99)%Z -> shaped is_digit 1 2 (Str.of_Z m).
Proof.
  intros H.
  assert (Hall : forallb (numeral_ok 1 2) (seq 0 100) = true) by (vm_compute; reflexivity).
  rewrite forallb_forall in Hall. specialize (Hall (Z.to_nat m)). rewrite in_seq in Hall.
  assert (Hn : numeral_ok 1 2 (Z.to_nat m) = true) by (apply Hall; lia).
  unfold numeral_ok in Hn. rewrite Z2Nat.id in Hn by lia.
  apply andb_prop in Hn as [Hn H3]. apply andb_prop in Hn as [H1 H2].
  apply Nat.leb_le in H2, H3. split; [|lia].
  apply Forall_forall. now apply forallb_forall.
Qed.

(** X19. [formatExpiry] on a year whose numeral has four digits and a
    month from 0 to 99 gives the text YYYY-MM, the month padded to two
    digits, whether or not a day is given; the mapper's normalizer leaves
    that text as it is. *)
Theorem formatExpiry_calendar (day : option Z) (month year : Z) :
  shaped is_digit 4 4 (Str.of_Z year) -> (0 <= month <= 99)%Z ->
  formatExpiry day (Some month) (Some year)
  = Str.of_Z year ++ $"-" ++ Str.padStart0 2 (Str.of_Z month) /\
  is_ym (formatExpiry day (Some month) (Some year)) = true /\
  Mapper.normalizeExpiry (formatExpiry day (Some month) (Some year))
  = formatExpiry day (Some month) (Some year).
Proof.
  intros Hy Hm.
  apply month_numeral, pad2_shaped in Hm.
  assert (He : formatExpiry day (Some month) (Some year)
               = Str.of_Z year ++ $"-" ++ Str.padStart0 2 (Str.of_Z month)).
  { unfold formatExpiry. destruct day as [d|]; [|reflexivity].
    now apply slice7_build. }
  rewrite He. split; [reflexivity|].
  pose proof (is_ym_build _ _ Hy Hm) as Hym.
  split; [exact Hym|]. now apply normalizers_keep_ym.
Qed.

Lemma formatExpiry_calendar_witness :
  formatExpiry (Some 15%Z) (Some 3%Z) (Some 2027%Z) = $"2027-03".
Proof.
  rewrite (proj1 (formatExpiry_calendar (Some 15%Z) 3 2027
                    ltac:(split; [repeat constructor|simpl; lia]) ltac:(lia))).
  reflexivity.
Defined.

End LabelFieldsFacts.

(** ** An OCR text without content *)

Module BlankFacts.
Import StrFacts.
Import LabelFormats.

Lemma drop_while_all p (s : str) :
  Forall (fun c => p c = true) s -> Str.drop_while p s = [].
Proof. induction 1 as [|c s Hc _ IH]; simpl; [reflexivity|]. now rewrite Hc. Qed.

Lemma trim_blank (s : str) : Forall (fun c => is_space c = true) s -> Str.trim s = [].
Proof.
  intros H. unfold Str.trim, Str.trimEnd, Str.trimStart.
  now rewrite (drop_while_all _ s H).
Qed.

Lemma collapse_ws_blank (s : str) :
  Forall (fun c => is_space c = true) s ->
  Forall (fun c => is_space c = true) (Str.collapse_ws s).
Proof.
  induction 1 as [|c s Hc Hs IH]; [constructor|].
  simpl. rewrite Hc. destruct s as [|d s]; [repeat constructor|].
  inversion Hs as [|? ? Hd _]; subst. now rewrite Hd.
Qed.

Lemma split_lines_blank_upto (n : nat) (s cur : str) :
  length s <= n ->
  Forall (fun c => is_space c = true) s -> Forall (fun c => is_space c = true) cur ->
  Forall (fun l => Forall (fun c => is_space c = true) l) (Str.split_lines_aux cur s).
Proof.
  revert s cur. induction n as [|n IH]; intros s cur Hn Hs Hcur.
  - destruct s; [|simpl in Hn; lia]. simpl. constructor; [now apply Forall_rev|constructor].
  - destruct s as [|c s].
    { simpl. constructor; [now apply Forall_rev|constructor]. }
    inversion Hs as [|? ? Hc Hs']; subst. simpl in Hn.
    assert (Hcc : Forall (fun c => is_space c = true) (c :: cur)) by now constructor.
    simpl. destruct (Ascii.eqb c "010"%char).
    + constructor; [now apply Forall_rev|]. apply IH; [lia|assumption|constructor].
    + destruct (Ascii.eqb c "013"%char).
      * destruct s as [|d s]; [apply IH; [simpl; lia|assumption|assumption]|].
        inversion Hs' as [|? ? Hd Hs'']; subst. simpl in Hn.
        destruct (Ascii.eqb d "010"%char).
        -- constructor; [now apply Forall_rev|].
           apply IH; [lia|assumption|constructor].
        -- apply IH; [simpl; lia|assumption|assumption].
      * apply IH; [lia|assumption|assumption].
Qed.

Lemma split_lines_blank (s : str) :
  Forall (fun c => is_space c = true) s ->
  Forall (fun l => Forall (fun c => is_space c = true) l) (Str.split_lines s).
Proof.
  intros H. apply (split_lines_blank_upto (length s)); [lia|assumption|constructor].
Qed.

Lemma no_lines (l : list str) :
  Forall (fun x => Forall (fun c => is_space c = true) x) l ->
  filter (fun s => negb (Str.eqb s [])) (map Str.trim l) = [].
Proof.
  induction 1 as [|x l Hx _ IH]; [reflexivity|].
  simpl. now rewrite (trim_blank x Hx), IH.
Qed.

(** X20. For an OCR text that is empty or holds white space only,
    [extractLabelFromOcr] returns three empty fields: no matcher finds
    anything and there is no first line to adopt. *)
Theorem extractLabelFromOcr_blank (ocrText : str) :
  Forall (fun c => is_space c = true) ocrText ->
  extractLabelFromOcr ocrText = ([], [], []).
Proof.
  intros H. unfold extractLabelFromOcr. cbv zeta.
  rewrite (trim_blank _ (collapse_ws_blank _ H)).
  unfold adopt_first_line. cbv zeta.
  rewrite (no_lines _ (split_lines_blank ocrText H)).
  vm_compute. reflexivity.
Qed.

Lemma extractLabelFromOcr_blank_witness :
  extractLabelFromOcr [" "%char; "010"%char; "009"%char] = ([], [], []).
Proof.
  apply (extractLabelFromOcr_blank [" "%char; "010"%char; "009"%char]).
  repeat constructor.
Defined.

End BlankFacts.

(** ** The fields found in an OCR text *)

Module OcrFieldFacts.
Import ReAnalysis CharFacts StrFacts ShapeFacts MtFacts OcrExpiryFacts DigitFacts.
Import LabelFormats.

Lemma match_all_from_mt (r : regex) (w : str) :
  wf r = true ->
  forall fuel l s, In w (match_all_from fuel r l s) -> exists l' s', mt r l' w s'.
Proof.
  intros Hwf. induction fuel as [|fuel IH]; intros l s H; simpl in H; [contradiction|].
  destruct (search_from r l s) as [[[l1 s1] c]|] eqn:E; [|contradiction].
  apply (search_sound r Hwf) in E as (p & w0 & _ & _ & Hm & H0 & _).
  assert (Hg : grp c 0 = w0) by (unfold grp; now rewrite H0).
  destruct H as [H|H].
  - rewrite Hg in H. subst w0. eauto.
  - destruct (grp c 0); [destruct s1; [contradiction|]|]; eapply IH; eauto.
Qed.

Lemma match_all_shaped (r : regex) (lo hi : nat) (t w : str) :
  (wf r && (all_chars is_alnum r && (lo <=? min_len r)
            && match max_len r with Some m => m <=? hi | None => false end)) = true ->
  In w (match_all r t) -> shaped is_alnum lo hi w.
Proof.
  intros Hchk H. apply andb_prop in Hchk as [Hwf Hchk].
  apply (match_all_from_mt r w Hwf) in H as (l & s & Hm).
  eapply mt_shaped; eauto.
Qed.

Lemma insert_by_length_in x y l : In x (insert_by_length y l) -> x = y \/ In x l.
Proof.
  induction l as [|z l IH]; simpl; [intuition|].
  destruct (length z <=? length y); simpl; intuition.
Qed.

Lemma sort_longest_first_in x l : In x (sort_longest_first l) -> In x l.
Proof.
  unfold sort_longest_first. induction l as [|y l IH]; simpl; [auto|].
  intros H. apply insert_by_length_in in H. intuition.
Qed.

Lemma sorted_head_in (f : str -> bool) (l : list str) x rest :
  sort_longest_first (filter f l) = x :: rest -> In x l.
Proof.
  intros H. assert (Hx : In x (sort_longest_first (filter f l))) by (rewrite H; now left).
  apply sort_longest_first_in, filter_In in Hx. tauto.
Qed.

Lemma find_in (f : str -> bool) (l : list str) x : find f l = Some x -> In x l.
Proof. intros H. now apply find_some in H. Qed.

Lemma upper_alnum_unit c :
  is_alnum c = true -> exists c', Str.upper_units c = [c'] /\ is_alnum c' = true.
Proof.
  intros Hc.
  pose proof (all1_spec
    (fun c => implb (is_alnum c)
       match Str.upper_units c with [c'] => is_alnum c' | _ => false end)
    ltac:(vm_compute; reflexivity) c) as H.
  cbv beta in H. rewrite Hc in H. simpl in H.
  destruct (Str.upper_units c) as [|c' [|? ?]]; try discriminate. eauto.
Qed.

Lemma upper_alnum lo hi (x : str) :
  shaped is_alnum lo hi x -> shaped is_alnum lo hi (Str.toUpperCase x).
Proof.
  intros [H1 H2].
  assert (H : Forall (fun c => is_alnum c = true) (Str.toUpperCase x) /\
              length (Str.toUpperCase x) = length x).
  { clear H2. unfold Str.toUpperCase. induction H1 as [|c x Hc _ [IH1 IH2]]; [now split|].
    simpl. destruct (upper_alnum_unit c Hc) as (c' & -> & Hc').
    simpl. split; [now constructor|now rewrite IH2]. }
  destruct H as [Ha Hl]. split; [exact Ha|lia].
Qed.

Lemma alnum_trim lo hi (x : str) : shaped is_alnum lo hi x -> Str.trim x = x.
Proof. intros [H _]. now apply MapperFieldFacts.alnum_tight. Qed.

(** The lot and the batch that each matcher finds. *)
Ltac grp_shape E := eapply exec_re_grp; [exact E|chk].
Ltac all_shape H := eapply match_all_shaped; [|exact H]; chk.

Lemma batch_word_ok t w :
  find letter_and_digit (match_all re_batchWord t) = Some w ->
  shaped is_alnum 2 10 (Str.toUpperCase w).
Proof. intros H. apply find_in in H. apply upper_alnum. all_shape H. Qed.

Lemma digit3to5_ok f t d :
  find f (match_all re_digit3to5 t) = Some d -> shaped is_alnum 2 10 d.
Proof. intros H. apply find_in in H. all_shape H. Qed.

Lemma longest_digits_ok f t lot rest :
  sort_longest_first (filter f (match_all re_digitStrings t)) = lot :: rest ->
  shaped is_alnum 4 15 lot.
Proof. intros H. apply sorted_head_in in H. all_shape H. Qed.

Lemma ok_empty : fields_ok empty_result.
Proof. split; exact I. Qed.

Lemma ok_set_expiry v out : fields_ok out -> fields_ok (set_expiry v out).
Proof. intros H. exact H. Qed.

Lemma ok_set_lot_no v out :
  shaped is_alnum 4 15 v -> fields_ok out -> fields_ok (set_lot_no v out).
Proof. intros Hv [H1 H2]. split; [exact H1|exact Hv]. Qed.

Lemma ok_set_batch_no v out :
  shaped is_alnum 2 10 v -> fields_ok out -> fields_ok (set_batch_no v out).
Proof. intros Hv [H1 H2]. split; [exact Hv|exact H2]. Qed.

Ltac shape_goal :=
  match goal with
  | E : exec_re _ _ = Some ?c |- shaped _ _ _ (grp ?c _) => grp_shape E
  | E : exec_re _ _ = Some ?c |- shaped _ _ _ (Str.toUpperCase (grp ?c _)) =>
      apply upper_alnum; grp_shape E
  | E : exec_re _ _ = Some ?c |- shaped _ _ _ (Str.trim (grp ?c ?i)) =>
      assert (Hg : shaped is_alnum 4 15 (grp c i)) by grp_shape E;
      rewrite (alnum_trim _ _ _ Hg); exact Hg
  | E : find _ (match_all re_batchWord _) = Some ?w
    |- shaped _ _ _ (Str.toUpperCase ?w) => apply (batch_word_ok _ _ E)
  | E : find _ (match_all re_digit3to5 _) = Some ?d |- shaped _ _ _ ?d =>
      apply (digit3to5_ok _ _ _ E)
  | E : sort_longest_first _ = ?lot :: _ |- shaped _ _ _ ?lot =>
      apply (longest_digits_ok _ _ _ _ E)
  end.

Ltac fields_step :=
  match goal with
  | |- fields_ok empty_result => apply ok_empty
  | |- fields_ok (set_expiry _ _) => apply ok_set_expiry
  | |- fields_ok (set_lot_no _ _) => apply ok_set_lot_no; [shape_goal|]
  | |- fields_ok (set_batch_no _ _) => apply ok_set_batch_no; [shape_goal|]
  | |- fields_ok (if ?b then _ else _) => destruct b
  | |- fields_ok (match ?x with _ => _ end) => destruct x eqn:?
  end.

Lemma matchers_fields t f : In f LABEL_FORMATS -> fields_ok (extract f t).
Proof.
  intros H. unfold LABEL_FORMATS in H. simpl in H.
  repeat destruct H as [H|H]; try contradiction; subst f; cbn [extract].
  - unfold gs1Style, gs1Style_extract. cbn [extract]. cbv zeta. repeat fields_step.
  - unfold numericLotYyyyMmm, numericLotYyyyMmm_extract. cbn [extract]. cbv zeta.
    repeat fields_step.
  - unfold lotExpMmmYyyy, lotExpMmmYyyy_extract. cbn [extract]. cbv zeta.
    repeat fields_step.
  - unfold lotNumberExpirationDate, lotNumberExpirationDate_extract. cbn [extract]. cbv zeta.
    repeat fields_step.
  - unfold lotHashExpSlash, lotHashExpSlash_extract. cbn [extract]. cbv zeta.
    repeat fields_step.
  - unfold fallback, fallback_extract. cbn [extract]. cbv zeta. repeat fields_step.
Qed.

Lemma first_line_ok l0 c :
  exec_re re_firstLine l0 = Some c -> shaped is_alnum 2 10 (grp c 0).
Proof.
  intros E. apply exec_re_whole in E as (p & q & _ & Hm); [|reflexivity].
  eapply mt_shaped; [exact Hm|chk].
Qed.

Lemma adopt_first_line_ok ocrText best :
  fields_ok best -> fields_ok (adopt_first_line ocrText best).
Proof.
  intros H. unfold adopt_first_line. cbv zeta.
  destruct (filter _ _) as [|l0 ls]; [exact H|].
  destruct (exec_re re_firstLine l0) as [c|] eqn:E; [|exact H].
  cbn [option_map]. destruct (_ && _); [|exact H].
  apply ok_set_batch_no; [now apply (first_line_ok l0)|exact H].
Qed.

Lemma field_ok_finish lo hi o :
  field_ok lo hi o -> empty_or_alnum lo hi (Str.trim (or_empty o)).
Proof.
  destruct o as [x|]; simpl; intros H; [|now left].
  right. now rewrite (alnum_trim _ _ _ H).
Qed.

(** The result that is selected and completed by the first-line rule. *)
Lemma ocr_best_ok (ocrText : str) :
  fields_ok (adopt_first_line ocrText
               (fst (select LABEL_FORMATS (Str.trim (Str.collapse_ws ocrText))))).
Proof.
  apply adopt_first_line_ok.
  destruct (select_in LABEL_FORMATS (Str.trim (Str.collapse_ws ocrText)))
    as [->|(f & Hin & ->)]; [apply ok_empty|now apply matchers_fields].
Qed.

Lemma ocr_batch_ok (ocrText : str) :
  empty_or_alnum 2 10 (fst (fst (extractLabelFromOcr ocrText))).
Proof.
  unfold extractLabelFromOcr, finish. cbv zeta. cbn [fst].
  apply field_ok_finish, ocr_best_ok.
Qed.

(** X21. What [extractLabelFromOcr] returns for any OCR text: a batch
    number that is empty or 2 to 10 letters and digits, a lot number that is
    empty or 4 to 15 letters and digits, and an expiry that is empty or of
    the form YYYY-MM. *)
Theorem extractLabelFromOcr_fields (ocrText : str) :
  let '(batch_no, lot_no, expiry) := extractLabelFromOcr ocrText in
  empty_or_alnum 2 10 batch_no /\ empty_or_alnum 4 15 lot_no /\
  empty_or is_ym expiry = true.
Proof.
  pose proof (extractLabelFromOcr_expiry ocrText) as He.
  pose proof (ocr_best_ok ocrText) as [H1 H2].
  unfold extractLabelFromOcr, finish in *. cbv zeta in *. cbn [snd] in He.
  split; [now apply field_ok_finish|].
  split; [now apply field_ok_finish|exact He].
Qed.

End OcrFieldFacts.

(** ** The selection among the OCR formats *)

Module OcrSelectionFacts.
Import ReAnalysis CharFacts StrFacts ShapeFacts MtFacts OcrExpiryFacts DigitFacts ReMap.
Import AnchorFacts OcrFieldFacts SelectionFacts.
Import LabelFormats.

Lemma words_acc_ok s : forall w,
  Forall (fun c => is_space c = false) w -> Forall word_ok (words_acc w s).
Proof.
  induction s as [|c s IH]; intros w Hw; cbn [words_acc].
  - destruct w as [|a w]; [constructor|]. constructor; [|constructor].
    split; [|now apply Forall_rev].
    intros E. apply (f_equal (@length ascii)) in E. rewrite length_rev in E. discriminate.
  - destruct (is_space c) eqn:Ec.
    + destruct w as [|a w]; [apply IH; constructor|].
      constructor; [|apply IH; constructor].
      split; [|now apply Forall_rev].
      intros E. apply (f_equal (@length ascii)) in E. rewrite length_rev in E. discriminate.
    + apply IH. now constructor.
Qed.

Lemma words_acc_nonempty s : forall a w, words_acc (a :: w) s <> [].
Proof.
  induction s as [|c s IH]; intros a w; cbn [words_acc]; [discriminate|].
  destruct (is_space c); [discriminate|apply IH].
Qed.

Lemma join_sp_cons x (l : list str) :
  l <> [] -> join_sp (x :: l) = x ++ " "%char :: join_sp l.
Proof. destruct l; [now intros H|reflexivity]. Qed.

(** The collapsed text is the words, one space between them, with at most
    one space before and after. *)
Lemma collapse_words s : forall w,
  exists b,
    (b = [] \/ b = [" "%char]) /\ (words_acc w s = [] -> b = []) /\
    rev w ++ Str.collapse_ws s =
      (if match w with [] => starts_ws s | _ :: _ => false end then [" "%char] else [])
      ++ join_sp (words_acc w s) ++ b.
Proof.
  induction s as [|c s IH]; intros w.
  - exists []. split; [now left|]. split; [auto|].
    cbn [Str.collapse_ws words_acc starts_ws]. destruct w as [|a w]; [reflexivity|].
    cbn [join_sp app]. now rewrite !app_nil_r.
  - cbn [Str.collapse_ws words_acc starts_ws].
    destruct (is_space c) eqn:Ec.
    + destruct (IH []) as (b & Hb & Hnil & E). cbn [rev app] in E.
      destruct s as [|d s'].
      * cbn [words_acc join_sp app] in *. destruct w as [|a w].
        -- exists []. split; [now left|]. split; [auto|reflexivity].
        -- exists [" "%char]. split; [now right|]. split; [discriminate|].
           cbn [join_sp]. reflexivity.
      * cbn [starts_ws] in E. destruct (is_space d) eqn:Ed.
        -- rewrite E. destruct w as [|a w].
           ++ exists b. split; [exact Hb|]. split; [exact Hnil|reflexivity].
           ++ destruct (words_acc [] (d :: s')) as [|x l] eqn:Ew.
              ** rewrite (Hnil eq_refl). exists [" "%char].
                 split; [now right|]. split; [discriminate|]. reflexivity.
              ** exists b. split; [exact Hb|]. split; [discriminate|].
                 rewrite (join_sp_cons (rev (a :: w)) (x :: l)) by discriminate. cbn [app].
                 now rewrite <- !app_assoc.
        -- assert (Hne : words_acc [] (d :: s') <> []).
           { cbn [words_acc]. rewrite Ed. apply words_acc_nonempty. }
           rewrite E. cbn [app]. destruct w as [|a w].
           ++ exists b. split; [exact Hb|]. split; [exact Hnil|reflexivity].
           ++ exists b. split; [exact Hb|]. split; [discriminate|].
              rewrite (join_sp_cons (rev (a :: w)) _ Hne). cbn [app].
              now rewrite <- !app_assoc.
    + destruct (IH (c :: w)) as (b & Hb & Hnil & E).
      exists b. split; [exact Hb|]. split; [exact Hnil|].
      cbn [rev] in E. rewrite <- app_assoc in E. cbn [app] in E. rewrite E.
      now destruct w.
Qed.

Lemma join_sp_tight (l : list str) :
  Forall word_ok l -> l <> [] ->
  match join_sp l with [] => False | c :: _ => is_space c = false end /\
  match rev (join_sp l) with [] => False | c :: _ => is_space c = false end.
Proof.
  induction 1 as [|x l [Hx Hs] Hl IH]; intros Hne; [now elim Hne|].
  destruct l as [|y l].
  - cbn [join_sp]. split.
    + destruct x as [|a x]; [now elim Hx|]. now inversion Hs.
    + apply Forall_rev in Hs. destruct (rev x) as [|a r] eqn:Er.
      * apply (f_equal (@length ascii)) in Er. rewrite length_rev in Er.
        destruct x; [now elim Hx|discriminate].
      * now inversion Hs.
  - destruct (IH ltac:(discriminate)) as [_ IH2].
    rewrite join_sp_cons by discriminate. split.
    + destruct x as [|a x]; [now elim Hx|]. now inversion Hs.
    + rewrite rev_app_distr. cbn [rev]. rewrite <- app_assoc.
      destruct (rev (join_sp (y :: l))) as [|a r]; [contradiction|exact IH2].
Qed.

Lemma trim_padded (a b J : str) :
  (a = [] \/ a = [" "%char]) -> (b = [] \/ b = [" "%char]) ->
  match J with [] => False | c :: _ => is_space c = false end ->
  match rev J with [] => False | c :: _ => is_space c = false end ->
  Str.trim (a ++ J ++ b) = J.
Proof.
  intros Ha Hb H1 H2. unfold Str.trim, Str.trimEnd, Str.trimStart.
  assert (E1 : Str.drop_while is_space (a ++ J ++ b) = J ++ b).
  { destruct J as [|c J]; [contradiction|].
    destruct Ha as [->| ->]; cbn [app Str.drop_while].
    - now rewrite H1.
    - change (is_space " ") with true. cbv iota. now rewrite H1. }
  rewrite E1, rev_app_distr.
  assert (E2 : Str.drop_while is_space (rev b ++ rev J) = rev J).
  { destruct (rev J) as [|c r]; [contradiction|].
    destruct Hb as [->| ->]; cbn [rev app Str.drop_while].
    - now rewrite H2.
    - change (is_space " ") with true. cbv iota. now rewrite H2. }
  rewrite E2. apply rev_involutive.
Qed.

Lemma trim_spaces (a b : str) :
  (a = [] \/ a = [" "%char]) -> (b = [] \/ b = [" "%char]) -> Str.trim (a ++ b) = [].
Proof. intros [->| ->] [->| ->]; reflexivity. Qed.

(** The text that the matchers run on: the words of the OCR text, one
    space between them. *)
Lemma collapsed_text (s : str) :
  Str.trim (Str.collapse_ws s) = join_sp (words s).
Proof.
  destruct (collapse_words s []) as (b & Hb & Hnil & E).
  cbn [rev app] in E. rewrite E. fold (words s) in *.
  assert (Ha : (if starts_ws s then [" "%char] else []) = []
               \/ (if starts_ws s then [" "%char] else []) = [" "%char])
    by (destruct (starts_ws s); auto).
  destruct (words s) as [|x l] eqn:Ew.
  - cbn [join_sp app]. now apply trim_spaces.
  - pose proof (words_acc_ok s [] ltac:(constructor)) as Hok. fold (words s) in Hok.
    rewrite Ew in Hok.
    destruct (join_sp_tight (x :: l) Hok ltac:(discriminate)) as [H1 H2].
    now apply trim_padded.
Qed.

Lemma counts_alnum lo hi o : field_ok lo hi o -> counts o = filled o.
Proof.
  unfold counts. destruct o as [x|]; [|reflexivity]. cbn [field_ok option_map].
  intros H. rewrite (alnum_trim _ _ _ H). now destruct x.
Qed.

Lemma ym_tight (e : str) : is_ym e = true -> Str.trim e = e.
Proof.
  intros H. apply trim_tight_id.
  destruct e as [|a [|b [|c [|d [|x [|f [|g [|h r]]]]]]]]; try discriminate.
  pose proof (is_ym_inv _ _ _ _ _ _ _ H) as (Ha & _ & _ & _ & _ & _ & Hg).
  split; cbn [rev app]; now apply digit_not_space.
Qed.

Lemma counts_ym o : expiry_ok o -> counts o = filled o.
Proof.
  unfold counts. destruct o as [x|]; [|reflexivity]. cbn [expiry_ok option_map].
  intros H. rewrite (ym_tight _ H). now destruct x.
Qed.

(** The score of a format's result counts its fields that are there and
    not empty: no format gives a blank field. *)
Lemma score_filled t f :
  In f LABEL_FORMATS -> score (extract f t) = filled_fields (extract f t).
Proof.
  intros Hf. destruct (matchers_fields t f Hf) as [Hb Hl].
  pose proof (formats_expiry t f Hf) as He.
  unfold score, filled_fields.
  rewrite (counts_alnum 2 10 _ Hb), (counts_alnum 4 15 _ Hl).
  now rewrite (counts_ym _ He).
Qed.

Lemma exec_re_anchored_whole (r : regex) (s : str) (c : caps) :
  (wf r && ends_eol r) = true -> exec_re (Seq Bol r) s = Some c -> grp c 0 = s.
Proof.
  intros Hchk H. apply andb_prop in Hchk as [Hwf He].
  apply exec_re_whole in H as (p & q & Hs & Hm); [|exact Hwf].
  destruct Hm as (w1 & w2 & Hw & [-> Hp] & Hm). simpl in Hw, Hm.
  assert (p = []) as -> by (destruct p; [reflexivity|]; simpl in Hp;
                           destruct (rev p); discriminate).
  pose proof (mt_ends_eol r He _ _ _ Hm) as ->.
  simpl in Hs. rewrite app_nil_r in Hs. now subst.
Qed.

Lemma short_code_shaped x : short_code x = true <-> shaped is_alnum 2 10 x.
Proof.
  unfold short_code, shaped. rewrite !andb_true_iff, forallb_forall, Forall_forall.
  rewrite Nat.leb_le, Nat.leb_le. tauto.
Qed.

Lemma absa_alnum (x : str) :
  Forall (fun c => is_alnum c = true) x -> map absa x = repeat "0"%char (length x).
Proof.
  induction 1 as [|c x Hc _ IH]; [reflexivity|].
  cbn [map length repeat]. unfold absa at 1. now rewrite Hc, IH.
Qed.

(** The first-line pattern accepts exactly the texts of 2 to 10 letters
    and digits, and captures the whole text. *)
Lemma firstLine_match (l0 : str) :
  option_map (fun c => grp c 0) (exec_re re_firstLine l0)
  = if short_code l0 then Some l0 else None.
Proof.
  destruct (exec_re re_firstLine l0) as [c|] eqn:E; cbn [option_map].
  - pose proof (first_line_ok l0 c E) as Hs.
    rewrite (exec_re_anchored_whole
               (Seq (times 2 10 (Chr (cls_i is_upper_digit))) Eol) l0 c) in *
      by (chk || exact E).
    apply short_code_shaped in Hs. now rewrite Hs.
  - destruct (short_code l0) eqn:Hs; [|reflexivity].
    apply short_code_shaped in Hs as [Ha Hl].
    destruct (exec_re_map_some absa re_firstLine l0) as [c Ec]; [chk| |congruence].
    rewrite (absa_alnum _ Ha).
    assert (Hc : In (length l0) [2; 3; 4; 5; 6; 7; 8; 9; 10]) by (simpl; lia).
    simpl in Hc.
    repeat (destruct Hc as [<-|Hc]; [vm_compute; reflexivity|]). contradiction.
Qed.

Lemma adopt_first_line_batch (ocrText : str) (best : LabelFormatResult) :
  or_empty (batch_no (adopt_first_line ocrText best)) =
  if truthy (batch_no best) then or_empty (batch_no best)
  else match first_line ocrText with
       | Some fl =>
           if short_code fl && differs (lot_no best) fl && differs (expiry best) fl
           then fl else or_empty (batch_no best)
       | None => or_empty (batch_no best)
       end.
Proof.
  unfold adopt_first_line, first_line. cbv zeta.
  destruct (filter _ _) as [|l0 ls]; cbn [hd_error].
  - now destruct (truthy (batch_no best)).
  - rewrite firstLine_match. destruct (short_code l0) eqn:Hs; cbn [andb].
    + destruct (truthy (batch_no best)); cbn [negb andb]; [reflexivity|].
      apply short_code_shaped in Hs as [_ Hl].
      assert (Ht : truthy (Some l0) = true) by (destruct l0; [simpl in Hl; lia|reflexivity]).
      rewrite Ht. cbn [andb].
      destruct (differs (lot_no best) l0 && differs (expiry best) l0); reflexivity.
    + now destruct (truthy (batch_no best)).
Qed.

Lemma falsy_or_empty (o : option str) : truthy o = false -> or_empty o = [].
Proof. destruct o as [[|a x]|]; [reflexivity|discriminate|reflexivity]. Qed.

Lemma best_expiry_ok (t : str) : expiry_ok (expiry (fst (select LABEL_FORMATS t))).
Proof.
  destruct (select_in LABEL_FORMATS t) as [->|(f & Hin & ->)]; [exact I|].
  now apply formats_expiry.
Qed.

Lemma field_ok_trim lo hi o : field_ok lo hi o -> Str.trim (or_empty o) = or_empty o.
Proof.
  destruct o as [x|]; cbn [field_ok or_empty]; [|reflexivity].
  intros H. now rewrite (alnum_trim _ _ _ H).
Qed.

Lemma expiry_ok_trim o : expiry_ok o -> Str.trim (or_empty o) = or_empty o.
Proof.
  destruct o as [x|]; cbn [expiry_ok or_empty]; [|reflexivity]. apply ym_tight.
Qed.

(** The result that the selection loop keeps. *)
Lemma select_best (t : str) :
  exists best,
    best = fst (select LABEL_FORMATS t) /\
    (forall f, In f LABEL_FORMATS -> score (extract f t) <= score best) /\
    ((best = empty_result /\ forall f, In f LABEL_FORMATS -> score (extract f t) = 0) \/
     (exists pre f post,
        LABEL_FORMATS = pre ++ f :: post /\ best = extract f t /\
        forall g, In g pre -> score (extract g t) < score best)).
Proof.
  exists (fst (select LABEL_FORMATS t)). split; [reflexivity|].
  unfold select.
  destruct (select_fold t LABEL_FORMATS empty_result 0) as [Hmax Hsel].
  cbv zeta in Hmax, Hsel. split.
  - destruct Hsel as [[Hr Hle]|(pre & f & post & Hf & Hb & Hs & Hlt & Hpre)].
    + rewrite Hr. cbn [fst]. intros f Hf. apply Hle in Hf.
      change (score empty_result) with 0. exact Hf.
    + intros g Hg. rewrite Hb, <- Hs. auto.
  - destruct Hsel as [[Hr Hle]|(pre & f & post & Hf & Hb & Hs & Hlt & Hpre)].
    + left. rewrite Hr. cbn [fst]. split; [reflexivity|].
      intros f Hf. apply Hle in Hf. lia.
    + right. exists pre, f, post. split; [exact Hf|]. split; [exact Hb|].
      intros g Hg. rewrite Hb, <- Hs. auto.
Qed.

(** C6, amended. [extractLabelFromOcr] runs every format of
    [LABEL_FORMATS] on the words of the OCR text joined by single spaces
    (the text with every run of white space collapsed to one space, and
    trimmed).  The score of a format's result is the number of its fields
    batch, lot and expiry that are there and not empty.  The result [best]
    that is selected scores at least as much as every format's result, and
    is the result of the first format of the list that reaches this
    highest score (the empty result when every format scores 0).  The
    record returned has the lot and the expiry of [best]; its batch is the
    batch of [best] when that is not empty; otherwise it is the first
    non-blank line of the OCR text, trimmed, when that line is 2 to 10
    letters and digits and differs from the lot and the expiry of [best],
    and empty when not. *)
Theorem extractLabelFromOcr_selects (ocrText : str) :
  let t := join_sp (words ocrText) in
  Str.trim (Str.collapse_ws ocrText) = t /\
  (forall f, In f LABEL_FORMATS -> score (extract f t) = filled_fields (extract f t)) /\
  exists best,
    (forall f, In f LABEL_FORMATS -> score (extract f t) <= score best) /\
    ((best = empty_result /\ forall f, In f LABEL_FORMATS -> score (extract f t) = 0) \/
     (exists pre f post,
        LABEL_FORMATS = pre ++ f :: post /\ best = extract f t /\
        forall g, In g pre -> score (extract g t) < score best)) /\
    extractLabelFromOcr ocrText =
      ((if truthy (batch_no best) then or_empty (batch_no best)
        else match first_line ocrText with
             | Some fl =>
                 if short_code fl && differs (lot_no best) fl && differs (expiry best) fl
                 then fl else []
             | None => []
             end),
       or_empty (lot_no best), or_empty (expiry best)).
Proof.
  intros t. split; [apply collapsed_text|]. split; [intros f; apply score_filled|].
  destruct (select_best t) as (best & Hb & Hmax & Hsel).
  exists best. split; [exact Hmax|]. split; [exact Hsel|].
  unfold extractLabelFromOcr, finish. cbv zeta. rewrite collapsed_text. fold t.
  rewrite <- Hb.
  pose proof (ocr_best_ok ocrText) as [H1 H2].
  rewrite collapsed_text in H1, H2. fold t in H1, H2. rewrite <- Hb in H1, H2.
  pose proof (best_expiry_ok t) as H3. rewrite <- Hb in H3.
  destruct (adopt_first_line_keeps ocrText best) as (Kl & Ke & _).
  rewrite (field_ok_trim _ _ _ H1), (field_ok_trim _ _ _ H2).
  rewrite Ke, Kl, (expiry_ok_trim _ H3), adopt_first_line_batch.
  destruct (truthy (batch_no best)) eqn:T; [reflexivity|].
  rewrite (falsy_or_empty _ T). reflexivity.
Qed.

(** C6 as the specification states it fails: the record returned need not
    be the result of any format.  On the text AB, line feed,
    Lot No.: 20054138 the formats find the lot at most, and the batch AB of
    the record returned is the first line of the text. *)
Lemma first_line_fills_batch :
  extractLabelFromOcr first_line_text = ($"AB", $"20054138", []) /\
  map (fun f => finish (extract f (Str.trim (Str.collapse_ws first_line_text)))) LABEL_FORMATS
  = [([], $"20054138", []); ([], [], []); ([], [], []); ([], [], []); ([], [], []);
     ([], $"20054138", [])] /\
  ~ In (extractLabelFromOcr first_line_text)
       (map (fun f => finish (extract f (Str.trim (Str.collapse_ws first_line_text))))
            LABEL_FORMATS).
Proof.
  assert (H1 : extractLabelFromOcr first_line_text = ($"AB", $"20054138", []))
    by (vm_compute; reflexivity).
  assert (H2 : map (fun f => finish (extract f (Str.trim (Str.collapse_ws first_line_text))))
                   LABEL_FORMATS
               = [([], $"20054138", []); ([], [], []); ([], [], []); ([], [], []);
                  ([], [], []); ([], $"20054138", [])])
    by (vm_compute; reflexivity).
  split; [exact H1|]. split; [exact H2|].
  rewrite H1, H2. intros [H|[H|[H|[H|[H|[H|[]]]]]]].
  all: apply (f_equal (fun x => length (fst (fst x)))) in H.
  all: cbn [fst length] in H.
  all: discriminate H.
Qed.

(** The example of the specification.  The GS1-style format and the
    fallback both score 2 on the text; the GS1-style format comes first. *)
Lemma extractLabelFromOcr_selects_witness :
  map (fun f => score (extract f (join_sp (words spec_ocr_text)))) LABEL_FORMATS
  = [2; 0; 0; 0; 1; 2] /\
  join_sp (words spec_ocr_text) = $"Lot No.: 20054138 Exp.: 2027-02" /\
  extractLabelFromOcr spec_ocr_text = ([], $"20054138", $"2027-02") /\
  Str.trim (Str.collapse_ws spec_ocr_text) = join_sp (words spec_ocr_text) /\
  (forall f, In f LABEL_FORMATS ->
     score (extract f (join_sp (words spec_ocr_text)))
     = filled_fields (extract f (join_sp (words spec_ocr_text)))).
Proof.
  split; [vm_compute; reflexivity|]. split; [vm_compute; reflexivity|].
  split; [vm_compute; reflexivity|].
  destruct (extractLabelFromOcr_selects spec_ocr_text) as (H1 & H2 & _).
  split; assumption.
Defined.

End OcrSelectionFacts.

(** ** The label sent for an OCR text *)

Module ScannerAppFacts.
Import ReAnalysis StrFacts ShapeFacts MtFacts ReMap DigitFacts AnchorFacts.
Import Gs1ResultFacts OcrFieldFacts.
Import ScannerApp.

(** The units that [correctBatchOcr] leaves in a text of digits. *)
Lemma corrected_unit c :
  is_digit c = true ->
  let c' := if Ascii.eqb "2" (if Ascii.eqb "8" c then "B" else c) then "Z"%char
            else if Ascii.eqb "8" c then "B"%char else c in
  Str.upper_units c' = [c'] /\ is_alnum c' = true /\ c' <> "8"%char /\ c' <> "2"%char.
Proof.
  intros Hc.
  pose proof (all1_spec
    (fun c => implb (is_digit c)
       (let c' := if Ascii.eqb "2" (if Ascii.eqb "8" c then "B" else c) then "Z"%char
                  else if Ascii.eqb "8" c then "B"%char else c in
        Str.eqb (Str.upper_units c') [c'] && is_alnum c'
        && negb (Ascii.eqb c' "8") && negb (Ascii.eqb c' "2")))
    ltac:(vm_compute; reflexivity) c) as H.
  cbv beta zeta in H. rewrite Hc in H. cbn [implb] in H. cbv zeta.
  apply andb_prop in H as [H H4]. apply andb_prop in H as [H H3].
  apply andb_prop in H as [H1 H2].
  apply eqb_eq in H1. apply negb_true_iff, Ascii.eqb_neq in H3, H4. tauto.
Qed.

Lemma correctBatchOcr_digits (b : str) :
  Forall (fun c => is_digit c = true) b ->
  length (correctBatchOcr b) = length b /\
  Forall (fun c => is_alnum c = true) (correctBatchOcr b) /\
  ~ In "8"%char (correctBatchOcr b) /\ ~ In "2"%char (correctBatchOcr b).
Proof.
  unfold correctBatchOcr, Str.toUpperCase, Str.replace_char.
  induction 1 as [|c b Hc _ (IH1 & IH2 & IH3 & IH4)]; [simpl; intuition|].
  cbn [map flat_map].
  destruct (corrected_unit c Hc) as (Hu & Ha & H8 & H2). cbv zeta in Hu, Ha, H8, H2.
  rewrite Hu. cbn [app length].
  split; [now rewrite IH1|]. split; [now constructor|].
  split; intros [E|E]; auto.
Qed.

Lemma shortDigits_sound (b : str) :
  test re_shortDigits b = true -> shaped is_digit 3 5 b.
Proof.
  intros H. apply Gs1Facts.test_true in H as [c E].
  apply (exec_re_anchored (Seq (times 3 5 digit) Eol)) in E; [|chk].
  destruct E as (w1 & w2 & Hs & Hm & [-> _]). rewrite app_nil_r in Hs. subst w1.
  eapply mt_shaped; [exact Hm|chk].
Qed.

Lemma shortDigits_complete (b : str) :
  shaped is_digit 3 5 b -> test re_shortDigits b = true.
Proof.
  intros [Hd Hl].
  destruct (exec_re_map_some absd re_shortDigits b) as [c E]; [chk| |unfold test; now rewrite E].
  assert (Hm : map absd b = repeat "0"%char (length b)).
  { clear Hl. induction Hd as [|x b Hx _ IH]; [reflexivity|].
    simpl. now rewrite (absd_digit x Hx), IH. }
  rewrite Hm.
  assert (Hc : length b = 3 \/ length b = 4 \/ length b = 5) by lia.
  destruct Hc as [-> | [-> | ->]]; vm_compute; reflexivity.
Qed.

(** On a text of digits the correction works unit by unit. *)
Lemma corrected_unit_fix c :
  is_digit c = true ->
  Str.upper_units
    (if Ascii.eqb "2" (if Ascii.eqb "8" c then "B" else c) then "Z"%char
     else if Ascii.eqb "8" c then "B"%char else c) = [digit_fix c].
Proof.
  intros Hc.
  pose proof (all1_spec
    (fun c => implb (is_digit c)
       (Str.eqb (Str.upper_units
          (if Ascii.eqb "2" (if Ascii.eqb "8" c then "B" else c) then "Z"%char
           else if Ascii.eqb "8" c then "B"%char else c)) [digit_fix c]))
    ltac:(vm_compute; reflexivity) c) as H.
  cbv beta in H. rewrite Hc in H. cbn [implb] in H. now apply eqb_eq in H.
Qed.

Lemma correctBatchOcr_map (b : str) :
  Forall (fun c => is_digit c = true) b -> correctBatchOcr b = map digit_fix b.
Proof.
  unfold correctBatchOcr, Str.toUpperCase, Str.replace_char.
  induction 1 as [|c b Hc _ IH]; [reflexivity|].
  cbn [map flat_map]. rewrite (corrected_unit_fix c Hc), IH. reflexivity.
Qed.

Lemma short_digits_shaped b : short_digits b = true <-> shaped is_digit 3 5 b.
Proof.
  unfold short_digits, shaped. rewrite !andb_true_iff, forallb_forall, Forall_forall.
  rewrite Nat.leb_le, Nat.leb_le. tauto.
Qed.

(** X22. The label that the scanner builds for an OCR text: its lot number
    and expiry are those of [extractLabelFromOcr]; its batch number is that
    of [extractLabelFromOcr] unless that one is 3 to 5 digits, in which case
    it is the same digits, unit by unit, with B for every 8 and Z for every
    2.  So the batch number is never a text of 3 to 5 digits that holds an
    8 or a 2, and it is still empty or 2 to 10 letters and digits. *)
Theorem ocrTextToLabelJson_batch (ocrText : str) :
  let '(b0, l0, e0) := LabelFormats.extractLabelFromOcr ocrText in
  ocrTextToLabelJson ocrText =
    (if short_digits b0 then map digit_fix b0 else b0, l0, e0) /\
  (forall b l e, ocrTextToLabelJson ocrText = (b, l, e) ->
     ~ (shaped is_digit 3 5 b /\ (In "8"%char b \/ In "2"%char b)) /\
     empty_or_alnum 2 10 b).
Proof.
  pose proof (ocr_batch_ok ocrText) as Hb.
  unfold ocrTextToLabelJson.
  destruct (LabelFormats.extractLabelFromOcr ocrText) as [[b0 l0] e0].
  cbn [fst] in Hb.
  assert (Hiff : test re_shortDigits b0 = true <-> shaped is_digit 3 5 b0).
  { split; [apply shortDigits_sound|apply shortDigits_complete]. }
  destruct (test re_shortDigits b0) eqn:T.
  - pose proof (proj1 Hiff eq_refl) as Hs.
    rewrite (proj2 (short_digits_shaped b0) Hs).
    destruct Hs as [Hd Hl].
    assert (Hn : Gs1.nonempty b0 = true) by (destruct b0; [simpl in Hl; lia|reflexivity]).
    rewrite Hn. cbn [andb].
    destruct (correctBatchOcr_digits b0 Hd) as (Hlen & Ha & H8 & H2).
    rewrite (correctBatchOcr_map b0 Hd) in *.
    split; [reflexivity|]. intros b l e [= <- <- <-]. split.
    + intros [_ [E|E]]; auto.
    + right. split; [exact Ha|lia].
  - rewrite andb_false_r.
    assert (Hs : short_digits b0 = false).
    { destruct (short_digits b0) eqn:E; [|reflexivity].
      apply short_digits_shaped, Hiff in E. discriminate. }
    rewrite Hs. split; [reflexivity|]. intros b l e [= <- <- <-].
    split; [|exact Hb].
    intros [Hs' _]. apply Hiff in Hs'. discriminate.
Qed.

(** The batch 1284 of a label is sent as 1ZB4. *)
Lemma ocrTextToLabelJson_batch_witness :
  LabelFormats.extractLabelFromOcr
    ($"LOT # 250767C" ++ "010"%char :: $"EXP 12/2026" ++ "010"%char :: $"1284")
  = ($"1284", $"250767C", $"2026-12") /\
  ocrTextToLabelJson
    ($"LOT # 250767C" ++ "010"%char :: $"EXP 12/2026" ++ "010"%char :: $"1284")
  = ($"1ZB4", $"250767C", $"2026-12").
Proof.
  assert (H : LabelFormats.extractLabelFromOcr
                ($"LOT # 250767C" ++ "010"%char :: $"EXP 12/2026" ++ "010"%char :: $"1284")
              = ($"1284", $"250767C", $"2026-12")) by (vm_compute; reflexivity).
  split; [exact H|].
  pose proof (ocrTextToLabelJson_batch
                ($"LOT # 250767C" ++ "010"%char :: $"EXP 12/2026" ++ "010"%char :: $"1284"))
    as Ht.
  rewrite H in Ht. destruct Ht as [Ht _]. exact Ht.
Defined.

End ScannerAppFacts.
